(** * Schema loading, row-cache policy, cache pool and plan rewriting

    A shallow embedding of the tablet server's table-info loader
    ([tabletserver.TableInfo]), its cache pool ([tabletserver.CachePool]),
    the plan builder's query rewriter ([planbuilder]) and the field
    descriptor of the wire protocol ([mysql.Field]), with the properties
    the design document states about them and further ones.

    Go values are modelled as follows: [int] and [uint64] as [Z] (the
    wrap-around of [uint64] is written out where the code can reach it),
    slices as lists (a slice whose nil-ness the code tests is an
    [option (list _)], [None] being the nil slice), a pointer to a struct
    held in a slice as the position of that struct in the list, a call
    that can return an [error] or panic as a [result]. *)

From Stdlib Require Import ZArith String Ascii Lia.
From stdpp Require Import base list strings pretty.

Local Open Scope Z_scope.
Local Open Scope string_scope.
Local Open Scope list_scope.

(** ** Results of fallible calls *)

(** [Err] is a returned [error], [Panic] a run-time panic (index out of
    range, nil dereference, failed type assertion, explicit [panic]),
    [Fatal] a [log.Fatal], which ends the process. *)
Inductive result (A : Type) : Type :=
| Ok (a : A)
| Err (msg : string)
| Panic
| Fatal (msg : string).
Arguments Ok {A} a.
Arguments Err {A} msg.
Arguments Panic {A}.
Arguments Fatal {A} msg.

Definition rbind {A B} (r : result A) (k : A -> result B) : result B :=
  match r with
  | Ok a => k a
  | Err m => Err m
  | Panic => Panic
  | Fatal m => Fatal m
  end.

Notation "'try!' x <- c ; k" := (rbind c (fun x => k))
  (at level 10, x name, c at level 100, k at level 200).

Definition is_Ok {A} (r : result A) : Prop := exists a, r = Ok a.

(** ** [strings.Contains] *)

Fixpoint Contains (s substr : string) : bool :=
  if String.prefix substr s then true
  else match s with
       | EmptyString => false
       | String _ s' => Contains s' substr
       end.

(** ** The schema package *)

Module schema.

(** Modelled from the spec: the column categories of [vt/schema], which
    is not among the sources (number, varbinary, other). *)
Inductive Category : Set := CAT_OTHER | CAT_NUMBER | CAT_VARBINARY.

(** Modelled from the spec: the cache types of [vt/schema] (none,
    read-write). *)
Inductive CacheKind : Set := CACHE_NONE | CACHE_RW.

#[global] Instance Category_eq_dec : EqDecision Category.
Proof. solve_decision. Defined.

#[global] Instance CacheKind_eq_dec : EqDecision CacheKind.
Proof. solve_decision. Defined.

Section Columns.
Context {Value : Type}.

(** The mapping of a SQL type string to a category, which [Table.AddColumn]
    applies ([vt/schema] is not among the sources). *)
Variable category_of : string -> Category.

(** Modelled from the spec: [schema.TableColumn] (name, category, default
    value, modifier). *)
Record TableColumn : Type := mkColumn {
  ColName : string;
  ColCategory : Category;
  ColDefault : Value;
  ColExtra : string }.

(** Modelled from the spec: [schema.Index] (name, columns, cardinalities
    parallel to the columns, the covered [DataColumns]). *)
Record Index : Type := mkIndex {
  IdxName : string;
  IdxColumns : list string;
  IdxCardinality : list Z;
  DataColumns : list string }.

(** Modelled from the spec: [schema.Table]. [PKColumns] is [None] for the
    nil slice. *)
Record Table : Type := mkTable {
  Name : string;
  Columns : list TableColumn;
  Indexes : list Index;
  PKColumns : option (list Z);
  CacheType : CacheKind }.

(** Modelled from the spec: [schema.NewTable], an empty table. *)
Definition NewTable (name : string) : Table :=
  mkTable name [] [] None CACHE_NONE.

(** Modelled from the spec: [Table.AddColumn] appends a column whose
    category is derived from the SQL type string. *)
Definition Table_AddColumn (ta : Table) (name columnType : string)
    (defval : Value) (extra : string) : Table :=
  mkTable (Name ta)
          (Columns ta ++ [mkColumn name (category_of columnType) defval extra])
          (Indexes ta) (PKColumns ta) (CacheType ta).

(** Modelled from the spec: [schema.NewIndex], an index without columns. *)
Definition NewIndex (name : string) : Index := mkIndex name [] [] [].

(** Modelled from the spec: [Index.AddColumn] records the column and its
    cardinality. *)
Definition Index_AddColumn (ix : Index) (name : string) (cardinality : Z) : Index :=
  mkIndex (IdxName ix) (IdxColumns ix ++ [name])
          (IdxCardinality ix ++ [cardinality]) (DataColumns ix).

(** Position of the first element equal to [name], from [i] on; -1 when
    there is none. *)
Fixpoint find_from (i : Z) (names : list string) (name : string) : Z :=
  match names with
  | [] => -1
  | n :: rest => if decide (n = name) then i else find_from (i + 1) rest name
  end.

(** Modelled from the spec: [Table.FindColumn], the position of the column
    called [name] in the column list, -1 when the name is unknown. *)
Definition FindColumn (cols : list TableColumn) (name : string) : Z :=
  find_from 0 (ColName <$> cols) name.

(** Modelled from the spec: [Index.FindDataColumn], the position of [name]
    in [DataColumns], -1 when it is not there. *)
Definition FindDataColumn (ix : Index) (name : string) : Z :=
  find_from 0 (DataColumns ix) name.

(** Modelled from the spec: [Table.AddIndex] appends a new index; the
    pointer it returns is the position of that index in [Indexes]. *)
Definition Table_AddIndex (ta : Table) (name : string) : Table * nat :=
  (mkTable (Name ta) (Columns ta) (Indexes ta ++ [NewIndex name])
           (PKColumns ta) (CacheType ta),
   length (Indexes ta)).

End Columns.
Arguments TableColumn : clear implicits.
Arguments Table : clear implicits.

End schema.
Import schema.

(** ** The tablet server: cache pool *)

Module tabletserver.

Record RowCacheConfig : Type := mkRowCacheConfig {
  Binary : string;
  Memory : Z;
  Socket : string;
  TcpPort : Z;
  Connections : Z;
  Threads : Z;
  LockPaged : bool }.

(** [strconv.Itoa]. *)
Definition Itoa (n : Z) : string := pretty n.

Definition GetSubprocessFlags (c : RowCacheConfig) : list string :=
  if decide (Binary c = "") then []
  else
    [Binary c]
    ++ (if decide (Memory c > 0) then ["-m"; Itoa (Memory c)] else [])
    ++ (if decide (Socket c <> "") then ["-s"; Socket c] else [])
    ++ (if decide (TcpPort c > 0) then ["-p"; Itoa (TcpPort c)] else [])
    ++ (if decide (Connections c > 0) then ["-c"; Itoa (Connections c)] else [])
    ++ (if decide (Threads c > 0) then ["-t"; Itoa (Threads c)] else [])
    ++ (if LockPaged c then ["-k"] else []).

(** [pools.ResourcePool], an external collaborator: what
    [pools.NewResourcePool(factory, capacity, maxCap, idleTimeout)] was
    given; the factory connects to [rpEndpoint]. *)
Record ResourcePool : Type := mkResourcePool {
  rpEndpoint : string;
  rpCapacity : Z;
  rpMaxCap : Z;
  rpIdleTimeout : Z }.

(** [CachePool]. [cmd] is the command line of the child process; the
    mutex and [memcacheStats], which these sources never assign, are left
    out. Durations are [int64] nanoseconds. *)
Record CachePool : Type := mkCachePool {
  name : string;
  pool : option ResourcePool;
  cmd : option (list string);
  rowCacheConfig : RowCacheConfig;
  capacity : Z;
  port : string;
  idleTimeout : Z;
  DeleteExpiry : Z }.

Definition zeroConfig : RowCacheConfig := mkRowCacheConfig "" 0 "" 0 0 0 false.

(** [time.Second] in nanoseconds. *)
Definition Second : Z := 1000000000.

(** Conversion of an [int64] to [uint64], and [uint64] arithmetic. *)
Definition uint64 (x : Z) : Z := x mod 2 ^ 64.

Definition NewCachePool (name : string) (rowCacheConfig : RowCacheConfig)
    (queryTimeout idleTimeout : Z) : result CachePool :=
  if decide (Binary rowCacheConfig = "") then
    Ok (mkCachePool name None None zeroConfig 0 "" idleTimeout 0)
  else
    (* Start with memcached defaults *)
    let capacity := 1024 - 50 in
    let port := "11211" in
    let port := if decide (Socket rowCacheConfig <> "") then Socket rowCacheConfig else port in
    let port := if decide (TcpPort rowCacheConfig > 0)
                then ":" +:+ Itoa (TcpPort rowCacheConfig) else port in
    try! capacity <-
      (if decide (Connections rowCacheConfig > 0) then
         if decide (Connections rowCacheConfig <= 50) then
           Fatal ("insufficient capacity: " +:+ Itoa (Connections rowCacheConfig))
         else Ok (Connections rowCacheConfig - 50)
       else Ok capacity);
    let seconds := uint64 (queryTimeout `quot` Second) in
    let expiry := if decide (seconds <> 0) then uint64 (2 * seconds + 15) else 0 in
    Ok (mkCachePool name None None rowCacheConfig capacity port idleTimeout expiry).

(** What one probe of the child process does: the connect fails, or it
    succeeds and the health write fails, with the text of its error, or
    succeeds. *)
Inductive Probe : Set := ConnectFails | SetFails (err : string) | Healthy.

(** The polling loop of [startMemcache], [attempts] failures so far;
    [fuel] bounds the unfolding (50 probes always suffice). *)
Fixpoint pollMemcache (fuel : nat) (attempts : Z) (probes : nat -> Probe) : result unit :=
  match fuel with
  | O => Panic
  | S fuel' =>
      match probes 0%nat with
      | ConnectFails =>
          let attempts := attempts + 1 in
          if decide (attempts >= 50) then Fatal "Can't connect to memcache"
          else pollMemcache fuel' attempts (fun i => probes (S i))
      | SetFails err => Fatal ("can't communicate with memcache: " +:+ err)
      | Healthy => Ok tt
      end
  end.

(** [startMemcache]: [start] is the error of starting the child, [None]
    when it could be started, [probes] what each connection attempt
    finds. An empty command line cannot happen after the check of [Open]
    and would panic. *)
Definition startMemcache (cp : CachePool) (start : option string) (probes : nat -> Probe)
    : result CachePool :=
  match GetSubprocessFlags (rowCacheConfig cp) with
  | [] => Panic
  | commandLine =>
      let cp := mkCachePool (name cp) (pool cp) (Some commandLine) (rowCacheConfig cp)
                            (capacity cp) (port cp) (idleTimeout cp) (DeleteExpiry cp) in
      match start with
      | None => try! _ <- pollMemcache 50 0 probes; Ok cp
      | Some err => Fatal ("can't start memcache: " +:+ err)
      end
  end.

Definition Open (cp : CachePool) (start : option string) (probes : nat -> Probe)
    : result CachePool :=
  if decide (pool cp <> None) then Panic
  else if decide (Binary (rowCacheConfig cp) = "") then Panic
  else
    try! cp <- startMemcache cp start probes;
    Ok (mkCachePool (name cp)
          (Some (mkResourcePool (port cp) (capacity cp) (capacity cp) (idleTimeout cp)))
          (cmd cp) (rowCacheConfig cp) (capacity cp) (port cp) (idleTimeout cp)
          (DeleteExpiry cp)).

Definition Close (cp : CachePool) : CachePool :=
  match pool cp with
  | None => cp
  | Some _ =>
      mkCachePool (name cp) None (cmd cp) (rowCacheConfig cp) (capacity cp) (port cp)
                  (idleTimeout cp) (DeleteExpiry cp)
  end.

Definition IsClosed (cp : CachePool) : bool :=
  match pool cp with None => true | Some _ => false end.

Definition getPool (cp : CachePool) : option ResourcePool := pool cp.

Definition Capacity (cp : CachePool) : Z :=
  match getPool cp with
  | None => 0
  | Some pool => rpCapacity pool
  end.

Definition MaxCap (cp : CachePool) : Z :=
  match getPool cp with
  | None => 0
  | Some pool => rpMaxCap pool
  end.

Definition IdleTimeout (cp : CachePool) : Z :=
  match getPool cp with
  | None => 0
  | Some pool => rpIdleTimeout pool
  end.

(** An [int64] after an arithmetic operation, with its wrap-around. *)
Definition int64 (x : Z) : Z := (x + 2 ^ 63) mod 2 ^ 64 - 2 ^ 63.

(** [GetMaxPrefix]: [maxPrefix.Add(1)] on the process-wide counter, whose
    value is passed in; the result is the value returned and the new
    value of the counter. *)
Definition GetMaxPrefix (maxPrefix : Z) : Z * Z :=
  let v := int64 (maxPrefix + 1) in (v, v).

(** ** The tablet server: table info *)

(** Modelled from the spec: a cell of a result row of the MySQL driver
    (an [interface{}]): nil, a byte slice, or a value of another Go
    type. *)
Inductive Cell : Type := CNil | CBytes (b : string) | CInt (n : Z).

(** [row[i].([]byte)], which panics when the row is too short or the cell
    is not a byte slice. *)
Definition asBytes (row : list Cell) (i : nat) : result string :=
  match row !! i with
  | Some (CBytes b) => Ok b
  | _ => Panic
  end.

(** [l[i]] for a Go [int] index. *)
Definition at_index {A} (l : list A) (i : Z) : option A :=
  if decide (0 <= i) then l !! Z.to_nat i else None.

(** A loop over a slice whose body can fail. *)
Fixpoint rfold {A B} (f : A -> B -> result A) (a : A) (l : list B) : result A :=
  match l with
  | [] => Ok a
  | b :: l' => try! a' <- f a b; rfold f a' l'
  end.

(** Modelled from the spec: [mysql.MySqlConn], the driver, as what
    [Execute] answers to a query (rows or an error). *)
Record MySqlConn : Type := mkConn {
  Execute : string -> result (list (list Cell)) }.

Section TableInfo.
Context {Value RowCache : Type}.

(** [sqltypes.BuildValue], [strconv.ParseUint] (its value, also when it
    reports an error, which the loader only logs) and the category of a
    SQL type string are taken as given. *)
Variable BuildValue : Cell -> result Value.
Variable ParseUint : string -> Z.
Variable category_of : string -> Category.

(** [TableInfo]: the embedded table, the cache handle (nil as [None]) and
    the four counters. *)
Record TableInfo : Type := mkTableInfo {
  Tbl : Table Value;
  Cache : option RowCache;
  hits : Z;
  absent : Z;
  misses : Z;
  invalidations : Z }.

(** [NewRowCache] is not among the sources. *)
Variable NewRowCache : TableInfo -> CachePool -> RowCache.

Definition withTable (ti : TableInfo) (ta : Table Value) : TableInfo :=
  mkTableInfo ta (Cache ti) (hits ti) (absent ti) (misses ti) (invalidations ti).

Definition fetchColumns_row (ta : Table Value) (row : list Cell) : result (Table Value) :=
  match row !! 4%nat with
  | None => Panic
  | Some c4 =>
      try! v <- BuildValue c4;
      try! field <- asBytes row 0;
      try! type <- asBytes row 1;
      try! extra <- asBytes row 5;
      Ok (Table_AddColumn category_of ta field type v extra)
  end.

Definition fetchColumns (ti : TableInfo) (conn : MySqlConn) : result TableInfo :=
  try! columns <- Execute conn ("describe `" +:+ Name (Tbl ti) +:+ "`");
  try! ta <- rfold fetchColumns_row (Tbl ti) columns;
  Ok (withTable ti ta).

(** The loop of [SetPK] over the given names: the positions found so far
    and the index under construction. *)
Fixpoint SetPK_loop (cols : list (TableColumn Value)) (colnames : list string)
    (pkIndex : Index) (colnums : list Z) : result (Index * list Z) :=
  match colnames with
  | [] => Ok (pkIndex, colnums)
  | colname :: rest =>
      let n := FindColumn cols colname in
      if decide (n = -1) then Err ("column " +:+ colname +:+ " not found")
      else SetPK_loop cols rest (Index_AddColumn pkIndex colname 1) (colnums ++ [n])
  end.

Definition withDataColumns (ix : Index) (dc : list string) : Index :=
  mkIndex (IdxName ix) (IdxColumns ix) (IdxCardinality ix) dc.

(** [SetPK]. An error leaves the table as it was. With a first index that
    is not the primary one, the code appends a nil entry, copies every
    index one position up and overwrites position 0: the new index comes
    first and the others follow in their order. *)
Definition SetPK (ti : TableInfo) (colnames : list string) : result TableInfo :=
  let ta := Tbl ti in
  try! r <- SetPK_loop (Columns ta) colnames (NewIndex "PRIMARY") [];
  let '(pkIndex, colnums) := r in
  let pkIndex := withDataColumns pkIndex (DataColumns pkIndex ++ (ColName <$> Columns ta)) in
  let indexes :=
    match Indexes ta with
    | [] => [pkIndex]
    | first :: rest =>
        if decide (IdxName first <> "PRIMARY") then pkIndex :: first :: rest
        else pkIndex :: rest
    end in
  Ok (withTable ti (mkTable (Name ta) (Columns ta) indexes (Some colnums) (CacheType ta))).

(** The state of the loop of [fetchIndexes] over the rows: the table,
    [currentIndex] (a pointer into [Indexes], nil at first) and
    [currentName]. *)
Definition fetchIndexes_row (st : Table Value * option nat * string) (row : list Cell)
    : result (Table Value * option nat * string) :=
  let '(ta, currentIndex, currentName) := st in
  try! indexName <- asBytes row 2;
  let '(ta, currentIndex, currentName) :=
    if decide (currentName <> indexName) then
      let '(ta', p) := Table_AddIndex ta indexName in (ta', Some p, indexName)
    else (ta, currentIndex, currentName) in
  try! cardinality <-
    match row !! 6%nat with
    | None => Panic
    | Some CNil => Ok 0
    | Some (CBytes b) => Ok (ParseUint b)
    | Some _ => Panic
    end;
  try! column <- asBytes row 4;
  match currentIndex with
  | None => Panic
  | Some p =>
      Ok (mkTable (Name ta) (Columns ta)
            (alter (fun ix => Index_AddColumn ix column cardinality) p (Indexes ta))
            (PKColumns ta) (CacheType ta),
          currentIndex, currentName)
  end.

(** What [fetchIndexes] does to a secondary index: its own columns are
    appended to [DataColumns], then every primary-key column that is not
    there yet. *)
Definition coverSecondary (pkColumns : list string) (ix : Index) : Index :=
  let ix := foldl (fun ix c => withDataColumns ix (DataColumns ix ++ [c])) ix (IdxColumns ix) in
  foldl (fun ix c =>
           if decide (FindDataColumn ix c <> -1) then ix
           else withDataColumns ix (DataColumns ix ++ [c]))
        ix pkColumns.

Definition fetchIndexes (ti : TableInfo) (conn : MySqlConn) : result TableInfo :=
  try! indexes <- Execute conn ("show index from `" +:+ Name (Tbl ti) +:+ "`");
  try! st <- rfold fetchIndexes_row (Tbl ti, None, "") indexes;
  let ta := st.1.1 in
  match Indexes ta with
  | [] => Ok (withTable ti ta)
  | pkIndex :: rest =>
      if decide (IdxName pkIndex <> "PRIMARY") then Ok (withTable ti ta)
      else
        let pkColumns := FindColumn (Columns ta) <$> IdxColumns pkIndex in
        (* Primary key contains all table columns *)
        let pkIndex' :=
          withDataColumns pkIndex (DataColumns pkIndex ++ (ColName <$> Columns ta)) in
        (* Secondary indices contain all primary key columns *)
        let rest' := coverSecondary (IdxColumns pkIndex) <$> rest in
        Ok (withTable ti (mkTable (Name ta) (Columns ta) (pkIndex' :: rest')
                                  (Some pkColumns) (CacheType ta)))
  end.

Definition loadTableInfo (conn : MySqlConn) (tableName : string) : result TableInfo :=
  let ti := mkTableInfo (NewTable tableName) None 0 0 0 0 in
  try! ti <- fetchColumns ti conn;
  fetchIndexes ti conn.

(** The loop of [initRowCache] over [PKColumns]: [false] when it meets a
    column of category other; indexing outside the column list panics. *)
Fixpoint pkSupported (cols : list (TableColumn Value)) (pk : list Z) : result bool :=
  match pk with
  | [] => Ok true
  | col :: rest =>
      match at_index cols col with
      | None => Panic
      | Some c =>
          if decide (ColCategory c = CAT_OTHER) then Ok false
          else pkSupported cols rest
      end
  end.

Definition initRowCache (ti : TableInfo) (tableType : string) (createTime : Value)
    (comment : string) (cachePool : CachePool) : result TableInfo :=
  if IsClosed cachePool then Ok ti
  else if Contains comment "vtocc_nocache" then Ok ti
  else if decide (tableType = "VIEW") then Ok ti
  else
    match PKColumns (Tbl ti) with
    | None => Ok ti
    | Some pk =>
        try! supported <- pkSupported (Columns (Tbl ti)) pk;
        if supported then
          let ta := Tbl ti in
          let ti := withTable ti (mkTable (Name ta) (Columns ta) (Indexes ta)
                                          (PKColumns ta) CACHE_RW) in
          Ok (mkTableInfo (Tbl ti) (Some (NewRowCache ti cachePool))
                          (hits ti) (absent ti) (misses ti) (invalidations ti))
        else Ok ti
    end.

Definition NewTableInfo (conn : MySqlConn) (tableName tableType : string)
    (createTime : Value) (comment : string) (cachePool : CachePool) : result TableInfo :=
  try! ti <- loadTableInfo conn tableName;
  initRowCache ti tableType createTime comment cachePool.

End TableInfo.
Arguments TableInfo : clear implicits.

End tabletserver.
Import tabletserver.

(** ** The parser's syntax tree and its reprint *)

Module sqlparser.

(** Modelled from the spec: the [sqlparser] package (the syntax tree, the
    [Format] reprint of its nodes and [TrackedBuffer]) is not among the
    sources. The nodes the plan builder inspects are modelled one by one;
    every other expression node is represented by what its [Format]
    prints: literal text ([Text]), a bind variable ([ValArg]) and child
    nodes in their order ([Seq]). The statement kinds the rewriter does
    not look into carry the node their reprint prints. *)
Record IndexHints : Type := mkIndexHints {
  HintType : string;
  HintIndexes : list string }.

#[local] Set Warnings "-register-all".

(** Modelled from the spec: the nodes of the syntax tree ([sqlparser] is
    not among the sources). An absent optional field (a nil pointer) is
    [None]. *)
Inductive SQLNode : Type :=
| Text (s : string)
| ValArg (name : string)
| Seq (a b : SQLNode)
| Subquery (sel : SQLNode)
| Limit (Offset : option SQLNode) (Rowcount : SQLNode)
| Select (Comments : SQLNode) (Distinct : string) (SelectExprs : SQLNode)
         (From : list SQLNode) (Where : option SQLNode) (GroupBy : SQLNode)
         (Having : option SQLNode) (OrderBy : SQLNode) (Limit : option SQLNode)
         (Lock : string)
| Union (Type_ : string) (Left Right : SQLNode)
| AliasedTableExpr (Expr : SQLNode) (As : option string) (Hints : option IndexHints)
| ParenTableExpr (Expr : SQLNode)
| JoinTableExpr (LeftExpr : SQLNode) (Join : string) (RightExpr : SQLNode)
                (On : option SQLNode)
| Insert (body : SQLNode)
| Replace (body : SQLNode)
| Update (body : SQLNode)
| Delete (body : SQLNode)
| Set_ (body : SQLNode)
| DDL (body : SQLNode)
| Other (body : SQLNode).

Definition AST_USE : string := "use".
Definition AST_FOR_UPDATE : string := " for update".
Definition AST_LEFT_JOIN : string := "left join".
Definition AST_RIGHT_JOIN : string := "right join".

(** The callbacks a [TrackedBuffer] is created with in these sources:
    nil, and the plan builder's [FormatImpossible]. *)
Inductive NodeFormatter : Set := nilFormatter | impossibleFormatter.

(** Modelled from the spec: a rewritten query with its bind-variable
    holes, each an offset and a length in the text. *)
Record ParsedQuery : Type := mkParsedQuery {
  Query : string;
  BindLocations : list (nat * nat) }.

(** Modelled from the spec: [sqlparser.TrackedBuffer], the text written
    so far, the bind variables met and the callback. *)
Record TrackedBuffer : Type := mkTrackedBuffer {
  content : string;
  bindLocations : list (nat * nat);
  nodeFormatter : NodeFormatter }.

Definition NewTrackedBuffer (nodeFormatter : NodeFormatter) : TrackedBuffer :=
  mkTrackedBuffer "" [] nodeFormatter.

Definition WriteString (buf : TrackedBuffer) (s : string) : TrackedBuffer :=
  mkTrackedBuffer (content buf +:+ s) (bindLocations buf) (nodeFormatter buf).

Definition WriteArg (buf : TrackedBuffer) (arg : string) : TrackedBuffer :=
  mkTrackedBuffer (content buf +:+ arg)
                  (bindLocations buf ++ [(String.length (content buf), String.length arg)])
                  (nodeFormatter buf).

Definition HasBindVars (buf : TrackedBuffer) : bool :=
  match bindLocations buf with [] => false | _ => true end.

Definition toParsedQuery (buf : TrackedBuffer) : ParsedQuery :=
  mkParsedQuery (content buf) (bindLocations buf).

(** Modelled from the spec: [IndexHints.Format], as in
    [ use index (idx)]. *)
Definition formatIndexHints (h : IndexHints) (buf : TrackedBuffer) : TrackedBuffer :=
  let buf := WriteString buf (" " +:+ HintType h +:+ " index ") in
  let '(buf, _) :=
    foldl (fun '(buf, prefix) n => (WriteString buf (prefix +:+ n), ", "))
          (buf, "(") (HintIndexes h) in
  WriteString buf ")".

Section Format.

(** [buf.Myprintf("%v", node)], through which every [Format] method prints
    the children of its node. *)
Variable Myprintf_v : SQLNode -> TrackedBuffer -> TrackedBuffer.

(** Modelled from the spec: [TableExprs.Format], the table expressions
    separated by commas. *)
Fixpoint formatTableExprs (l : list SQLNode) (prefix : string) (buf : TrackedBuffer)
    : TrackedBuffer :=
  match l with
  | [] => buf
  | n :: l' => formatTableExprs l' ", " (Myprintf_v n (WriteString buf prefix))
  end.

(** A clause that a nil pointer leaves out: [where], [having], [on],
    [limit]. *)
Definition formatClause (keyword : string) (w : option SQLNode) (buf : TrackedBuffer)
    : TrackedBuffer :=
  match w with
  | None => buf
  | Some e => Myprintf_v e (WriteString buf keyword)
  end.

(** Modelled from the spec: [node.Format(buf)], the canonical reprint of
    a node. *)
Definition Format (node : SQLNode) (buf : TrackedBuffer) : TrackedBuffer :=
  match node with
  | Text s => WriteString buf s
  | ValArg name => WriteArg buf name
  | Seq a b => Myprintf_v b (Myprintf_v a buf)
  | Subquery sel => WriteString (Myprintf_v sel (WriteString buf "(")) ")"
  | Limit offset rowcount =>
      let buf := WriteString buf " limit " in
      let buf := match offset with
                 | None => buf
                 | Some o => WriteString (Myprintf_v o buf) ", "
                 end in
      Myprintf_v rowcount buf
  | Select comments distinct exprs tables whereE groupBy havingE orderBy limit lock =>
      (* "select %v%s%v from %v%v%v%v%v%v%s" *)
      let buf := WriteString buf "select " in
      let buf := Myprintf_v comments buf in
      let buf := WriteString buf distinct in
      let buf := Myprintf_v exprs buf in
      let buf := WriteString buf " from " in
      let buf := formatTableExprs tables "" buf in
      let buf := formatClause " where " whereE buf in
      let buf := Myprintf_v groupBy buf in
      let buf := formatClause " having " havingE buf in
      let buf := Myprintf_v orderBy buf in
      let buf := formatClause "" limit buf in
      WriteString buf lock
  | Union type leftE rightE =>
      let buf := Myprintf_v leftE buf in
      let buf := WriteString buf (" " +:+ type +:+ " ") in
      Myprintf_v rightE buf
  | AliasedTableExpr expr as_ hints =>
      let buf := Myprintf_v expr buf in
      let buf := match as_ with
                 | None => buf
                 | Some a => WriteString buf (" as " +:+ a)
                 end in
      match hints with
      | None => buf
      | Some h => formatIndexHints h buf
      end
  | ParenTableExpr expr => WriteString (Myprintf_v expr (WriteString buf "(")) ")"
  | JoinTableExpr leftE join rightE on =>
      let buf := Myprintf_v leftE buf in
      let buf := WriteString buf (" " +:+ join +:+ " ") in
      let buf := Myprintf_v rightE buf in
      formatClause " on " on buf
  | Insert body | Replace body | Update body | Delete body
  | Set_ body | DDL body | Other body => Myprintf_v body buf
  end.

End Format.

(** Modelled from the spec: [sqlparser.Update], [sqlparser.Delete] and
    [sqlparser.Insert] (which [sqlparser.Replace] has the fields of), with
    the fields the rewriter prints. *)
Record UpdateStmt : Type := mkUpdate {
  UpdComments : SQLNode;
  UpdTable : SQLNode;
  UpdExprs : SQLNode;
  UpdWhere : option SQLNode;
  UpdOrderBy : SQLNode;
  UpdLimit : option SQLNode }.

Record DeleteStmt : Type := mkDelete {
  DelComments : SQLNode;
  DelTable : SQLNode;
  DelWhere : option SQLNode;
  DelOrderBy : SQLNode;
  DelLimit : option SQLNode }.

Record InsertStmt : Type := mkInsert {
  InsComments : SQLNode;
  InsTable : SQLNode;
  InsColumns : SQLNode;
  InsRows : SQLNode;
  InsOnDup : SQLNode }.

End sqlparser.
Import sqlparser.

(** ** The plan builder: query rewriting *)

Module planbuilder.

(** [FormatImpossible], the callback that prints every select with an
    impossible where clause; [Myprintf_v] is [buf.Myprintf("%v", _)]. *)
Definition FormatImpossible (Myprintf_v : SQLNode -> TrackedBuffer -> TrackedBuffer)
    (buf : TrackedBuffer) (node : SQLNode) : TrackedBuffer :=
  match node with
  | Select _ _ exprs tables _ _ _ _ _ _ =>
      (* "select %v from %v where 1 != 1" *)
      let buf := WriteString buf "select " in
      let buf := Myprintf_v exprs buf in
      let buf := WriteString buf " from " in
      let buf := formatTableExprs Myprintf_v tables "" buf in
      WriteString buf " where 1 != 1"
  | JoinTableExpr leftE join rightE _ =>
      if decide (join = AST_LEFT_JOIN \/ join = AST_RIGHT_JOIN) then
        (* ON clause is requried: "%v %s %v on 1 != 1" *)
        let buf := Myprintf_v leftE buf in
        let buf := WriteString buf (" " +:+ join +:+ " ") in
        let buf := Myprintf_v rightE buf in
        WriteString buf " on 1 != 1"
      else
        (* "%v %s %v" *)
        let buf := Myprintf_v leftE buf in
        let buf := WriteString buf (" " +:+ join +:+ " ") in
        Myprintf_v rightE buf
  | _ => Format Myprintf_v node buf
  end.

(** [buf.Myprintf("%v", node)]: [node.Format(buf)] when the buffer has no
    callback, the callback otherwise. *)
Fixpoint Myprintf_v (node : SQLNode) (buf : TrackedBuffer) {struct node} : TrackedBuffer :=
  match nodeFormatter buf with
  | nilFormatter => Format Myprintf_v node buf
  | impossibleFormatter => FormatImpossible Myprintf_v buf node
  end.

(** The sentinel limit, [&sqlparser.Limit{Rowcount: sqlparser.ValArg(":#maxLimit")}]. *)
Definition execLimit : SQLNode := Limit None (ValArg ":#maxLimit").

Definition GenerateFullQuery (statement : SQLNode) : ParsedQuery :=
  let buf := NewTrackedBuffer nilFormatter in
  toParsedQuery (Format Myprintf_v statement buf).

(** [GenerateFieldQuery]; [None] is the nil query. *)
Definition GenerateFieldQuery (statement : SQLNode) : option ParsedQuery :=
  let buf := NewTrackedBuffer impossibleFormatter in
  let buf := Myprintf_v statement buf in
  if HasBindVars buf then None else Some (toParsedQuery buf).

(** Assignment to [sel.Limit]; only a [Select] has the field. *)
Definition setLimit (sel : SQLNode) (limit : option SQLNode) : SQLNode :=
  match sel with
  | Select c d e f w g h o _ k => Select c d e f w g h o limit k
  | _ => sel
  end.

(** [GenerateSelectLimitQuery] works on a pointer to the statement: the
    result is the query together with the statement as the call leaves
    it. The deferred function runs after the query has been printed. *)
Definition GenerateSelectLimitQuery (selStmt : SQLNode) : ParsedQuery * SQLNode :=
  let buf := NewTrackedBuffer nilFormatter in
  match selStmt with
  | Select _ _ _ _ _ _ _ _ None _ =>
      let selStmt := setLimit selStmt (Some execLimit) in
      let query := toParsedQuery (Myprintf_v selStmt buf) in
      (* deferred *)
      let selStmt := setLimit selStmt None in
      (query, selStmt)
  | _ => (toParsedQuery (Myprintf_v selStmt buf), selStmt)
  end.

(** The column list of [GenerateSubquery]; indexing an empty slice panics. *)
Fixpoint writeNames (columns : list string) (buf : TrackedBuffer) : result TrackedBuffer :=
  match columns with
  | [] => Panic
  | [c] => Ok (WriteString buf c)
  | c :: rest => writeNames rest (WriteString buf (c +:+ ", "))
  end.

(** [buf.Myprintf("%v", where)] for a [*Where], which prints nothing when
    nil. *)
Definition printWhere (where_ : option SQLNode) (buf : TrackedBuffer) : TrackedBuffer :=
  match where_ with
  | None => buf
  | Some e => Myprintf_v e (WriteString buf " where ")
  end.

Definition GenerateSubquery (columns : list string) (table : SQLNode)
    (where_ : option SQLNode) (order : SQLNode) (limit : option SQLNode)
    (for_update : bool) : result ParsedQuery :=
  let buf := NewTrackedBuffer nilFormatter in
  let limit := match limit with None => execLimit | Some l => l end in
  let buf := WriteString buf "select " in
  try! buf <- writeNames columns buf;
  let buf := WriteString buf " from " in
  let buf := Myprintf_v table buf in
  let buf := printWhere where_ buf in
  let buf := Myprintf_v order buf in
  let buf := Myprintf_v limit buf in
  let buf := if for_update then WriteString buf AST_FOR_UPDATE else buf in
  Ok (toParsedQuery buf).

(** Assignment to [table_expr.Hints], where [table_expr] points to the
    first table expression of [sel]. *)
Definition setHints (sel : SQLNode) (hints : option IndexHints) : SQLNode :=
  match sel with
  | Select c d e (AliasedTableExpr expr as_ _ :: rest) w g h o l k =>
      Select c d e (AliasedTableExpr expr as_ hints :: rest) w g h o l k
  | _ => sel
  end.

(** [GenerateSelectSubquery], with the statement as the call leaves it.
    The type assertion on [sel.From[0]] panics before anything is
    written; the deferred function also runs when the body panics. *)
Definition GenerateSelectSubquery {Value} (sel : SQLNode) (tableInfo : Table Value)
    (index : string) : result ParsedQuery * SQLNode :=
  let hint := mkIndexHints AST_USE [index] in
  match sel with
  | Select _ _ _ (AliasedTableExpr _ _ savedHint :: _) _ _ _ _ _ _ =>
      let sel := setHints sel (Some hint) in
      let r :=
        match sel, Indexes tableInfo with
        | Select _ _ _ (table_expr :: _) where_ _ _ orderBy limit _, ix :: _ =>
            GenerateSubquery (IdxColumns ix) table_expr where_ orderBy limit false
        | _, _ => Panic
        end in
      (* deferred *)
      let sel := setHints sel savedHint in
      (r, sel)
  | _ => (Panic, sel)
  end.

(** [writeColumnList]; indexing an empty column list panics. *)
Fixpoint writeColumnList {Value} (buf : TrackedBuffer) (columns : list (TableColumn Value))
    : result TrackedBuffer :=
  match columns with
  | [] => Panic
  | [c] => Ok (WriteString buf (ColName c))
  | c :: rest => writeColumnList (WriteString buf (ColName c +:+ ", ")) rest
  end.

(** [GenerateSelectOuterQuery]; [sel] is a [*sqlparser.Select]. *)
Definition GenerateSelectOuterQuery {Value} (sel : SQLNode) (tableInfo : Table Value)
    : result ParsedQuery :=
  match sel with
  | Select _ _ _ from _ _ _ _ _ _ =>
      let buf := NewTrackedBuffer nilFormatter in
      let buf := WriteString buf "select " in
      try! buf <- writeColumnList buf (Columns tableInfo);
      (* " from %v where %a" *)
      let buf := WriteString buf " from " in
      let buf := formatTableExprs Myprintf_v from "" buf in
      let buf := WriteString buf " where " in
      let buf := WriteArg buf ":#pk" in
      Ok (toParsedQuery buf)
  | _ => Panic
  end.

(** [GenerateInsertOuterQuery] and [GenerateReplaceOuterQuery], which
    differ in the first word: "insert %vinto %v%v values %a%v". *)
Definition generateInsertOuterQuery (verb : string) (ins : InsertStmt) : ParsedQuery :=
  let buf := NewTrackedBuffer nilFormatter in
  let buf := WriteString buf (verb +:+ " ") in
  let buf := Myprintf_v (InsComments ins) buf in
  let buf := WriteString buf "into " in
  let buf := Myprintf_v (InsTable ins) buf in
  let buf := Myprintf_v (InsColumns ins) buf in
  let buf := WriteString buf " values " in
  let buf := WriteArg buf ":#values" in
  let buf := Myprintf_v (InsOnDup ins) buf in
  toParsedQuery buf.

Definition GenerateReplaceOuterQuery (ins : InsertStmt) : ParsedQuery :=
  generateInsertOuterQuery "replace" ins.

Definition GenerateInsertOuterQuery (ins : InsertStmt) : ParsedQuery :=
  generateInsertOuterQuery "insert" ins.

(** "update %v%v set %v where %a". *)
Definition GenerateUpdateOuterQuery (upd : UpdateStmt) : ParsedQuery :=
  let buf := NewTrackedBuffer nilFormatter in
  let buf := WriteString buf "update " in
  let buf := Myprintf_v (UpdComments upd) buf in
  let buf := Myprintf_v (UpdTable upd) buf in
  let buf := WriteString buf " set " in
  let buf := Myprintf_v (UpdExprs upd) buf in
  let buf := WriteString buf " where " in
  let buf := WriteArg buf ":#pk" in
  toParsedQuery buf.

(** "delete %vfrom %v where %a". *)
Definition GenerateDeleteOuterQuery (del : DeleteStmt) : ParsedQuery :=
  let buf := NewTrackedBuffer nilFormatter in
  let buf := WriteString buf "delete " in
  let buf := Myprintf_v (DelComments del) buf in
  let buf := WriteString buf "from " in
  let buf := Myprintf_v (DelTable del) buf in
  let buf := WriteString buf " where " in
  let buf := WriteArg buf ":#pk" in
  toParsedQuery buf.

(** [GenerateUpdateSubquery] and [GenerateDeleteSubquery]; indexing an
    empty index list panics. *)
Definition GenerateUpdateSubquery {Value} (upd : UpdateStmt) (tableInfo : Table Value)
    : result ParsedQuery :=
  match Indexes tableInfo with
  | [] => Panic
  | ix :: _ =>
      GenerateSubquery (IdxColumns ix) (AliasedTableExpr (UpdTable upd) None None)
                       (UpdWhere upd) (UpdOrderBy upd) (UpdLimit upd) true
  end.

Definition GenerateDeleteSubquery {Value} (del : DeleteStmt) (tableInfo : Table Value)
    : result ParsedQuery :=
  match Indexes tableInfo with
  | [] => Panic
  | ix :: _ =>
      GenerateSubquery (IdxColumns ix) (AliasedTableExpr (DelTable del) None None)
                       (DelWhere del) (DelOrderBy del) (DelLimit del) true
  end.

(** ** The plan builder: analysis *)

(** Modelled from the spec: the plan and reason enumerations, whose
    declarations are not among the sources; the first of each is the zero
    value. *)
Inductive PlanType : Set :=
| PLAN_PASS_SELECT | PLAN_PK_EQUAL | PLAN_PK_IN | PLAN_SELECT_SUBQUERY
| PLAN_PASS_DML | PLAN_DML_PK | PLAN_DML_SUBQUERY | PLAN_INSERT_PK
| PLAN_INSERT_SUBQUERY | PLAN_SET | PLAN_DDL | PLAN_OTHER.

Inductive ReasonType : Set :=
| REASON_DEFAULT | REASON_SELECT | REASON_TABLE | REASON_TABLE_NOINDEX
| REASON_PK_CHANGE | REASON_HAS_HINTS | REASON_UPSERT.

(** An [interface{}] of a plan: a value of the query, a bind variable
    name, or nil. *)
Inductive PlanValue : Type :=
| PVNil
| PVValue (v : string)
| PVBind (name : string).

Record ExecPlan : Type := mkExecPlan {
  PlanId : PlanType;
  Reason : ReasonType;
  TableName : string;
  FieldQuery : option ParsedQuery;
  FullQuery : option ParsedQuery;
  OuterQuery : option ParsedQuery;
  Subquery_ : option ParsedQuery;
  IndexUsed : string;
  ColumnNumbers : list Z;
  PKValues : list PlanValue;
  PlanLimit : PlanValue;
  SecondaryPKValues : list PlanValue;
  SubqueryPKColumns : list Z;
  SetKey : string;
  SetValue : PlanValue }.

(** The zero [ExecPlan]. *)
Definition zeroPlan : ExecPlan :=
  mkExecPlan PLAN_PASS_SELECT REASON_DEFAULT "" None None None None "" [] [] PVNil [] []
             "" PVNil.

Section Analysis.
Context {Value : Type}.

Definition TableGetter : Type := string -> option (Table Value).

(** The analyses of the single statement kinds and the parser are in
    files that are not among the sources. *)
Variable analyzeSelect analyzeInsert analyzeUpdate analyzeDelete :
  SQLNode -> TableGetter -> result ExecPlan.
Variable analyzeSet : SQLNode -> ExecPlan.
Variable analyzeDDL : SQLNode -> TableGetter -> ExecPlan.
Variable Parse : string -> result SQLNode.

Definition analyzeSQL (statement : SQLNode) (getTable : TableGetter) : result ExecPlan :=
  match statement with
  | Union _ _ _ =>
      Ok (mkExecPlan PLAN_PASS_SELECT REASON_SELECT ""
            (GenerateFieldQuery statement) (Some (GenerateFullQuery statement))
            None None "" [] [] PVNil [] [] "" PVNil)
  | Select _ _ _ _ _ _ _ _ _ _ => analyzeSelect statement getTable
  | Insert _ => analyzeInsert statement getTable
  | Update _ => analyzeUpdate statement getTable
  | Delete _ => analyzeDelete statement getTable
  | Set_ _ => Ok (analyzeSet statement)
  | DDL _ => Ok (analyzeDDL statement getTable)
  | Other _ =>
      Ok (mkExecPlan PLAN_OTHER REASON_DEFAULT "" None None None None "" [] [] PVNil [] []
                     "" PVNil)
  | _ => Err "invalid SQL"
  end.

Definition GetExecPlan (sql : string) (getTable : TableGetter) : result ExecPlan :=
  try! statement <- Parse sql;
  analyzeSQL statement getTable.

End Analysis.

End planbuilder.
Import planbuilder.

(** ** The wire protocol: field descriptors *)

Module mysql.

(** A [[]byte]; [None] is the nil slice. *)
Definition Bytes : Type := option (list Byte.byte).

Definition len (b : Bytes) : Z := Z.of_nat (length (default [] b)).

Definition byteZ (b : Byte.byte) : Z := Z.of_N (Byte.to_N b).

(** [p[low:]], which panics when [low] is out of range. *)
Definition slice_from (p : Bytes) (low : Z) : result Bytes :=
  if decide (0 <= low <= len p) then Ok (drop (Z.to_nat low) <$> p) else Panic.

(** [p[low:high]]; the code reaches it with [high <= len(p)] only, so the
    capacity of [p] plays no part. *)
Definition slice (p : Bytes) (low high : Z) : result Bytes :=
  if decide (0 <= low <= high /\ high <= len p)
  then Ok (take (Z.to_nat (high - low)) <$> (drop (Z.to_nat low) <$> p))
  else Panic.

(** [p[pos]]. *)
Definition index (p : Bytes) (pos : Z) : result Byte.byte :=
  if decide (0 <= pos) then
    match default [] p !! Z.to_nat pos with
    | Some b => Ok b
    | None => Panic
    end
  else Panic.

(** [binary.LittleEndian.Uint16] and [Uint32], which panic on a slice
    that is too short. *)
Definition Uint16 (b : Bytes) : result Z :=
  match default [] b with
  | b0 :: b1 :: _ => Ok (Z.lor (byteZ b0) (Z.shiftl (byteZ b1) 8))
  | _ => Panic
  end.

Definition Uint32 (b : Bytes) : result Z :=
  match default [] b with
  | b0 :: b1 :: b2 :: b3 :: _ =>
      Ok (Z.lor (Z.lor (Z.lor (byteZ b0) (Z.shiftl (byteZ b1) 8))
                       (Z.shiftl (byteZ b2) 16))
                (Z.shiftl (byteZ b3) 24))
  | _ => Panic
  end.

Record Field : Type := mkField {
  Data : Bytes;
  Schema : Bytes;
  Table : Bytes;
  OrgTable : Bytes;
  Name : Bytes;
  OrgName : Bytes;
  Charset : Z;
  ColumnLength : Z;
  Type_ : Byte.byte;
  Flag : Z;
  Decimal : Byte.byte;
  DefaultValueLength : Z;
  DefaultValue : Bytes }.

(** Assignments to the fields of a [*Field]. *)
Definition withSchema (f : Field) (v : Bytes) : Field :=
  mkField (Data f) v (Table f) (OrgTable f) (Name f) (OrgName f) (Charset f)
          (ColumnLength f) (Type_ f) (Flag f) (Decimal f) (DefaultValueLength f)
          (DefaultValue f).

Definition withTable (f : Field) (v : Bytes) : Field :=
  mkField (Data f) (Schema f) v (OrgTable f) (Name f) (OrgName f) (Charset f)
          (ColumnLength f) (Type_ f) (Flag f) (Decimal f) (DefaultValueLength f)
          (DefaultValue f).

Definition withOrgTable (f : Field) (v : Bytes) : Field :=
  mkField (Data f) (Schema f) (Table f) v (Name f) (OrgName f) (Charset f)
          (ColumnLength f) (Type_ f) (Flag f) (Decimal f) (DefaultValueLength f)
          (DefaultValue f).

Definition withName (f : Field) (v : Bytes) : Field :=
  mkField (Data f) (Schema f) (Table f) (OrgTable f) v (OrgName f) (Charset f)
          (ColumnLength f) (Type_ f) (Flag f) (Decimal f) (DefaultValueLength f)
          (DefaultValue f).

Definition withOrgName (f : Field) (v : Bytes) : Field :=
  mkField (Data f) (Schema f) (Table f) (OrgTable f) (Name f) v (Charset f)
          (ColumnLength f) (Type_ f) (Flag f) (Decimal f) (DefaultValueLength f)
          (DefaultValue f).

Definition withCharset (f : Field) (v : Z) : Field :=
  mkField (Data f) (Schema f) (Table f) (OrgTable f) (Name f) (OrgName f) v
          (ColumnLength f) (Type_ f) (Flag f) (Decimal f) (DefaultValueLength f)
          (DefaultValue f).

Definition withColumnLength (f : Field) (v : Z) : Field :=
  mkField (Data f) (Schema f) (Table f) (OrgTable f) (Name f) (OrgName f) (Charset f)
          v (Type_ f) (Flag f) (Decimal f) (DefaultValueLength f) (DefaultValue f).

Definition withType (f : Field) (v : Byte.byte) : Field :=
  mkField (Data f) (Schema f) (Table f) (OrgTable f) (Name f) (OrgName f) (Charset f)
          (ColumnLength f) v (Flag f) (Decimal f) (DefaultValueLength f) (DefaultValue f).

Definition withFlag (f : Field) (v : Z) : Field :=
  mkField (Data f) (Schema f) (Table f) (OrgTable f) (Name f) (OrgName f) (Charset f)
          (ColumnLength f) (Type_ f) v (Decimal f) (DefaultValueLength f) (DefaultValue f).

Definition withDecimal (f : Field) (v : Byte.byte) : Field :=
  mkField (Data f) (Schema f) (Table f) (OrgTable f) (Name f) (OrgName f) (Charset f)
          (ColumnLength f) (Type_ f) (Flag f) v (DefaultValueLength f) (DefaultValue f).

Definition withDefaultValueLength (f : Field) (v : Z) : Field :=
  mkField (Data f) (Schema f) (Table f) (OrgTable f) (Name f) (OrgName f) (Charset f)
          (ColumnLength f) (Type_ f) (Flag f) (Decimal f) v (DefaultValue f).

Definition withDefaultValue (f : Field) (v : Bytes) : Field :=
  mkField (Data f) (Schema f) (Table f) (OrgTable f) (Name f) (OrgName f) (Charset f)
          (ColumnLength f) (Type_ f) (Flag f) (Decimal f) (DefaultValueLength f) v.

Section Field.

(** The helpers of the package that this file calls are taken as they
    come: the length-encoded readers, which return what they read with
    the number of bytes read and can panic on a packet that is too short,
    and the writers. *)
Context {Error : Type}.
Variable ErrMalformPacket : Error.
Variable SkipLengthEnodedString : Bytes -> result (Z * option Error).
Variable LengthEnodedString : Bytes -> result (Bytes * bool * Z * option Error).
Variable LengthEncodedInt : Bytes -> result (Z * bool * Z).
Variable AllocBytes : Z -> list Byte.byte.
Variable defCache : Bytes.
Variable PutLengthEncodedStringWithAlloc : Bytes -> list Byte.byte.
Variable Uint16ToBytes Uint32ToBytes Uint64ToBytes : Z -> list Byte.byte.

(** What [Parse] has when it goes on or returns: the field so far, the
    error and the position. *)
Definition ParseState : Type := Field * option Error * Z.

(** One name of [Parse]:
    [f.X, _, n, err = LengthEnodedString(p[pos:])], the return when [err]
    is not nil, [pos += n]. A state with an error is that of a [Parse]
    that has returned. *)
Definition parseName (p : Bytes) (set : Field -> Bytes -> Field) (st : ParseState)
    : result ParseState :=
  let '(f, err, pos) := st in
  match err with
  | Some _ => Ok st
  | None =>
      try! b <- slice_from p pos;
      try! r <- LengthEnodedString b;
      let '(v, _, n, err) := r in
      let f := set f v in
      match err with
      | Some _ => Ok (f, err, pos)
      | None => Ok (f, None, int64 (pos + n))
      end
  end.

(** [Parse], lines 28 to 72: the catalog, skipped, and the five names. *)
Definition parseNames (p : Bytes) : result ParseState :=
  let f := mkField p None None None None None 0 0 Byte.x00 0 Byte.x00 0 None in
  let pos := 0 in
  try! r <- SkipLengthEnodedString p;
  let '(n, err) := r in
  match err with
  | Some _ => Ok (f, err, pos)
  | None =>
      let pos := int64 (pos + n) in
      try! st <- parseName p withSchema (f, None, pos);
      try! st <- parseName p withTable st;
      try! st <- parseName p withOrgTable st;
      try! st <- parseName p withName st;
      parseName p withOrgName st
  end.

(** [Parse], lines 74 to 117: the fixed part and the default value. *)
Definition parseFixed (p : Bytes) (f : Field) (pos : Z) : result (Field * option Error) :=
  (* skip oc *)
  let pos := int64 (pos + 1) in
  try! b <- slice_from p pos;
  try! v <- Uint16 b;
  let f := withCharset f v in
  let pos := int64 (pos + 2) in
  try! b <- slice_from p pos;
  try! v <- Uint32 b;
  let f := withColumnLength f v in
  let pos := int64 (pos + 4) in
  try! v <- index p pos;
  let f := withType f v in
  let pos := int64 (pos + 1) in
  try! b <- slice_from p pos;
  try! v <- Uint16 b;
  let f := withFlag f v in
  let pos := int64 (pos + 2) in
  try! v <- index p pos;
  let f := withDecimal f v in
  let pos := int64 (pos + 1) in
  (* filter [0x00][0x00] *)
  let pos := int64 (pos + 2) in
  let f := withDefaultValue f None in
  if decide (len p > pos) then
    try! b <- slice_from p pos;
    try! r <- LengthEncodedInt b;
    let '(num, _, n) := r in
    let f := withDefaultValueLength f num in
    let pos := int64 (pos + n) in
    if decide (int64 (pos + int64 num) > len p) then Ok (f, Some ErrMalformPacket)
    else
      try! v <- slice p pos (int64 (pos + int64 num));
      Ok (withDefaultValue f v, None)
  else Ok (f, None).

(** [FieldData.Parse]: the field, which is returned with an error too,
    and the error. *)
Definition Parse (p : Bytes) : result (Field * option Error) :=
  try! st <- parseNames p;
  let '(f, err, pos) := st in
  match err with
  | Some _ => Ok (f, err)
  | None => parseFixed p f pos
  end.

(** [Field.Dump]. *)
Definition Dump (f : Field) : Bytes :=
  match Data f with
  | Some d => Some d
  | None =>
      let l := int64 (len (Schema f) + len (Table f) + len (OrgTable f) + len (Name f) +
                      len (OrgName f) + len (DefaultValue f) + 48) in
      let data := AllocBytes l in
      let data := data ++ default [] defCache in
      let data := data ++ PutLengthEncodedStringWithAlloc (Schema f) in
      let data := data ++ PutLengthEncodedStringWithAlloc (Table f) in
      let data := data ++ PutLengthEncodedStringWithAlloc (OrgTable f) in
      let data := data ++ PutLengthEncodedStringWithAlloc (Name f) in
      let data := data ++ PutLengthEncodedStringWithAlloc (OrgName f) in
      let data := data ++ [Byte.x0c] in
      let data := data ++ Uint16ToBytes (Charset f) in
      let data := data ++ Uint32ToBytes (ColumnLength f) in
      let data := data ++ [Type_ f] in
      let data := data ++ Uint16ToBytes (Flag f) in
      let data := data ++ [Decimal f] in
      let data := data ++ [Byte.x00; Byte.x00] in
      let data :=
        match DefaultValue f with
        | Some v => (data ++ Uint64ToBytes (DefaultValueLength f)) ++ v
        | None => data
        end in
      Some data
  end.

End Field.

End mysql.

(** ** Notions used in the statements *)

(** The delete expiry the design document announces for a query timeout:
    twice the timeout in whole seconds plus 15, zero when no timeout is
    configured. *)
Definition announcedDeleteExpiry (queryTimeout : Z) : Z :=
  if decide (queryTimeout = 0) then 0 else 2 * (queryTimeout `quot` Second) + 15.

(** [sub] occurs in [s]. *)
Definition substring_of (sub s : string) : Prop :=
  exists pre post, s = pre +:+ sub +:+ post.

(** The positions in [PKColumns], none for the nil slice. *)
Definition pkPositions {Value} (ta : Table Value) : list Z :=
  default [] (PKColumns ta).

(** No primary-key position holds a column of category other. *)
Definition pkCategoriesSupported {Value} (ta : Table Value) : Prop :=
  forall p col, p ∈ pkPositions ta -> at_index (Columns ta) p = Some col ->
                ColCategory col <> CAT_OTHER.

(** The five conditions under which a table is cached. *)
Definition cacheable {Value} (ta : Table Value) (tableType comment : string)
    (cachePool : CachePool) : Prop :=
  IsClosed cachePool = false /\
  ~ substring_of "vtocc_nocache" comment /\
  tableType <> "VIEW" /\
  pkPositions ta <> [] /\
  pkCategoriesSupported ta.

(** [name] is the name of a column of the table. *)
Definition isColumn {Value} (cols : list (TableColumn Value)) (name : string) : Prop :=
  exists col, col ∈ cols /\ ColName col = name.

(** [p] is the position of the first column called [name]. *)
Definition positionOf {Value} (cols : list (TableColumn Value)) (name : string) (p : Z)
    : Prop :=
  0 <= p /\
  (exists col, cols !! Z.to_nat p = Some col /\ ColName col = name) /\
  (forall j col, (j < Z.to_nat p)%nat -> cols !! j = Some col -> ColName col <> name).

(** The condition no row satisfies, as the field query prints it. *)
Definition impossibleCondition : SQLNode := Text "1 != 1".

(** The statement the field query is a reprint of: every select keeps its
    select expressions and its tables and has the where clause [1 != 1]
    (its comments, distinct, group by, having, order by, limit and lock
    are not printed); every left or right join has the condition
    [1 != 1], every other join none. *)
Fixpoint impossibleStatement (node : SQLNode) : SQLNode :=
  match node with
  | Text s => Text s
  | ValArg name => ValArg name
  | Seq a b => Seq (impossibleStatement a) (impossibleStatement b)
  | Subquery sel => Subquery (impossibleStatement sel)
  | Limit offset rowcount =>
      Limit (option_map impossibleStatement offset) (impossibleStatement rowcount)
  | Select _ _ exprs tables _ _ _ _ _ _ =>
      Select (Text "") "" (impossibleStatement exprs) (map impossibleStatement tables)
             (Some impossibleCondition) (Text "") None (Text "") None ""
  | Union type leftE rightE =>
      Union type (impossibleStatement leftE) (impossibleStatement rightE)
  | AliasedTableExpr expr as_ hints => AliasedTableExpr (impossibleStatement expr) as_ hints
  | ParenTableExpr expr => ParenTableExpr (impossibleStatement expr)
  | JoinTableExpr leftE join rightE _ =>
      JoinTableExpr (impossibleStatement leftE) join (impossibleStatement rightE)
                    (if decide (join = AST_LEFT_JOIN \/ join = AST_RIGHT_JOIN)
                     then Some impossibleCondition else None)
  | Insert body => Insert (impossibleStatement body)
  | Replace body => Replace (impossibleStatement body)
  | Update body => Update (impossibleStatement body)
  | Delete body => Delete (impossibleStatement body)
  | Set_ body => Set_ (impossibleStatement body)
  | DDL body => DDL (impossibleStatement body)
  | Other body => Other (impossibleStatement body)
  end.

(** [P] holds of a node and of every node below it. *)
Fixpoint everyNode (P : SQLNode -> Prop) (node : SQLNode) : Prop :=
  let below (o : option SQLNode) :=
    match o with None => True | Some n => everyNode P n end in
  P node /\
  match node with
  | Text _ | ValArg _ => True
  | Seq a b => everyNode P a /\ everyNode P b
  | Subquery sel => everyNode P sel
  | Limit offset rowcount => below offset /\ everyNode P rowcount
  | Select comments _ exprs tables whereE groupBy havingE orderBy limit _ =>
      everyNode P comments /\ everyNode P exprs /\
      (fix all (l : list SQLNode) : Prop :=
         match l with [] => True | n :: l' => everyNode P n /\ all l' end) tables /\
      below whereE /\ everyNode P groupBy /\ below havingE /\ everyNode P orderBy /\
      below limit
  | Union _ leftE rightE => everyNode P leftE /\ everyNode P rightE
  | AliasedTableExpr expr _ _ => everyNode P expr
  | ParenTableExpr expr => everyNode P expr
  | JoinTableExpr leftE _ rightE on => everyNode P leftE /\ everyNode P rightE /\ below on
  | Insert body | Replace body | Update body | Delete body
  | Set_ body | DDL body | Other body => everyNode P body
  end.

(** A select has the where clause [1 != 1] and a left or right join the
    condition [1 != 1]. *)
Definition impossibleNode (node : SQLNode) : Prop :=
  match node with
  | Select _ _ _ _ whereE _ _ _ _ _ => whereE = Some impossibleCondition
  | JoinTableExpr _ join _ on =>
      join = AST_LEFT_JOIN \/ join = AST_RIGHT_JOIN -> on = Some impossibleCondition
  | _ => True
  end.

(** The statement kinds [analyzeSQL] has a case for. *)
Definition recognised (statement : SQLNode) : bool :=
  match statement with
  | Union _ _ _ | Select _ _ _ _ _ _ _ _ _ _ | Insert _ | Update _ | Delete _
  | Set_ _ | DDL _ | Other _ => true
  | _ => false
  end.

(** The buffer with another callback. *)
Definition withFormatter (nf : NodeFormatter) (buf : TrackedBuffer) : TrackedBuffer :=
  mkTrackedBuffer (content buf) (bindLocations buf) nf.

(** Printing keeps the callback of the buffer. *)
Definition keepsFormatter (n : SQLNode) : Prop :=
  forall buf, nodeFormatter (Myprintf_v n buf) = nodeFormatter buf.

(** Under [FormatImpossible], a node is printed as its impossible
    statement is without a callback. *)
Definition reprintsImpossible (n : SQLNode) : Prop :=
  forall buf, nodeFormatter buf = impossibleFormatter ->
    withFormatter nilFormatter (Myprintf_v n buf) =
    Myprintf_v (impossibleStatement n) (withFormatter nilFormatter buf).

(** The values of [n] successive calls of [GetMaxPrefix]. *)
Fixpoint prefixes (n : nat) (maxPrefix : Z) : list Z :=
  match n with
  | O => []
  | S n' => let '(v, counter) := GetMaxPrefix maxPrefix in v :: prefixes n' counter
  end.

(** [l] holds [a] immediately followed by [b]. *)
Definition adjacent {A} (a b : A) (l : list A) : Prop :=
  exists pre post, l = pre ++ a :: b :: post.

(** The byte slice in cell [i] of a row, empty when there is none. *)
Definition bytesAt (row : list Cell) (i : nat) : string :=
  match row !! i with
  | Some (CBytes b) => b
  | _ => ""
  end.

(** The key name and the column name of a row of [show index]. *)
Definition rowKeyColumn (row : list Cell) : string * string :=
  (bytesAt row 2, bytesAt row 4).

(** The columns of an index, each with the name of the index. *)
Definition indexPairs (ix : Index) : list (string * string) :=
  (fun c => (IdxName ix, c)) <$> IdxColumns ix.

(** A row of [describe] that [fetchColumns] can read: byte slices in the
    cells 0, 1 and 5 and a default value in cell 4 that [BuildValue]
    accepts. *)
Definition describeRowOk {Value} (BuildValue : Cell -> result Value) (row : list Cell)
    : Prop :=
  (exists c4 v, row !! 4%nat = Some c4 /\ BuildValue c4 = Ok v) /\
  is_Ok (asBytes row 0) /\ is_Ok (asBytes row 1) /\ is_Ok (asBytes row 5).

(** What the loop of [fetchIndexes] has built after the rows [seen]. *)
Definition groupedBy {Value} (st : Table Value * option nat * string) (seen : list (list Cell))
    : Prop :=
  let '(ta, currentIndex, currentName) := st in
  concat (indexPairs <$> Indexes ta) = rowKeyColumn <$> seen /\
  (forall i ix1 ix2, Indexes ta !! i = Some ix1 -> Indexes ta !! S i = Some ix2 ->
                     IdxName ix1 <> IdxName ix2) /\
  match seen with
  | [] => Indexes ta = [] /\ currentIndex = None /\ currentName = ""
  | _ => exists idxs lastIx,
           Indexes ta = idxs ++ [lastIx] /\ currentIndex = Some (length idxs) /\
           IdxName lastIx = currentName
  end.

(** The number of bind variables of a node that its reprint prints. *)
Fixpoint countArgs (node : SQLNode) : nat :=
  let opt (o : option SQLNode) : nat :=
    match o with None => 0%nat | Some n => countArgs n end in
  (match node with
   | Text _ => 0
   | ValArg _ => 1
   | Seq a b => countArgs a + countArgs b
   | Subquery sel => countArgs sel
   | Limit offset rowcount => opt offset + countArgs rowcount
   | Select comments _ exprs tables whereE groupBy havingE orderBy limit _ =>
       countArgs comments + countArgs exprs + list_sum (map countArgs tables) +
       opt whereE + countArgs groupBy + opt havingE + countArgs orderBy + opt limit
   | Union _ leftE rightE => countArgs leftE + countArgs rightE
   | AliasedTableExpr expr _ _ => countArgs expr
   | ParenTableExpr expr => countArgs expr
   | JoinTableExpr leftE _ rightE on => countArgs leftE + countArgs rightE + opt on
   | Insert body | Replace body | Update body | Delete body
   | Set_ body | DDL body | Other body => countArgs body
   end)%nat.

(** The text of the reprint of a node. *)
Definition reprint (node : SQLNode) : string := Query (GenerateFullQuery node).

(** Printing a node appends its reprint to the text of the buffer. *)
Definition appends (n : SQLNode) : Prop :=
  forall buf, nodeFormatter buf = nilFormatter ->
    content (Myprintf_v n buf) = content buf +:+ reprint n.

(** The select statement a subquery is the reprint of: the given columns
    of one table, with the where clause and the order given, a limit in
    every case and the lock asked for. *)
Definition subquerySelect (columns : list string) (table : SQLNode)
    (where_ : option SQLNode) (order : SQLNode) (limit : option SQLNode)
    (for_update : bool) : SQLNode :=
  Select (Text "") "" (Text (String.concat ", " columns)) [table] where_ (Text "") None
         order (Some (default execLimit limit))
         (if for_update then AST_FOR_UPDATE else "").

(** The number that bytes are the little-endian digits of. *)
Fixpoint littleEndian (bs : list Byte.byte) : Z :=
  match bs with
  | [] => 0
  | b :: rest => mysql.byteZ b + 256 * littleEndian rest
  end.

(** The number in the [n] bytes of a packet that start at position [i],
    and the byte at position [i]. *)
Definition numberAt (bs : list Byte.byte) (i : Z) (n : nat) : Z :=
  littleEndian (take n (drop (Z.to_nat i) bs)).

Definition byteAt (bs : list Byte.byte) (i : Z) : Byte.byte :=
  nth (Z.to_nat i) bs Byte.x00.

(** The field of a packet whose names end at [pos]: the names as read,
    the fixed part from the eleven bytes that follow, no default value. *)
Definition fixedField (f : mysql.Field) (bs : list Byte.byte) (pos : Z) : mysql.Field :=
  mysql.mkField (mysql.Data f) (mysql.Schema f) (mysql.Table f) (mysql.OrgTable f)
                (mysql.Name f) (mysql.OrgName f)
                (numberAt bs (pos + 1) 2) (numberAt bs (pos + 3) 4) (byteAt bs (pos + 7))
                (numberAt bs (pos + 8) 2) (byteAt bs (pos + 10))
                (mysql.DefaultValueLength f) None.

(** ** Example backends *)

(** A row of [describe]: field, type, null, key, default, extra. *)
Definition describeRow (field type : string) : list Cell :=
  [CBytes field; CBytes type; CBytes "NO"; CBytes ""; CNil; CBytes ""].

(** A row of [show index]: table, non-unique, key name, sequence, column
    name, collation, cardinality. *)
Definition indexRow (key column cardinality : string) : list Cell :=
  [CBytes "t"; CBytes "0"; CBytes key; CBytes "1"; CBytes column; CBytes "A";
   CBytes cardinality].

(** A backend that knows the table [t]. *)
Definition backendOf (columns indexes : list (list Cell)) : MySqlConn :=
  mkConn (fun query =>
            if decide (query = "describe `t`") then Ok columns
            else if decide (query = "show index from `t`") then Ok indexes
            else Err "unknown table").

(** [t(id int primary key, name varbinary, created datetime)] with a
    secondary index on [name]. *)
Definition keyedBackend : MySqlConn :=
  backendOf [describeRow "id" "int(11)"; describeRow "name" "varbinary(64)";
             describeRow "created" "datetime"]
            [indexRow "PRIMARY" "id" "10"; indexRow "by_name" "name" "5"].

(** [t(a int, b int)] without a primary key, with two indexes. *)
Definition keylessBackend : MySqlConn :=
  backendOf [describeRow "a" "int(11)"; describeRow "b" "int(11)"]
            [indexRow "i1" "a" "10"; indexRow "i2" "b" "5"].

Definition exampleBuildValue (c : Cell) : result string :=
  match c with
  | CNil => Ok ""
  | CBytes b => Ok b
  | CInt _ => Err "unsupported type"
  end.

Definition exampleCategory (columnType : string) : Category :=
  if String.prefix "int" columnType then CAT_NUMBER
  else if String.prefix "varbinary" columnType then CAT_VARBINARY
  else CAT_OTHER.

Definition exampleParseUint (s : string) : Z := Z.of_nat (String.length s).

Definition exampleLoad (conn : MySqlConn) : result (TableInfo string unit) :=
  loadTableInfo exampleBuildValue exampleParseUint exampleCategory conn "t".

(** The table [t] of [keyedBackend] with its columns loaded and its
    indexes not yet. *)
Definition keyedColumns : TableInfo string unit :=
  mkTableInfo
    (mkTable "t" [mkColumn "id" CAT_NUMBER "" ""; mkColumn "name" CAT_VARBINARY "" "";
                  mkColumn "created" CAT_OTHER "" ""] [] None CACHE_NONE)
    None 0 0 0 0.

(** The tables of the two backends as [loadTableInfo] returns them. *)
Definition keyedLoaded : TableInfo string unit :=
  Eval vm_compute in
    match exampleLoad keyedBackend with Ok ti => ti | _ => keyedColumns end.

Definition keylessLoaded : TableInfo string unit :=
  Eval vm_compute in
    match exampleLoad keylessBackend with Ok ti => ti | _ => keyedColumns end.

(** An open cache pool. *)
Definition openPool : CachePool :=
  mkCachePool "rowcache" (Some (mkResourcePool "11211" 974 974 0))
              (Some ["memcached"]) (mkRowCacheConfig "memcached" 0 "" 0 0 0 false)
              974 "11211" 0 0.

(** The rows the backends answer with. *)
Definition keyedDescribe : list (list Cell) :=
  [describeRow "id" "int(11)"; describeRow "name" "varbinary(64)";
   describeRow "created" "datetime"].

Definition keyedShowIndex : list (list Cell) :=
  [indexRow "PRIMARY" "id" "10"; indexRow "by_name" "name" "5"].

(** The table [t] before anything is loaded. *)
Definition newTableT : TableInfo string unit :=
  mkTableInfo (NewTable "t") None 0 0 0 0.

(** A backend whose primary index names a column that [describe] does not
    list. *)
Definition ghostBackend : MySqlConn :=
  backendOf [describeRow "a" "int(11)"] [indexRow "PRIMARY" "ghost" "1"].

Definition ghostLoaded : TableInfo string unit :=
  Eval vm_compute in
    match exampleLoad ghostBackend with Ok ti => ti | _ => keyedColumns end.

(** A backend whose first index row has an empty key name. *)
Definition namelessBackend : MySqlConn :=
  backendOf [describeRow "a" "int(11)"] [indexRow "" "a" "1"].

(** ** Example statements *)

Definition tableT : SQLNode := AliasedTableExpr (Text "t") None None.

(** [select a from t where idx_col = 7]. *)
Definition selectByIndex : SQLNode :=
  Select (Text "") "" (Text "a") [tableT]
         (Some (Seq (Text "idx_col") (Seq (Text " = ") (Text "7"))))
         (Text "") None (Text "") None "".

(** A select with a subquery, a left join, bind variables in its where
    clauses and every other clause. *)
Definition selectJoined : SQLNode :=
  Select (Text "/* c */ ") "distinct "
         (Seq (Text "a, ")
              (Subquery (Select (Text "") "" (Text "b") [tableT]
                                (Some (Seq (Text "x = ") (ValArg ":v")))
                                (Text "") None (Text "") None "")))
         [JoinTableExpr tableT "left join" (AliasedTableExpr (Text "u") (Some "w") None)
                        (Some (Text "t.id = w.id"));
          tableT]
         (Some (Seq (Text "pk = ") (ValArg ":id")))
         (Text " group by a") None (Text " order by a")
         (Some (Limit (Some (Text "1")) (Text "5"))) " for update".

(** The union of [select a from t where x = :v] and
    [select b from t limit 5], and the union of [select :a from t] and
    [select b from t]. *)
Definition unionPlain : SQLNode :=
  Union "union"
    (Select (Text "") "" (Text "a") [tableT] (Some (Seq (Text "x = ") (ValArg ":v")))
            (Text "") None (Text "") None "")
    (Select (Text "") "" (Text "b") [tableT] None (Text "") None (Text "")
            (Some (Limit None (Text "5"))) "").

Definition unionBind : SQLNode :=
  Union "union"
    (Select (Text "") "" (ValArg ":a") [tableT] None (Text "") None (Text "") None "")
    (Select (Text "") "" (Text "b") [tableT] None (Text "") None (Text "") None "").

(** ** Example packets *)

(** Readers of length-encoded integers and strings of the wire protocol:
    a first byte below 251 is the number, 251 is the null value, 252, 253
    and 254 announce a number of 2, 3 and 8 bytes. *)
Definition exampleLengthEncodedInt (b : mysql.Bytes) : result (Z * bool * Z) :=
  let wide (k : nat) (rest : list Byte.byte) : result (Z * bool * Z) :=
    if decide (length rest < k)%nat then Panic
    else Ok (littleEndian (take k rest), false, Z.of_nat k + 1) in
  match default [] b with
  | [] => Panic
  | x :: rest =>
      if decide (mysql.byteZ x = 251) then Ok (0, true, 1)
      else if decide (mysql.byteZ x = 252) then wide 2%nat rest
      else if decide (mysql.byteZ x = 253) then wide 3%nat rest
      else if decide (mysql.byteZ x = 254) then wide 8%nat rest
      else Ok (mysql.byteZ x, false, 1)
  end.

Definition exampleLengthEnodedString (b : mysql.Bytes)
    : result (mysql.Bytes * bool * Z * option string) :=
  try! r <- exampleLengthEncodedInt b;
  let '(num, isNull, n) := r in
  if decide (num < 1) then Ok (None, isNull, n, None)
  else
    let n := n + num in
    if decide (n <= mysql.len b)
    then Ok (Some (take (Z.to_nat num) (drop (Z.to_nat (n - num)) (default [] b))),
             false, n, None)
    else Ok (None, false, n, Some "EOF").

Definition exampleSkipLengthEnodedString (b : mysql.Bytes) : result (Z * option string) :=
  try! r <- exampleLengthEncodedInt b;
  let '(num, _, n) := r in
  if decide (num < 1) then Ok (n, None)
  else
    let n := n + num in
    if decide (n <= mysql.len b) then Ok (n, None) else Ok (n, Some "EOF").

Definition exampleParse : mysql.Bytes -> result (mysql.Field * option string) :=
  mysql.Parse "malformed packet" exampleSkipLengthEnodedString exampleLengthEnodedString
              exampleLengthEncodedInt.

Definition exampleDump : mysql.Field -> mysql.Bytes :=
  mysql.Dump (fun _ => []) None (fun _ => []) (fun _ => []) (fun _ => []) (fun _ => []).

(** The names [def], the empty schema, [t], [t], [a], [a]. *)
Definition packetNames : list Byte.byte :=
  [Byte.x03; Byte.x64; Byte.x65; Byte.x66; Byte.x00; Byte.x01; Byte.x74;
   Byte.x01; Byte.x74; Byte.x01; Byte.x61; Byte.x01; Byte.x61].

(** The descriptor of a column: charset 33, length 11, type 3. *)
Definition packet : list Byte.byte :=
  packetNames ++
  [Byte.x0c; Byte.x21; Byte.x00; Byte.x0b; Byte.x00; Byte.x00; Byte.x00; Byte.x03;
   Byte.x00; Byte.x00; Byte.x00; Byte.x00; Byte.x00].

Definition packetField : mysql.Field :=
  mysql.mkField (Some packet) None (Some [Byte.x74]) (Some [Byte.x74])
                (Some [Byte.x61]) (Some [Byte.x61]) 33 11 Byte.x03 0 Byte.x00 0 None.

(** The descriptor followed by a default value: [hi]; a length of 5 with
    one byte; a length of [2^64 - 1]. *)
Definition packetDefault : list Byte.byte := packet ++ [Byte.x02; Byte.x68; Byte.x69].

Definition packetTruncated : list Byte.byte := packet ++ [Byte.x05; Byte.x68].

Definition packetHuge : list Byte.byte :=
  packet ++ [Byte.xfe; Byte.xff; Byte.xff; Byte.xff; Byte.xff; Byte.xff; Byte.xff;
             Byte.xff; Byte.xff].

(** The names of a packet that starts as [packet] does. *)
Definition namesOf (bs : list Byte.byte) : mysql.Field :=
  mysql.mkField (Some bs) None (Some [Byte.x74]) (Some [Byte.x74])
                (Some [Byte.x61]) (Some [Byte.x61]) 0 0 Byte.x00 0 Byte.x00 0 None.

Definition packetNamesField : mysql.Field := namesOf packet.

(** * Properties *)

(** ** Strings *)

Lemma append_nil_l (s : string) : "" +:+ s = s.
Proof. reflexivity. Qed.

Lemma append_cons (a : ascii) (s t : string) : String a s +:+ t = String a (s +:+ t).
Proof. reflexivity. Qed.

Lemma prefix_true_iff (p s : string) :
  String.prefix p s = true <-> exists post, s = p +:+ post.
Proof.
  revert s. induction p as [|a p IH]; intros s.
  - destruct s; simpl; (split; [intros _; eexists; by rewrite append_nil_l | done]).
  - destruct s as [|b s]; simpl.
    + split; [done | intros [post H]; by rewrite append_cons in H].
    + destruct (Ascii.ascii_dec a b) as [->|Hne].
      * rewrite IH. split; intros [post H]; exists post; rewrite append_cons in *;
          congruence.
      * split; [done | intros [post H]; rewrite append_cons in H; congruence].
Qed.

Lemma Contains_unfold (s substr : string) :
  Contains s substr =
  if String.prefix substr s then true
  else match s with
       | EmptyString => false
       | String _ s' => Contains s' substr
       end.
Proof. by destruct s. Qed.

(** [Contains] decides the substring relation. *)
Lemma Contains_true_iff (s substr : string) :
  Contains s substr = true <-> exists pre post, s = pre +:+ substr +:+ post.
Proof.
  induction s as [|a s IH]; rewrite Contains_unfold.
  - destruct (String.prefix substr "") eqn:Hp.
    + apply prefix_true_iff in Hp as [post Hp]. split; [|done].
      intros _. exists "", post. by rewrite append_nil_l.
    + split; [done|]. intros [pre [post H]].
      destruct pre; [|by rewrite append_cons in H].
      rewrite append_nil_l in H.
      assert (String.prefix substr "" = true) by (apply prefix_true_iff; eauto).
      congruence.
  - destruct (String.prefix substr (String a s)) eqn:Hp.
    + apply prefix_true_iff in Hp as [post Hp]. split; [|done].
      intros _. exists "", post. by rewrite append_nil_l.
    + rewrite IH. split.
      * intros [pre [post ->]]. exists (String a pre), post. by rewrite append_cons.
      * intros [pre [post H]]. destruct pre as [|b pre].
        -- rewrite append_nil_l in H.
           assert (String.prefix substr (String a s) = true)
             by (apply prefix_true_iff; eauto).
           congruence.
        -- rewrite append_cons in H. injection H as _ ->. eauto.
Qed.

(** ** Positions of names *)

Lemma find_from_range (i : Z) (names : list string) (name : string) :
  find_from i names name = -1 \/
  i <= find_from i names name < i + Z.of_nat (length names).
Proof.
  revert i. induction names as [|n names IH]; intros i; simpl; [by left|].
  case_decide; [right; lia|].
  destruct (IH (i + 1)) as [->|?]; [by left | right; lia].
Qed.

Lemma find_from_missing (i : Z) (names : list string) (name : string) :
  0 <= i -> (find_from i names name = -1 <-> name ∉ names).
Proof.
  revert i. induction names as [|n names IH]; intros i Hi; simpl.
  - split; [intros _; apply not_elem_of_nil | done].
  - rewrite not_elem_of_cons. case_decide as Hn.
    + subst. split; [lia | intros [? _]; done].
    + rewrite IH by lia. split; [by split; [congruence|] | by intros [_ ?]].
Qed.

Lemma find_from_lookup (i : Z) (names : list string) (name : string) (p : Z) :
  find_from i names name = p -> p <> -1 -> 0 <= i ->
  i <= p /\ names !! Z.to_nat (p - i) = Some name /\
  forall j, (j < Z.to_nat (p - i))%nat -> names !! j <> Some name.
Proof.
  revert i. induction names as [|n names IH]; intros i Hf Hp Hi; simpl in Hf; [lia|].
  case_decide as Hn.
  - subst. replace (p - p) with 0 by lia. simpl.
    split; [lia | split; [done | lia]].
  - destruct (IH (i + 1) Hf Hp ltac:(lia)) as (Hle & Hl & Hfirst).
    replace (Z.to_nat (p - i)) with (S (Z.to_nat (p - (i + 1)))) by lia.
    split; [lia | split; [done |]].
    intros [|j] Hj; simpl; [congruence | apply Hfirst; lia].
Qed.

(** [FindColumn] gives the first position of a column with that name. *)
Lemma FindColumn_found {Value} (cols : list (TableColumn Value)) (name : string) (p : Z) :
  FindColumn cols name = p -> p <> -1 ->
  0 <= p /\
  (exists col, cols !! Z.to_nat p = Some col /\ ColName col = name) /\
  (forall j col, (j < Z.to_nat p)%nat -> cols !! j = Some col -> ColName col <> name).
Proof.
  unfold FindColumn. intros Hf Hp.
  destruct (find_from_lookup _ _ _ _ Hf Hp ltac:(lia)) as (Hle & Hl & Hfirst).
  replace (p - 0) with p in * by lia.
  rewrite list_lookup_fmap in Hl.
  destruct (cols !! Z.to_nat p) as [col|] eqn:Hc; simplify_eq/=.
  split; [done | split; [by exists col |]].
  intros j col' Hj Hj' Heq. apply (Hfirst j Hj).
  by rewrite list_lookup_fmap, Hj'; simpl; rewrite Heq.
Qed.

Lemma FindColumn_missing {Value} (cols : list (TableColumn Value)) (name : string) :
  FindColumn cols name = -1 <-> forall col, col ∈ cols -> ColName col <> name.
Proof.
  unfold FindColumn. rewrite find_from_missing by lia.
  rewrite list_elem_of_fmap. split.
  - intros H col Hin Heq. apply H. by exists col.
  - intros H [col [-> Hin]]. by apply (H col).
Qed.

(** ** Cache pool *)

Section CachePoolProperties.
Implicit Types (cp : CachePool) (cfg : RowCacheConfig).

(** Fifty probes are enough for the polling loop: it ends with a healthy
    child or with a fatal error. *)
Lemma pollMemcache_fuel (fuel : nat) (attempts : Z) (probes : nat -> Probe) :
  (0 < fuel)%nat -> 50 <= Z.of_nat fuel + attempts ->
  pollMemcache fuel attempts probes <> Panic.
Proof.
  revert attempts probes. induction fuel as [|fuel IH]; intros attempts probes Hf Hb; [lia|].
  simpl. destruct (probes 0%nat); try done.
  case_decide; [done|]. apply IH; lia.
Qed.

Lemma GetSubprocessFlags_nonempty cfg :
  Binary cfg <> "" -> exists a l, GetSubprocessFlags cfg = a :: l.
Proof.
  intros Hb. unfold GetSubprocessFlags. case_decide; [done|]. simpl. eauto.
Qed.

(** A pool that is closed and has a binary opens when the child starts
    and answers the first probe; its resource pool has the capacity of
    the cache pool. *)
Lemma Open_healthy cp :
  pool cp = None -> Binary (rowCacheConfig cp) <> "" ->
  exists cp', Open cp None (fun _ => Healthy) = Ok cp' /\
              Capacity cp' = capacity cp /\ IsClosed cp' = false.
Proof.
  intros Hp Hb. unfold Open. rewrite Hp.
  case_decide; [done|]. case_decide; [done|].
  unfold startMemcache. destruct (GetSubprocessFlags_nonempty _ Hb) as (a & l & ->).
  simpl. eauto.
Qed.

Lemma Open_Capacity cp (start : option string) (probes : nat -> Probe) cp' :
  Open cp start probes = Ok cp' -> Capacity cp' = capacity cp.
Proof.
  unfold Open, startMemcache. intros H.
  repeat case_decide; try done.
  destruct (GetSubprocessFlags (rowCacheConfig cp)); [done|].
  destruct start; [done|].
  destruct (pollMemcache 50 0 probes); simpl in H; try done.
  by injection H as <-.
Qed.

Lemma NewCachePool_closed (n : string) cfg (queryTimeout idle : Z) cp :
  NewCachePool n cfg queryTimeout idle = Ok cp ->
  pool cp = None /\ rowCacheConfig cp = (if decide (Binary cfg = "") then zeroConfig else cfg).
Proof.
  unfold NewCachePool. intros H. case_decide.
  - by injection H as <-.
  - repeat case_decide; simpl in H; try done; by injection H as <-.
Qed.

(** C6. With a non-empty binary, the capacity of the pool is
    [connections - 50] when [connections > 50] (also the [Capacity()] of
    the pool once opened), initialisation is fatal when
    [0 < connections <= 50], and the capacity is [1024 - 50] when
    [connections] is zero. *)
Theorem NewCachePool_capacity (n : string) cfg (queryTimeout idle : Z) :
  Binary cfg <> "" ->
  (50 < Connections cfg ->
     exists cp, NewCachePool n cfg queryTimeout idle = Ok cp /\
                capacity cp = Connections cfg - 50 /\
                (exists cp', Open cp None (fun _ => Healthy) = Ok cp') /\
                (forall start probes cp', Open cp start probes = Ok cp' ->
                                          Capacity cp' = Connections cfg - 50)) /\
  (0 < Connections cfg <= 50 ->
     exists msg, NewCachePool n cfg queryTimeout idle = Fatal msg) /\
  (Connections cfg = 0 ->
     exists cp, NewCachePool n cfg queryTimeout idle = Ok cp /\
                capacity cp = 1024 - 50 /\
                (exists cp', Open cp None (fun _ => Healthy) = Ok cp') /\
                (forall start probes cp', Open cp start probes = Ok cp' ->
                                          Capacity cp' = 1024 - 50)).
Proof.
  intros Hb.
  assert (Hopen : forall cp c,
    NewCachePool n cfg queryTimeout idle = Ok cp -> capacity cp = c ->
    capacity cp = c /\
    (exists cp', Open cp None (fun _ => Healthy) = Ok cp') /\
    (forall start probes cp', Open cp start probes = Ok cp' -> Capacity cp' = c)).
  { intros cp c Hnew Hc. destruct (NewCachePool_closed _ _ _ _ _ Hnew) as [Hp Hcfg].
    rewrite decide_False in Hcfg by done.
    split; [done|]. split.
    - destruct (Open_healthy cp Hp) as (cp' & Ho & _); [by rewrite Hcfg | eauto].
    - intros start probes cp' Ho. by rewrite (Open_Capacity _ _ _ _ Ho). }
  assert (Hnew : ~ 0 < Connections cfg <= 50 ->
    exists cp, NewCachePool n cfg queryTimeout idle = Ok cp /\
               capacity cp = if decide (Connections cfg > 0) then Connections cfg - 50
                             else 1024 - 50).
  { intros Hc. unfold NewCachePool. rewrite decide_False by done.
    destruct (decide (Connections cfg > 0)).
    - rewrite (decide_False (P := Connections cfg <= 50)) by lia. by eexists.
    - by eexists. }
  split; [|split]; intros Hc.
  - destruct Hnew as (cp & Hcp & Hcap); [lia|].
    rewrite decide_True in Hcap by lia. exists cp. split; [done|]. by apply Hopen.
  - eexists. unfold NewCachePool. rewrite decide_False by done.
    rewrite (decide_True (P := Connections cfg > 0)) by lia.
    rewrite (decide_True (P := Connections cfg <= 50)) by lia. reflexivity.
  - destruct Hnew as (cp & Hcp & Hcap); [lia|].
    rewrite decide_False in Hcap by lia. exists cp. split; [done|]. by apply Hopen.
Qed.

Lemma NewCachePool_capacity_witness :
  Binary (mkRowCacheConfig "memcached" 64 "" 11211 1024 4 false) <> "" /\
  exists cp,
    NewCachePool "rowcache" (mkRowCacheConfig "memcached" 64 "" 11211 1024 4 false)
                 (30 * Second) 0 = Ok cp /\
    capacity cp = 974.
Proof.
  split; [done|].
  destruct (NewCachePool_capacity "rowcache"
              (mkRowCacheConfig "memcached" 64 "" 11211 1024 4 false) (30 * Second) 0)
    as [H _]; [done|].
  destruct H as (cp & Hnew & Hcap & _); [simpl; lia|].
  exists cp. split; [exact Hnew | exact Hcap].
Defined.

(** C7 fails as stated: with a timeout of half a second the expiry stays
    zero where 15 is announced, and without a binary the expiry stays zero
    whatever the timeout. *)
Lemma NewCachePool_DeleteExpiry_counterexample :
  (exists cp,
     NewCachePool "rowcache" (mkRowCacheConfig "memcached" 0 "" 0 0 0 false)
                  500000000 0 = Ok cp /\
     DeleteExpiry cp = 0 /\ announcedDeleteExpiry 500000000 = 15) /\
  (exists cp,
     NewCachePool "rowcache" (mkRowCacheConfig "" 0 "" 0 0 0 false)
                  (30 * Second) 0 = Ok cp /\
     DeleteExpiry cp = 0 /\ announcedDeleteExpiry (30 * Second) = 75).
Proof. split; eexists; (split; [reflexivity | split; reflexivity]). Qed.

Lemma whole_seconds_small (queryTimeout : Z) :
  0 <= queryTimeout < 2 ^ 63 ->
  queryTimeout `quot` Second = queryTimeout `div` Second /\
  0 <= queryTimeout `div` Second < 2 ^ 34.
Proof.
  intros H. rewrite Z.quot_div_nonneg by (unfold Second; lia).
  split; [done|]. unfold Second. split.
  - apply Z.div_pos; lia.
  - apply Z.div_lt_upper_bound; lia.
Qed.

(** C7, amended. With a non-empty binary and a number of connections that
    is not fatal, for every non-negative query timeout the delete expiry
    is [2 * s + 15], [s] being the timeout in whole seconds, when [s] is
    not zero, and zero when [s] is zero (no timeout, or one shorter than
    a second). With an empty binary it is zero. *)
Theorem NewCachePool_DeleteExpiry (n : string) cfg (queryTimeout idle : Z) :
  0 <= queryTimeout < 2 ^ 63 ->
  (Binary cfg = "" ->
     exists cp, NewCachePool n cfg queryTimeout idle = Ok cp /\ DeleteExpiry cp = 0) /\
  (Binary cfg <> "" -> ~ 0 < Connections cfg <= 50 ->
     exists cp, NewCachePool n cfg queryTimeout idle = Ok cp /\
                DeleteExpiry cp =
                  if decide (queryTimeout `div` Second = 0) then 0
                  else 2 * (queryTimeout `div` Second) + 15).
Proof.
  intros Hq. destruct (whole_seconds_small _ Hq) as [Hquot Hs]. split.
  - intros Hb. unfold NewCachePool. rewrite decide_True by done. by eexists.
  - intros Hb Hc. unfold NewCachePool. rewrite decide_False by done.
    assert (Hcap : exists c,
      (if decide (Connections cfg > 0)
       then if decide (Connections cfg <= 50)
            then Fatal ("insufficient capacity: " +:+ Itoa (Connections cfg))
            else Ok (Connections cfg - 50)
       else Ok (1024 - 50)) = Ok c).
    { repeat case_decide; try lia; by eexists. }
    destruct Hcap as [c ->]. simpl. eexists. split; [reflexivity|]. simpl.
    rewrite Hquot. unfold uint64.
    rewrite (Z.mod_small (queryTimeout `div` Second)) by lia.
    repeat case_decide; try done. apply Z.mod_small. lia.
Qed.

Lemma NewCachePool_DeleteExpiry_witness :
  0 <= 30 * Second < 2 ^ 63 /\
  exists cp,
    NewCachePool "rowcache" (mkRowCacheConfig "memcached" 64 "" 11211 1024 4 false)
                 (30 * Second) 0 = Ok cp /\
    DeleteExpiry cp = 75.
Proof.
  assert (Hq : 0 <= 30 * Second < 2 ^ 63) by (unfold Second; lia).
  split; [exact Hq|].
  destruct (NewCachePool_DeleteExpiry "rowcache"
              (mkRowCacheConfig "memcached" 64 "" 11211 1024 4 false) (30 * Second) 0 Hq)
    as [_ H].
  destruct H as (cp & Hnew & Hexp); [done | simpl; lia |].
  exists cp. split; [exact Hnew | exact Hexp].
Defined.

End CachePoolProperties.

(** ** Table info: loading *)

Section TableInfoProperties.
Context {Value RowCache : Type}.
Variable BuildValue : Cell -> result Value.
Variable ParseUint : string -> Z.
Variable category_of : string -> Category.
Variable NewRowCache : TableInfo Value RowCache -> CachePool -> RowCache.
Implicit Types (ta : Table Value) (ti : TableInfo Value RowCache) (ix : Index).

Lemma rbind_Ok {A B} (r : result A) (k : A -> result B) (b : B) :
  rbind r k = Ok b -> exists a, r = Ok a /\ k a = Ok b.
Proof. destruct r; simpl; try done. eauto. Qed.

(** A property kept by every step of a loop holds at its end. *)
Lemma rfold_invariant {A B} (I : A -> Prop) (f : A -> B -> result A) (l : list B) (a a' : A) :
  (forall x b y, I x -> f x b = Ok y -> I y) ->
  I a -> rfold f a l = Ok a' -> I a'.
Proof.
  intros Hstep. revert a. induction l as [|b l IH]; intros a Ha H; simpl in H.
  - by injection H as <-.
  - apply rbind_Ok in H as (y & Hy & H). eauto.
Qed.

(** Loading the columns touches nothing but the column list. *)
Lemma fetchColumns_frame ti conn ti' :
  fetchColumns BuildValue category_of ti conn = Ok ti' ->
  Indexes (Tbl ti') = Indexes (Tbl ti) /\ PKColumns (Tbl ti') = PKColumns (Tbl ti) /\
  CacheType (Tbl ti') = CacheType (Tbl ti) /\ Cache ti' = Cache ti.
Proof.
  unfold fetchColumns. intros H.
  apply rbind_Ok in H as (rows & _ & H). apply rbind_Ok in H as (ta & Hfold & H).
  injection H as <-. simpl.
  enough (Indexes ta = Indexes (Tbl ti) /\ PKColumns ta = PKColumns (Tbl ti) /\
          CacheType ta = CacheType (Tbl ti)) by tauto.
  revert Hfold.
  apply (rfold_invariant (fun x => Indexes x = Indexes (Tbl ti) /\
                                   PKColumns x = PKColumns (Tbl ti) /\
                                   CacheType x = CacheType (Tbl ti))); [|done].
  intros x row y Hx Hrow. unfold fetchColumns_row in Hrow.
  destruct (row !! 4%nat); [|done].
  apply rbind_Ok in Hrow as (? & _ & Hrow). apply rbind_Ok in Hrow as (? & _ & Hrow).
  apply rbind_Ok in Hrow as (? & _ & Hrow). apply rbind_Ok in Hrow as (? & _ & Hrow).
  by injection Hrow as <-.
Qed.

(** The loop over the index rows keeps everything but the indexes, and
    every index it holds has at least one column once every index it
    started with has. *)
Lemma fetchIndexes_row_frame (st st' : Table Value * option nat * string) (row : list Cell) :
  fetchIndexes_row ParseUint st row = Ok st' ->
  Columns st'.1.1 = Columns st.1.1 /\ PKColumns st'.1.1 = PKColumns st.1.1 /\
  CacheType st'.1.1 = CacheType st.1.1 /\
  (Forall (fun ix => IdxColumns ix <> []) (Indexes st.1.1) ->
   Forall (fun ix => IdxColumns ix <> []) (Indexes st'.1.1)).
Proof.
  destruct st as [[ta cur] nm]. unfold fetchIndexes_row. intros H.
  apply rbind_Ok in H as (indexName & _ & H).
  destruct (decide (nm <> indexName)) as [Hne|Heq]; simpl in H.
  - apply rbind_Ok in H as (card & _ & H). apply rbind_Ok in H as (column & _ & H).
    injection H as <-. simpl. repeat split; try done.
    intros Hall. replace (length (Indexes ta)) with (length (Indexes ta) + 0)%nat by lia.
    rewrite alter_app_r. simpl. apply Forall_app. split; [done|].
    apply Forall_singleton. simpl. by destruct (IdxColumns (NewIndex indexName)).
  - apply rbind_Ok in H as (card & _ & H). apply rbind_Ok in H as (column & _ & H).
    destruct cur as [p|]; [|done]. injection H as <-. simpl. repeat split; try done.
    intros Hall. apply Forall_alter; [done|].
    intros ix _ _. simpl. by destruct (IdxColumns ix).
Qed.

Lemma fetchIndexes_shape ti conn ti' :
  fetchIndexes ParseUint ti conn = Ok ti' ->
  exists ta,
    Columns ta = Columns (Tbl ti) /\ PKColumns ta = PKColumns (Tbl ti) /\
    CacheType ta = CacheType (Tbl ti) /\ Cache ti' = Cache ti /\
    (Forall (fun ix => IdxColumns ix <> []) (Indexes (Tbl ti)) ->
     Forall (fun ix => IdxColumns ix <> []) (Indexes ta)) /\
    match Indexes ta with
    | [] => Tbl ti' = ta
    | pkIndex :: rest =>
        if decide (IdxName pkIndex <> "PRIMARY") then Tbl ti' = ta
        else Tbl ti' =
             mkTable (Name ta) (Columns ta)
               (withDataColumns pkIndex (DataColumns pkIndex ++ (ColName <$> Columns ta))
                :: (coverSecondary (IdxColumns pkIndex) <$> rest))
               (Some (FindColumn (Columns ta) <$> IdxColumns pkIndex)) (CacheType ta)
    end.
Proof.
  unfold fetchIndexes. intros H.
  apply rbind_Ok in H as (rows & _ & H). apply rbind_Ok in H as (st & Hfold & H).
  exists st.1.1.
  assert (Hinv : Columns st.1.1 = Columns (Tbl ti) /\
                 PKColumns st.1.1 = PKColumns (Tbl ti) /\
                 CacheType st.1.1 = CacheType (Tbl ti) /\
                 (Forall (fun ix => IdxColumns ix <> []) (Indexes (Tbl ti)) ->
                  Forall (fun ix => IdxColumns ix <> []) (Indexes st.1.1))).
  { revert Hfold.
    apply (rfold_invariant
             (fun x : Table Value * option nat * string =>
                Columns x.1.1 = Columns (Tbl ti) /\
                PKColumns x.1.1 = PKColumns (Tbl ti) /\
                CacheType x.1.1 = CacheType (Tbl ti) /\
                (Forall (fun ix => IdxColumns ix <> []) (Indexes (Tbl ti)) ->
                 Forall (fun ix => IdxColumns ix <> []) (Indexes x.1.1))));
      [|simpl; auto].
    intros x row y (Hc & Hp & Ht & Hall) Hrow.
    destruct (fetchIndexes_row_frame _ _ _ Hrow) as (Hc' & Hp' & Ht' & Hall').
    rewrite Hc', Hp', Ht'. repeat (split; [done|]). auto. }
  destruct Hinv as (Hc & Hp & Ht & Hall).
  repeat (split; [done|]).
  destruct (Indexes st.1.1) as [|pkIndex rest].
  - injection H as <-. by repeat split.
  - destruct (decide (IdxName pkIndex <> "PRIMARY")); injection H as <-; by repeat split.
Qed.

(** *** Covering of a secondary index *)

Lemma FindDataColumn_missing ix (c : string) :
  FindDataColumn ix c = -1 <-> c ∉ DataColumns ix.
Proof. unfold FindDataColumn. by apply find_from_missing. Qed.

Lemma coverSecondary_own (cols : list string) ix :
  foldl (fun ix c => withDataColumns ix (DataColumns ix ++ [c])) ix cols
  = withDataColumns ix (DataColumns ix ++ cols).
Proof.
  revert ix. induction cols as [|c cols IH]; intros ix; simpl.
  - destruct ix. unfold withDataColumns. simpl. by rewrite app_nil_r.
  - rewrite IH. unfold withDataColumns. simpl. by rewrite <- app_assoc.
Qed.

Lemma coverSecondary_pk (pkColumns : list string) ix :
  let ix' := foldl (fun ix c =>
                      if decide (FindDataColumn ix c <> -1) then ix
                      else withDataColumns ix (DataColumns ix ++ [c]))
                   ix pkColumns in
  IdxName ix' = IdxName ix /\ IdxColumns ix' = IdxColumns ix /\
  (forall c, c ∈ DataColumns ix -> c ∈ DataColumns ix') /\
  (forall c, c ∈ pkColumns -> c ∈ DataColumns ix').
Proof.
  revert ix. induction pkColumns as [|k pk IH]; intros ix; simpl.
  - repeat split; try done. intros c Hc. by apply elem_of_nil in Hc.
  - set (ix1 := if decide (FindDataColumn ix k <> -1) then ix
                else withDataColumns ix (DataColumns ix ++ [k])).
    assert (H1 : IdxName ix1 = IdxName ix /\ IdxColumns ix1 = IdxColumns ix /\
                 (forall c, c ∈ DataColumns ix -> c ∈ DataColumns ix1) /\
                 k ∈ DataColumns ix1).
    { unfold ix1. case_decide as Hk; simpl.
      - repeat split; try done.
        destruct (decide (k ∈ DataColumns ix)) as [|Hn]; [done|].
        by apply FindDataColumn_missing in Hn.
      - repeat split; try done.
        + intros c Hc. apply elem_of_app. by left.
        + apply elem_of_app. right. by apply list_elem_of_singleton. }
    destruct H1 as (Hn1 & Hc1 & Hd1 & Hk1).
    destruct (IH ix1) as (Hn & Hc & Hd & Hp).
    repeat split.
    + by rewrite Hn.
    + by rewrite Hc.
    + auto.
    + intros c Hin. apply elem_of_cons in Hin as [->|Hin]; auto.
Qed.

(** A covered secondary index holds its own columns and the primary-key
    columns in [DataColumns]. *)
Lemma coverSecondary_covers (pkColumns : list string) ix :
  IdxName (coverSecondary pkColumns ix) = IdxName ix /\
  IdxColumns (coverSecondary pkColumns ix) = IdxColumns ix /\
  (forall c, c ∈ DataColumns ix -> c ∈ DataColumns (coverSecondary pkColumns ix)) /\
  (forall c, c ∈ IdxColumns ix -> c ∈ DataColumns (coverSecondary pkColumns ix)) /\
  (forall c, c ∈ pkColumns -> c ∈ DataColumns (coverSecondary pkColumns ix)).
Proof.
  unfold coverSecondary. rewrite coverSecondary_own.
  destruct (coverSecondary_pk pkColumns
              (withDataColumns ix (DataColumns ix ++ IdxColumns ix)))
    as (Hn & Hc & Hd & Hp).
  simpl in *. repeat split; try done.
  - intros c Hin. apply Hd. apply elem_of_app. by left.
  - intros c Hin. apply Hd. apply elem_of_app. by right.
Qed.

(** C4. After the indexes have been loaded, when the first index of the
    table is named PRIMARY, its [DataColumns] holds the name of every
    column of the table, and [PKColumns] holds, in the order of the
    columns of that index, the position of each in the column list of the
    table (the first column of that name; -1 for a name that no column
    has). *)
Theorem fetchIndexes_primary ti conn ti' (pkIndex : Index) :
  fetchIndexes ParseUint ti conn = Ok ti' ->
  Indexes (Tbl ti') !! 0%nat = Some pkIndex ->
  IdxName pkIndex = "PRIMARY" ->
  (forall col, col ∈ Columns (Tbl ti') -> ColName col ∈ DataColumns pkIndex) /\
  exists pk,
    PKColumns (Tbl ti') = Some pk /\
    length pk = length (IdxColumns pkIndex) /\
    forall (i : nat) (c : string),
      IdxColumns pkIndex !! i = Some c ->
      exists p, pk !! i = Some p /\
                ((p = -1 /\ ~ isColumn (Columns (Tbl ti')) c) \/
                 positionOf (Columns (Tbl ti')) c p).
Proof.
  intros Hload H0 Hname.
  destruct (fetchIndexes_shape _ _ _ Hload) as (ta & _ & _ & _ & _ & _ & Hshape).
  destruct (Indexes ta) as [|pk0 rest] eqn:Hix.
  { rewrite Hshape, Hix in H0. done. }
  destruct (decide (IdxName pk0 <> "PRIMARY")) as [Hne|_].
  { rewrite Hshape, Hix in H0. simpl in H0. congruence. }
  rewrite Hshape in *. simpl in *. injection H0 as <-. simpl. split.
  - intros col Hcol. apply elem_of_app. right. apply list_elem_of_fmap. by exists col.
  - eexists. split; [done|]. split; [by rewrite length_fmap|].
    intros i c Hc. exists (FindColumn (Columns ta) c). split.
    + by rewrite list_lookup_fmap, Hc.
    + destruct (decide (FindColumn (Columns ta) c = -1)) as [Hm|Hf].
      * left. split; [done|]. intros (col & Hin & Hcn).
        by apply (proj1 (FindColumn_missing _ _) Hm col).
      * right. by apply FindColumn_found.
Qed.

(** C2, amended. After the indexes have been loaded, when the first index
    of the table is named PRIMARY, the [DataColumns] of every later index
    holds every column of that index and every primary-key column of the
    table: the names listed in the primary index and the names of the
    columns at the positions in [PKColumns]. *)
Theorem fetchIndexes_secondary ti conn ti' (pkIndex ix : Index) (i : nat) :
  fetchIndexes ParseUint ti conn = Ok ti' ->
  Indexes (Tbl ti') !! 0%nat = Some pkIndex ->
  IdxName pkIndex = "PRIMARY" ->
  Indexes (Tbl ti') !! S i = Some ix ->
  (forall c, c ∈ IdxColumns ix -> c ∈ DataColumns ix) /\
  (forall c, c ∈ IdxColumns pkIndex -> c ∈ DataColumns ix) /\
  (forall p col, p ∈ pkPositions (Tbl ti') ->
                 at_index (Columns (Tbl ti')) p = Some col ->
                 ColName col ∈ DataColumns ix).
Proof.
  intros Hload H0 Hname Hi.
  destruct (fetchIndexes_shape _ _ _ Hload) as (ta & _ & _ & _ & _ & _ & Hshape).
  destruct (Indexes ta) as [|pk0 rest] eqn:Hix.
  { rewrite Hshape, Hix in H0. done. }
  destruct (decide (IdxName pk0 <> "PRIMARY")) as [Hne|_].
  { rewrite Hshape, Hix in H0. simpl in H0. congruence. }
  rewrite Hshape in *. simpl in *. injection H0 as <-. simpl.
  rewrite list_lookup_fmap in Hi.
  destruct (rest !! i) as [ix0|] eqn:Hrest; [|done]. injection Hi as <-.
  destruct (coverSecondary_covers (IdxColumns pk0) ix0) as (_ & Hcols & _ & Hown & Hpk).
  split; [by rewrite Hcols|]. split; [done|].
  intros p col Hp Hcol. unfold pkPositions in Hp. simpl in Hp.
  apply list_elem_of_fmap in Hp as (c & -> & Hc).
  apply Hpk. unfold at_index in Hcol. case_decide as Hpos; [|done].
  destruct (decide (FindColumn (Columns ta) c = -1)) as [Hm|Hf]; [lia|].
  destruct (FindColumn_found _ _ _ eq_refl Hf) as (_ & (col' & Hl & Hn) & _).
  rewrite Hl in Hcol. injection Hcol as <-. by rewrite Hn.
Qed.

(** Loading a table leaves [PKColumns] nil or makes it a non-empty slice,
    and sets no cache. *)
Lemma loadTableInfo_PKColumns conn (tableName : string) ti :
  loadTableInfo BuildValue ParseUint category_of conn tableName = Ok ti ->
  (PKColumns (Tbl ti) = None \/ exists p pk, PKColumns (Tbl ti) = Some (p :: pk)) /\
  CacheType (Tbl ti) = CACHE_NONE /\ Cache ti = None.
Proof.
  unfold loadTableInfo. intros H. apply rbind_Ok in H as (ti0 & Hcols & Hidx).
  destruct (fetchColumns_frame _ _ _ Hcols) as (Hi0 & Hp0 & Ht0 & Hc0). simpl in *.
  destruct (fetchIndexes_shape _ _ _ Hidx) as (ta & _ & Hp & Ht & Hc & Hall & Hshape).
  rewrite Hi0 in Hall. specialize (Hall ltac:(constructor)).
  rewrite Hc, Hc0. rewrite Hp0 in Hp. rewrite Ht0 in Ht.
  destruct (Indexes ta) as [|pk0 rest] eqn:Hix.
  { rewrite Hshape. auto. }
  destruct (decide (IdxName pk0 <> "PRIMARY")) as [Hne|_].
  { rewrite Hshape. auto. }
  rewrite Hshape. simpl. split; [|done]. right.
  apply Forall_cons in Hall as [Hne _].
  destruct (IdxColumns pk0) as [|c cs]; [done|]. simpl. eauto.
Qed.

(** ** Table info: the row-cache decision *)

Lemma at_index_is_Some {A} (l : list A) (p : Z) :
  is_Some (at_index l p) <-> 0 <= p < Z.of_nat (length l).
Proof.
  unfold at_index. case_decide.
  - rewrite lookup_lt_is_Some. lia.
  - split; [by intros [? ?] | lia].
Qed.

Lemma pkSupported_true (cols : list (TableColumn Value)) (pk : list Z) :
  pkSupported cols pk = Ok true <->
  forall p, p ∈ pk -> exists c, at_index cols p = Some c /\ ColCategory c <> CAT_OTHER.
Proof.
  induction pk as [|q pk IH]; simpl.
  - split; [|done]. intros _ p Hp. by apply elem_of_nil in Hp.
  - destruct (at_index cols q) as [c|] eqn:Hq.
    + case_decide as Hcat.
      * split; [done|]. intros H. destruct (H q) as (c' & Hc' & Hn); [by left|].
        congruence.
      * rewrite IH. split.
        -- intros H p Hp. apply elem_of_cons in Hp as [->|Hp]; [by exists c | auto].
        -- intros H p Hp. apply H. by right.
    + split; [done|]. intros H. destruct (H q) as (c' & Hc' & _); [by left|].
      congruence.
Qed.

Lemma pkSupported_false (cols : list (TableColumn Value)) (pk : list Z) :
  pkSupported cols pk = Ok false ->
  exists p c, p ∈ pk /\ at_index cols p = Some c /\ ColCategory c = CAT_OTHER.
Proof.
  induction pk as [|q pk IH]; simpl; [done|].
  destruct (at_index cols q) as [c|] eqn:Hq; [|done].
  case_decide as Hcat.
  - intros _. exists q, c. repeat split; [by left | done | done].
  - intros H. destruct (IH H) as (p & c' & Hp & Hc & Ho).
    exists p, c'. repeat split; [by right | done | done].
Qed.

Lemma pkSupported_total (cols : list (TableColumn Value)) (pk : list Z) :
  (forall p, p ∈ pk -> is_Some (at_index cols p)) ->
  exists b, pkSupported cols pk = Ok b.
Proof.
  induction pk as [|q pk IH]; simpl; intros H; [by eexists|].
  destruct (H q) as [c ->]; [by left|].
  case_decide; [by eexists|]. apply IH. intros p Hp. apply H. by right.
Qed.

(** C1. For a table that has been loaded, [initRowCache] returns when
    every position in [PKColumns] is a position of the column list (the
    backend lists only columns of the table in an index), and whenever it
    returns: the cache type is read-write with a cache handle attached if
    and only if the pool is open, the comment does not contain
    [vtocc_nocache], the table type is not [VIEW], [PKColumns] is not
    empty and no primary-key column has category other; when one of
    these fails the cache type is none and the cache handle nil. *)
Theorem initRowCache_cacheable conn (tableName tableType : string) (createTime : Value)
    (comment : string) (cachePool : CachePool) ti :
  loadTableInfo BuildValue ParseUint category_of conn tableName = Ok ti ->
  ((forall p, p ∈ pkPositions (Tbl ti) -> is_Some (at_index (Columns (Tbl ti)) p)) ->
   is_Ok (initRowCache NewRowCache ti tableType createTime comment cachePool)) /\
  forall ti',
    initRowCache NewRowCache ti tableType createTime comment cachePool = Ok ti' ->
    ((CacheType (Tbl ti') = CACHE_RW /\ is_Some (Cache ti')) <->
     cacheable (Tbl ti) tableType comment cachePool) /\
    (~ cacheable (Tbl ti) tableType comment cachePool ->
     CacheType (Tbl ti') = CACHE_NONE /\ Cache ti' = None).
Proof.
  intros Hload.
  destruct (loadTableInfo_PKColumns _ _ _ Hload) as (Hpk & Hct & Hcache).
  unfold initRowCache, cacheable, pkPositions, pkCategoriesSupported.
  destruct (IsClosed cachePool) eqn:Hclosed.
  { split; [intros _; by eexists|]. intros ti' [= <-].
    rewrite Hct, Hcache. split; [|done]. split; [by intros [? _] | by intros [? _]]. }
  destruct (Contains comment "vtocc_nocache") eqn:Hcomment.
  { apply Contains_true_iff in Hcomment.
    split; [intros _; by eexists|]. intros ti' [= <-].
    rewrite Hct, Hcache. split; [|done].
    split; [by intros [? _] | by intros (_ & ? & _)]. }
  assert (Hnc : ~ substring_of "vtocc_nocache" comment).
  { intros Hs. apply Contains_true_iff in Hs. congruence. }
  case_decide as Hview.
  { split; [intros _; by eexists|]. intros ti' [= <-].
    rewrite Hct, Hcache. split; [|done].
    split; [by intros [? _] | by intros (_ & _ & ? & _)]. }
  destruct Hpk as [Hnil|(p0 & pk & Hpk)].
  { rewrite Hnil. simpl. split; [intros _; by eexists|]. intros ti' [= <-].
    rewrite Hct, Hcache. split; [|done].
    split; [by intros [? _] | by intros (_ & _ & _ & ? & _)]. }
  rewrite Hpk. remember (p0 :: pk) as pk' eqn:Epk.
  assert (Hne : pk' <> []) by (by subst). clear Epk. simpl. split.
  { intros Hvalid. destruct (pkSupported_total _ _ Hvalid) as [b ->].
    simpl. destruct b; by eexists. }
  intros ti' Hinit. apply rbind_Ok in Hinit as (b & Hsup & Hinit). destruct b.
  - injection Hinit as <-. simpl.
    assert (Hall := proj1 (pkSupported_true _ _) Hsup).
    split.
    + split; [|by intros _; split; [|eexists]].
      intros _. repeat (split; [done|]).
      intros p col Hp Hcol. unfold pkPositions in Hp. rewrite Hpk in Hp.
      destruct (Hall p Hp) as (c & Hc & Hn). congruence.
    + intros Hn. exfalso. apply Hn. repeat (split; [done|]).
      intros p col Hp Hcol. unfold pkPositions in Hp. rewrite Hpk in Hp.
      destruct (Hall p Hp) as (c & Hc & Hn'). congruence.
  - injection Hinit as <-. rewrite Hct, Hcache.
    destruct (pkSupported_false _ _ Hsup) as (p & c & Hp & Hc & Ho).
    split; [|done]. split; [by intros [? _]|].
    intros (_ & _ & _ & _ & Hs). exfalso. apply (Hs p c); [|done|done].
    unfold pkPositions. by rewrite Hpk.
Qed.

(** ** Table info: the primary-key override *)

Lemma isColumn_FindColumn (cols : list (TableColumn Value)) (name : string) :
  isColumn cols name <-> FindColumn cols name <> -1.
Proof.
  unfold isColumn. split.
  - intros (col & Hin & Hn) Hm. by apply (proj1 (FindColumn_missing _ _) Hm col).
  - intros Hf. destruct (FindColumn_found _ _ _ eq_refl Hf) as (_ & (col & Hl & Hn) & _).
    exists col. split; [by eapply list_elem_of_lookup_2 | done].
Qed.

Lemma SetPK_loop_found (cols : list (TableColumn Value)) (colnames : list string)
    (pkIndex : Index) (colnums : list Z) :
  (forall c, c ∈ colnames -> isColumn cols c) ->
  SetPK_loop cols colnames pkIndex colnums =
  Ok (mkIndex (IdxName pkIndex) (IdxColumns pkIndex ++ colnames)
              (IdxCardinality pkIndex ++ replicate (length colnames) 1)
              (DataColumns pkIndex),
      colnums ++ (FindColumn cols <$> colnames)).
Proof.
  revert pkIndex colnums. induction colnames as [|c names IH]; intros pkIndex colnums H.
  - simpl. rewrite !app_nil_r. by destruct pkIndex.
  - simpl. rewrite decide_False.
    + rewrite IH by (intros x Hx; apply H; by right). simpl.
      by rewrite <- !app_assoc.
    + apply isColumn_FindColumn, H. by left.
Qed.

Lemma SetPK_loop_missing (cols : list (TableColumn Value)) (colnames : list string)
    (pkIndex : Index) (colnums : list Z) :
  (exists c, c ∈ colnames /\ ~ isColumn cols c) ->
  exists pre c post,
    colnames = pre ++ c :: post /\ (forall x, x ∈ pre -> isColumn cols x) /\
    ~ isColumn cols c /\
    SetPK_loop cols colnames pkIndex colnums = Err ("column " +:+ c +:+ " not found").
Proof.
  revert pkIndex colnums. induction colnames as [|c names IH]; intros pkIndex colnums H.
  - destruct H as (c & Hc & _). by apply elem_of_nil in Hc.
  - simpl. case_decide as Hf.
    + exists [], c, names. repeat split; try done.
      * intros x Hx. by apply elem_of_nil in Hx.
      * intros Hc. by apply isColumn_FindColumn in Hc.
    + destruct (IH (Index_AddColumn pkIndex c 1) (colnums ++ [FindColumn cols c]))
        as (pre & c' & post & -> & Hpre & Hc' & Hloop).
      { destruct H as (x & Hx & Hnx). exists x. split; [|done].
        apply elem_of_cons in Hx as [->|Hx]; [|done].
        exfalso. by apply Hnx, isColumn_FindColumn. }
      exists (c :: pre), c', post. repeat split; try done.
      intros x Hx. apply elem_of_cons in Hx as [->|Hx]; [|auto].
      by apply isColumn_FindColumn.
Qed.

(** C3, amended. [SetPK] builds an index named PRIMARY on the given
    columns and puts it at position 0, in place of the first index when
    that is named PRIMARY and before all the indexes otherwise, which keep
    their order and their [DataColumns]; the [DataColumns] of the new
    index holds every column of the table and [PKColumns] the positions
    of the given columns. When a given name is not a column of the table
    it returns the error [column <name> not found] for the first such
    name. *)
Theorem SetPK_primary ti (colnames : list string) :
  ((forall c, c ∈ colnames -> isColumn (Columns (Tbl ti)) c) ->
   exists ti' pkIndex,
     SetPK ti colnames = Ok ti' /\
     Indexes (Tbl ti') =
       pkIndex :: match Indexes (Tbl ti) with
                  | [] => []
                  | first :: rest =>
                      if decide (IdxName first = "PRIMARY") then rest else first :: rest
                  end /\
     IdxName pkIndex = "PRIMARY" /\
     IdxColumns pkIndex = colnames /\
     (forall col, col ∈ Columns (Tbl ti') -> ColName col ∈ DataColumns pkIndex) /\
     (exists pk, PKColumns (Tbl ti') = Some pk /\
                 Forall2 (positionOf (Columns (Tbl ti'))) colnames pk) /\
     Columns (Tbl ti') = Columns (Tbl ti) /\
     CacheType (Tbl ti') = CacheType (Tbl ti) /\ Cache ti' = Cache ti) /\
  ((exists c, c ∈ colnames /\ ~ isColumn (Columns (Tbl ti)) c) ->
   exists pre c post,
     colnames = pre ++ c :: post /\
     (forall x, x ∈ pre -> isColumn (Columns (Tbl ti)) x) /\
     ~ isColumn (Columns (Tbl ti)) c /\
     SetPK ti colnames = Err ("column " +:+ c +:+ " not found")).
Proof.
  split.
  - intros Hall. unfold SetPK. rewrite SetPK_loop_found by done. simpl.
    eexists _, _. split; [reflexivity|]. simpl. split.
    { destruct (Indexes (Tbl ti)) as [|first rest]; [done|].
      destruct (decide (IdxName first = "PRIMARY")).
      - by rewrite decide_False by (by intros ?).
      - by rewrite decide_True. }
    repeat (split; [done|]). split.
    { intros col Hcol. apply list_elem_of_fmap. by exists col. }
    split; [|done].
    eexists. split; [done|].
    clear -Hall. induction colnames as [|c names IH]; simpl; [constructor|].
    constructor.
    + apply FindColumn_found; [done|]. apply isColumn_FindColumn, Hall. by left.
    + apply IH. intros x Hx. apply Hall. by right.
  - intros Hmiss. unfold SetPK.
    destruct (SetPK_loop_missing (Columns (Tbl ti)) colnames (NewIndex "PRIMARY") [] Hmiss)
      as (pre & c & post & Heq & Hpre & Hc & ->).
    exists pre, c, post. by repeat split.
Qed.

End TableInfoProperties.

(** ** Table info: examples *)

Lemma fetchIndexes_primary_witness :
  exists ti' pkIndex,
    fetchIndexes exampleParseUint keyedColumns keyedBackend = Ok ti' /\
    Indexes (Tbl ti') !! 0%nat = Some pkIndex /\
    IdxName pkIndex = "PRIMARY" /\
    (forall col, col ∈ Columns (Tbl ti') -> ColName col ∈ DataColumns pkIndex) /\
    PKColumns (Tbl ti') = Some [0].
Proof.
  eexists _, _. split; [reflexivity|]. split; [reflexivity|]. split; [reflexivity|].
  destruct (fetchIndexes_primary exampleParseUint keyedColumns keyedBackend _ _
              eq_refl eq_refl eq_refl) as [Hcover _].
  split; [exact Hcover | reflexivity].
Defined.

Lemma fetchIndexes_secondary_witness :
  exists ti' pkIndex ix,
    fetchIndexes exampleParseUint keyedColumns keyedBackend = Ok ti' /\
    Indexes (Tbl ti') !! 0%nat = Some pkIndex /\
    IdxName pkIndex = "PRIMARY" /\
    Indexes (Tbl ti') !! 1%nat = Some ix /\
    (forall c, c ∈ IdxColumns ix -> c ∈ DataColumns ix) /\
    (forall c, c ∈ IdxColumns pkIndex -> c ∈ DataColumns ix).
Proof.
  eexists _, _, _. split; [reflexivity|]. split; [reflexivity|]. split; [reflexivity|].
  split; [reflexivity|].
  destruct (fetchIndexes_secondary exampleParseUint keyedColumns keyedBackend _ _ _ 0%nat
              eq_refl eq_refl eq_refl eq_refl) as (Hown & Hpk & _).
  split; [exact Hown | exact Hpk].
Defined.

(** C2 fails as stated: a table without a primary key is loaded with the
    [DataColumns] of its indexes empty, so that the second index does not
    even hold its own column. *)
Lemma fetchIndexes_secondary_counterexample :
  exists ti ix,
    exampleLoad keylessBackend = Ok ti /\
    Indexes (Tbl ti) !! 1%nat = Some ix /\
    ("b" ∈ IdxColumns ix) /\ ("b" ∉ DataColumns ix).
Proof.
  exists keylessLoaded. eexists. split; [vm_compute; reflexivity|].
  split; [reflexivity|]. simpl. split.
  - by apply list_elem_of_singleton.
  - apply not_elem_of_nil.
Qed.

Lemma keyedLoaded_eq : exampleLoad keyedBackend = Ok keyedLoaded.
Proof. vm_compute. reflexivity. Defined.

Lemma keylessLoaded_eq : exampleLoad keylessBackend = Ok keylessLoaded.
Proof. vm_compute. reflexivity. Defined.

Lemma initRowCache_cacheable_witness :
  exampleLoad keyedBackend = Ok keyedLoaded /\
  exists ti',
    initRowCache (fun _ _ => tt) keyedLoaded "BASE TABLE" "" "" openPool = Ok ti' /\
    CacheType (Tbl ti') = CACHE_RW /\ is_Some (Cache ti').
Proof.
  split; [exact keyedLoaded_eq|].
  destruct (initRowCache_cacheable exampleBuildValue exampleParseUint exampleCategory
              (fun _ _ => tt) keyedBackend "t" "BASE TABLE" "" "" openPool keyedLoaded
              keyedLoaded_eq) as [Hret Hiff].
  destruct Hret as [ti' Hinit].
  { intros p Hp. apply list_elem_of_singleton in Hp as ->. by eexists. }
  exists ti'. split; [exact Hinit|].
  destruct (Hiff ti' Hinit) as [Hrw _]. apply Hrw.
  split; [reflexivity|]. split.
  { intros Hs. apply Contains_true_iff in Hs. vm_compute in Hs. discriminate. }
  split; [discriminate|]. split; [discriminate|].
  intros p col Hp Hcol. apply list_elem_of_singleton in Hp as ->.
  injection Hcol as <-. discriminate.
Defined.

Lemma SetPK_primary_witness :
  exists ti' pkIndex,
    SetPK keylessLoaded ["a"] = Ok ti' /\
    Indexes (Tbl ti') !! 0%nat = Some pkIndex /\
    IdxName pkIndex = "PRIMARY" /\ IdxColumns pkIndex = ["a"] /\
    length (Indexes (Tbl ti')) = 3%nat.
Proof.
  destruct (SetPK_primary keylessLoaded ["a"]) as [Hok _].
  destruct Hok as (ti' & pkIndex & Hset & Hix & Hname & Hcols & _).
  { intros c Hc. apply list_elem_of_singleton in Hc as ->.
    exists (mkColumn "a" CAT_NUMBER "" ""). split; [by left | reflexivity]. }
  exists ti', pkIndex. split; [exact Hset|].
  rewrite Hix. split; [reflexivity|]. split; [exact Hname|]. split; [exact Hcols|].
  reflexivity.
Defined.

(** C3 fails as stated where it says that the covering logic is repeated:
    after [SetPK] on a table loaded without a primary key, an index that
    follows the new primary index holds neither the primary-key column nor
    its own column in [DataColumns]. *)
Lemma SetPK_covering_counterexample :
  exampleLoad keylessBackend = Ok keylessLoaded /\
  exists ti' ix,
    SetPK keylessLoaded ["a"] = Ok ti' /\
    PKColumns (Tbl ti') = Some [0] /\
    Indexes (Tbl ti') !! 2%nat = Some ix /\
    IdxName ix = "i2" /\
    ("a" ∉ DataColumns ix) /\ ("b" ∈ IdxColumns ix) /\ ("b" ∉ DataColumns ix).
Proof.
  split; [exact keylessLoaded_eq|].
  eexists _, _. split; [vm_compute; reflexivity|].
  split; [reflexivity|]. split; [reflexivity|]. split; [reflexivity|]. simpl.
  split; [apply not_elem_of_nil|]. split; [by apply list_elem_of_singleton|].
  apply not_elem_of_nil.
Qed.

(** ** The reprint *)

(** Induction over the syntax tree, with the nodes below a list or an
    optional field. *)
Section SQLNode_induction.
Variable P : SQLNode -> Prop.

Let Popt (o : option SQLNode) : Prop :=
  match o with None => True | Some n => P n end.

Hypothesis HText : forall s, P (Text s).
Hypothesis HValArg : forall name, P (ValArg name).
Hypothesis HSeq : forall a b, P a -> P b -> P (Seq a b).
Hypothesis HSubquery : forall sel, P sel -> P (Subquery sel).
Hypothesis HLimit : forall o r, Popt o -> P r -> P (Limit o r).
Hypothesis HSelect : forall c d e t w g h o l k,
  P c -> P e -> Forall P t -> Popt w -> P g -> Popt h -> P o -> Popt l ->
  P (Select c d e t w g h o l k).
Hypothesis HUnion : forall t l r, P l -> P r -> P (Union t l r).
Hypothesis HAliased : forall e a h, P e -> P (AliasedTableExpr e a h).
Hypothesis HParen : forall e, P e -> P (ParenTableExpr e).
Hypothesis HJoin : forall l j r on, P l -> P r -> Popt on -> P (JoinTableExpr l j r on).
Hypothesis HInsert : forall b, P b -> P (Insert b).
Hypothesis HReplace : forall b, P b -> P (Replace b).
Hypothesis HUpdate : forall b, P b -> P (Update b).
Hypothesis HDelete : forall b, P b -> P (Delete b).
Hypothesis HSet : forall b, P b -> P (Set_ b).
Hypothesis HDDL : forall b, P b -> P (DDL b).
Hypothesis HOther : forall b, P b -> P (Other b).

Fixpoint SQLNode_nested_ind (n : SQLNode) : P n :=
  let opt (o : option SQLNode) : Popt o :=
    match o return Popt o with None => I | Some x => SQLNode_nested_ind x end in
  match n with
  | Text s => HText s
  | ValArg name => HValArg name
  | Seq a b => HSeq a b (SQLNode_nested_ind a) (SQLNode_nested_ind b)
  | Subquery sel => HSubquery sel (SQLNode_nested_ind sel)
  | Limit o r => HLimit o r (opt o) (SQLNode_nested_ind r)
  | Select c d e t w g h o l k =>
      HSelect c d e t w g h o l k (SQLNode_nested_ind c) (SQLNode_nested_ind e)
        ((fix all (l : list SQLNode) : Forall P l :=
            match l with
            | [] => @List.Forall_nil _ P
            | x :: l' => @List.Forall_cons _ P x l' (SQLNode_nested_ind x) (all l')
            end) t)
        (opt w) (SQLNode_nested_ind g) (opt h) (SQLNode_nested_ind o) (opt l)
  | Union t l r => HUnion t l r (SQLNode_nested_ind l) (SQLNode_nested_ind r)
  | AliasedTableExpr e a h => HAliased e a h (SQLNode_nested_ind e)
  | ParenTableExpr e => HParen e (SQLNode_nested_ind e)
  | JoinTableExpr l j r on =>
      HJoin l j r on (SQLNode_nested_ind l) (SQLNode_nested_ind r) (opt on)
  | Insert b => HInsert b (SQLNode_nested_ind b)
  | Replace b => HReplace b (SQLNode_nested_ind b)
  | Update b => HUpdate b (SQLNode_nested_ind b)
  | Delete b => HDelete b (SQLNode_nested_ind b)
  | Set_ b => HSet b (SQLNode_nested_ind b)
  | DDL b => HDDL b (SQLNode_nested_ind b)
  | Other b => HOther b (SQLNode_nested_ind b)
  end.

End SQLNode_induction.

Lemma Myprintf_v_unfold (node : SQLNode) (buf : TrackedBuffer) :
  Myprintf_v node buf =
  match nodeFormatter buf with
  | nilFormatter => Format Myprintf_v node buf
  | impossibleFormatter => FormatImpossible Myprintf_v buf node
  end.
Proof. by destruct node. Qed.

Lemma Myprintf_v_nil (node : SQLNode) (buf : TrackedBuffer) :
  nodeFormatter buf = nilFormatter -> Myprintf_v node buf = Format Myprintf_v node buf.
Proof. intros H. by rewrite Myprintf_v_unfold, H. Qed.

Lemma Myprintf_v_impossible (node : SQLNode) (buf : TrackedBuffer) :
  nodeFormatter buf = impossibleFormatter ->
  Myprintf_v node buf = FormatImpossible Myprintf_v buf node.
Proof. intros H. by rewrite Myprintf_v_unfold, H. Qed.

Lemma formatIndexHints_formatter (h : IndexHints) (buf : TrackedBuffer) :
  nodeFormatter (formatIndexHints h buf) = nodeFormatter buf.
Proof.
  unfold formatIndexHints.
  assert (Hgen : forall l b (pre : string),
    nodeFormatter (foldl (fun '(buf, prefix) n => (WriteString buf (prefix +:+ n), ", "))
                         (b, pre) l).1 = nodeFormatter b).
  { induction l as [|x l IH]; intros b pre; simpl; [done|]. by rewrite IH. }
  specialize (Hgen (HintIndexes h) (WriteString buf (" " +:+ HintType h +:+ " index ")) "(").
  destruct (foldl _ _ _) as [b' p']. simpl in *. by rewrite Hgen.
Qed.

Lemma formatTableExprs_formatter (l : list SQLNode) :
  Forall keepsFormatter l ->
  forall prefix buf,
    nodeFormatter (formatTableExprs Myprintf_v l prefix buf) = nodeFormatter buf.
Proof.
  induction 1 as [|n l Hn _ IH]; intros prefix buf; simpl; [done|].
  by rewrite IH, Hn.
Qed.

Lemma formatClause_formatter (keyword : string) (w : option SQLNode) :
  match w with None => True | Some n => keepsFormatter n end ->
  forall buf, nodeFormatter (formatClause Myprintf_v keyword w buf) = nodeFormatter buf.
Proof. destruct w as [n|]; simpl; intros H buf; [by rewrite H | done]. Qed.

Ltac keep_formatter :=
  repeat first
    [ rewrite formatIndexHints_formatter
    | rewrite formatClause_formatter by assumption
    | rewrite formatTableExprs_formatter by assumption
    | match goal with
      | H : keepsFormatter ?n |- context [nodeFormatter (Myprintf_v ?n _)] => rewrite H
      end
    | progress simpl ].

Lemma Myprintf_v_formatter (n : SQLNode) : keepsFormatter n.
Proof.
  induction n using SQLNode_nested_ind; intros buf;
    rewrite Myprintf_v_unfold; destruct (nodeFormatter buf) eqn:Hf; simpl;
    repeat match goal with
           | |- context [match ?o with Some _ => _ | None => _ end] =>
               is_var o; destruct o
           | |- context [decide ?P] => destruct (decide P)
           end;
    simpl in *; keep_formatter; done.
Qed.

Lemma append_nil_r (s : string) : s +:+ "" = s.
Proof. induction s as [|a s IH]; [done|]. by rewrite append_cons, IH. Qed.

Lemma append_assoc (s t u : string) : (s +:+ t) +:+ u = s +:+ (t +:+ u).
Proof. induction s as [|a s IH]; [done|]. by rewrite !append_cons, IH. Qed.

Lemma WriteString_empty (buf : TrackedBuffer) : WriteString buf "" = buf.
Proof. destruct buf. unfold WriteString. simpl. by rewrite append_nil_r. Qed.

Lemma WriteString_WriteString (buf : TrackedBuffer) (s t : string) :
  WriteString (WriteString buf s) t = WriteString buf (s +:+ t).
Proof. unfold WriteString. simpl. by rewrite append_assoc. Qed.

Lemma withFormatter_WriteString (nf : NodeFormatter) (buf : TrackedBuffer) (s : string) :
  withFormatter nf (WriteString buf s) = WriteString (withFormatter nf buf) s.
Proof. done. Qed.

Lemma withFormatter_WriteArg (nf : NodeFormatter) (buf : TrackedBuffer) (s : string) :
  withFormatter nf (WriteArg buf s) = WriteArg (withFormatter nf buf) s.
Proof. done. Qed.

Lemma withFormatter_formatIndexHints (nf : NodeFormatter) (h : IndexHints)
    (buf : TrackedBuffer) :
  withFormatter nf (formatIndexHints h buf) = formatIndexHints h (withFormatter nf buf).
Proof.
  unfold formatIndexHints.
  assert (Hgen : forall l b (pre : string),
    foldl (fun '(buf, prefix) n => (WriteString buf (prefix +:+ n), ", "))
          (withFormatter nf b, pre) l =
    (withFormatter nf
       (foldl (fun '(buf, prefix) n => (WriteString buf (prefix +:+ n), ", ")) (b, pre) l).1,
     (foldl (fun '(buf, prefix) n => (WriteString buf (prefix +:+ n), ", ")) (b, pre) l).2)).
  { induction l as [|x l IH]; intros b pre; simpl; [done|].
    by rewrite <- IH, withFormatter_WriteString. }
  rewrite <- withFormatter_WriteString, Hgen.
  by destruct (foldl _ _ _) as [b' p'].
Qed.

Lemma formatTableExprs_impossible (l : list SQLNode) :
  Forall reprintsImpossible l ->
  forall prefix buf, nodeFormatter buf = impossibleFormatter ->
    withFormatter nilFormatter (formatTableExprs Myprintf_v l prefix buf) =
    formatTableExprs Myprintf_v (map impossibleStatement l) prefix
                     (withFormatter nilFormatter buf).
Proof.
  induction 1 as [|n l Hn _ IH]; intros prefix buf Hf; simpl; [done|].
  rewrite IH by (by rewrite Myprintf_v_formatter).
  by rewrite Hn.
Qed.

Lemma formatTableExprs_keeps (l : list SQLNode) (prefix : string) (buf : TrackedBuffer) :
  nodeFormatter (formatTableExprs Myprintf_v l prefix buf) = nodeFormatter buf.
Proof.
  apply formatTableExprs_formatter, Forall_forall. intros n _. apply Myprintf_v_formatter.
Qed.

Lemma formatClause_keeps (keyword : string) (w : option SQLNode) (buf : TrackedBuffer) :
  nodeFormatter (formatClause Myprintf_v keyword w buf) = nodeFormatter buf.
Proof. destruct w; simpl; [by rewrite Myprintf_v_formatter | done]. Qed.

Ltac formatter_known :=
  repeat first
    [ rewrite Myprintf_v_formatter
    | rewrite formatIndexHints_formatter
    | rewrite formatTableExprs_keeps
    | rewrite formatClause_keeps
    | progress simpl ];
  first [assumption | reflexivity].

Ltac impossible_child :=
  match goal with
  | H : reprintsImpossible ?n
    |- context [withFormatter nilFormatter (Myprintf_v ?n ?b)] =>
      rewrite (H b) by formatter_known
  end.

Ltac push_formatter :=
  repeat first
    [ rewrite withFormatter_WriteString
    | rewrite withFormatter_WriteArg
    | rewrite withFormatter_formatIndexHints
    | impossible_child
    | rewrite formatTableExprs_impossible by (first [assumption | formatter_known]) ].

Lemma Myprintf_v_Text (s : string) (buf : TrackedBuffer) :
  Myprintf_v (Text s) buf = WriteString buf s.
Proof. rewrite Myprintf_v_unfold. by destruct (nodeFormatter buf). Qed.

(** The reprint under [FormatImpossible] is the plain reprint of the
    impossible statement. *)
Lemma Myprintf_v_impossibleStatement (n : SQLNode) : reprintsImpossible n.
Proof.
  induction n using SQLNode_nested_ind; intros buf Hf;
    rewrite (Myprintf_v_impossible _ buf) by done;
    rewrite (Myprintf_v_nil (impossibleStatement _)) by done;
    cbn [Format FormatImpossible impossibleStatement formatClause option_map];
    repeat match goal with
           | |- context [match ?o with Some _ => _ | None => _ end] =>
               is_var o; destruct o
           | |- context [decide ?P] => destruct (decide P)
           end;
    cbn [formatClause option_map] in *;
    unfold impossibleCondition;
    rewrite ?Myprintf_v_Text, ?WriteString_empty, ?WriteString_WriteString;
    push_formatter; done.
Qed.

Lemma GenerateFullQuery_Myprintf_v (statement : SQLNode) :
  GenerateFullQuery statement =
  toParsedQuery (Myprintf_v statement (NewTrackedBuffer nilFormatter)).
Proof. unfold GenerateFullQuery. by rewrite Myprintf_v_nil. Qed.

(** Every select of the impossible statement has the where clause
    [1 != 1], every left or right join the condition [1 != 1]. *)
Lemma impossibleStatement_everyNode (n : SQLNode) :
  everyNode impossibleNode (impossibleStatement n).
Proof.
  induction n using SQLNode_nested_ind; simpl;
    repeat match goal with
           | o : option SQLNode |- _ => destruct o
           end;
    simpl in *; repeat split; try done.
  all: try (match goal with H : Forall _ _ |- _ => clear -H; induction H; simpl; by auto end).
  all: try (intros Hj; by rewrite decide_True).
  all: by case_decide.
Qed.

(** ** The field query *)

(** C5. The field query of a statement is the reprint of the statement in
    which every select has the where clause [1 != 1] and every left or
    right join the condition [1 != 1]; it is nil exactly when that
    reprint has bind variables. Under [FormatImpossible] a select is
    printed as [select <exprs> from <tables> where 1 != 1] and a left or
    right join as [<left> <join> <right> on 1 != 1]. *)
Theorem GenerateFieldQuery_impossible (statement : SQLNode) :
  everyNode impossibleNode (impossibleStatement statement) /\
  GenerateFieldQuery statement =
    (if decide (BindLocations (GenerateFullQuery (impossibleStatement statement)) = [])
     then Some (GenerateFullQuery (impossibleStatement statement))
     else None) /\
  (forall c d e t w g h o l k buf,
     nodeFormatter buf = impossibleFormatter ->
     Myprintf_v (Select c d e t w g h o l k) buf =
     WriteString
       (formatTableExprs Myprintf_v t ""
          (WriteString (Myprintf_v e (WriteString buf "select ")) " from "))
       " where 1 != 1") /\
  (forall l j r on buf,
     nodeFormatter buf = impossibleFormatter ->
     j = AST_LEFT_JOIN \/ j = AST_RIGHT_JOIN ->
     Myprintf_v (JoinTableExpr l j r on) buf =
     WriteString (Myprintf_v r (WriteString (Myprintf_v l buf) (" " +:+ j +:+ " ")))
                 " on 1 != 1").
Proof.
  split; [apply impossibleStatement_everyNode|]. split; [|split].
  - unfold GenerateFieldQuery. rewrite GenerateFullQuery_Myprintf_v.
    pose proof (Myprintf_v_impossibleStatement statement
                  (NewTrackedBuffer impossibleFormatter) eq_refl) as H.
    change (withFormatter nilFormatter (NewTrackedBuffer impossibleFormatter))
      with (NewTrackedBuffer nilFormatter) in H.
    rewrite <- H. unfold HasBindVars, toParsedQuery, withFormatter. simpl.
    destruct (bindLocations (Myprintf_v statement (NewTrackedBuffer impossibleFormatter)));
      by case_decide.
  - intros c d e t w g h o l k buf Hf. by rewrite Myprintf_v_impossible.
  - intros l j r on buf Hf Hj. rewrite Myprintf_v_impossible by done. simpl.
    by rewrite decide_True.
Qed.

(** ** The select queries *)

(** C9. For a select without a limit, [GenerateSelectLimitQuery] prints
    the select with the limit [:#maxLimit]: the text is that of the
    select without its lock, then [ limit :#maxLimit], then the lock, and
    [:#maxLimit] is recorded as a bind variable. For a select with a limit
    it prints the select as it is. *)
Theorem GenerateSelectLimitQuery_limit (c : SQLNode) (d : string) (e : SQLNode)
    (t : list SQLNode) (w : option SQLNode) (g : SQLNode) (h : option SQLNode)
    (o : SQLNode) (k : string) :
  ((GenerateSelectLimitQuery (Select c d e t w g h o None k)).1 =
     GenerateFullQuery (Select c d e t w g h o (Some execLimit) k) /\
   Query (GenerateSelectLimitQuery (Select c d e t w g h o None k)).1 =
     Query (GenerateFullQuery (Select c d e t w g h o None "")) +:+
     " limit :#maxLimit" +:+ k /\
   BindLocations (GenerateSelectLimitQuery (Select c d e t w g h o None k)).1 =
     BindLocations (GenerateFullQuery (Select c d e t w g h o None "")) ++
     [(String.length (Query (GenerateFullQuery (Select c d e t w g h o None ""))
                      +:+ " limit "), 10%nat)]) /\
  (forall l,
     (GenerateSelectLimitQuery (Select c d e t w g h o (Some l) k)).1 =
       GenerateFullQuery (Select c d e t w g h o (Some l) k)).
Proof.
  split; [|intros l; unfold GenerateSelectLimitQuery; simpl fst;
           by rewrite GenerateFullQuery_Myprintf_v].
  unfold GenerateSelectLimitQuery. cbn [setLimit fst].
  rewrite <- GenerateFullQuery_Myprintf_v. split; [done|].
  unfold GenerateFullQuery. cbn [Format formatClause].
  set (X := Myprintf_v o _).
  assert (HX : nodeFormatter X = nilFormatter).
  { unfold X. formatter_known. }
  rewrite !WriteString_empty.
  unfold execLimit. rewrite (Myprintf_v_nil (Limit _ _)) by done. cbn [Format].
  rewrite (Myprintf_v_nil (ValArg _)) by done. cbn [Format].
  unfold toParsedQuery, WriteString, WriteArg. simpl.
  split; [by rewrite !append_assoc | done].
Qed.

(** C10. [GenerateSelectLimitQuery] and [GenerateSelectSubquery] leave
    the statement as they found it: the limit installed for printing is
    set back to nil and the index hints to the saved ones, also when the
    body of [GenerateSelectSubquery] panics. *)
Theorem generators_restore_statement {Value} (sel : SQLNode) (tableInfo : Table Value)
    (index : string) :
  (GenerateSelectLimitQuery sel).2 = sel /\
  (GenerateSelectSubquery sel tableInfo index).2 = sel.
Proof.
  split.
  - unfold GenerateSelectLimitQuery. destruct sel; try done.
    by destruct Limit0.
  - unfold GenerateSelectSubquery. destruct sel; try done.
    destruct From as [|table rest]; [done|]. by destruct table.
Qed.

(** While it prints, [GenerateSelectSubquery] has the hint [use index]
    on the first table of the statement. *)
Lemma GenerateSelectSubquery_hint {Value} (c : SQLNode) (d : string) (e expr : SQLNode)
    (as_ : option string) (saved : option IndexHints) (rest : list SQLNode)
    (w : option SQLNode) (g : SQLNode) (h : option SQLNode) (o : SQLNode)
    (l : option SQLNode) (k : string) (tableInfo : Table Value) (ix : Index)
    (ixs : list Index) (index : string) :
  Indexes tableInfo = ix :: ixs ->
  (GenerateSelectSubquery
     (Select c d e (AliasedTableExpr expr as_ saved :: rest) w g h o l k)
     tableInfo index).1 =
  GenerateSubquery (IdxColumns ix)
                   (AliasedTableExpr expr as_ (Some (mkIndexHints AST_USE [index])))
                   w o l false.
Proof. intros Hix. unfold GenerateSelectSubquery. simpl. by rewrite Hix. Qed.

(** ** Analysis *)

(** *** Bind variables and text of the reprint *)

Lemma formatIndexHints_bindLocations (h : IndexHints) (buf : TrackedBuffer) :
  bindLocations (formatIndexHints h buf) = bindLocations buf.
Proof.
  unfold formatIndexHints.
  assert (Hgen : forall l b (pre : string),
    bindLocations (foldl (fun '(buf, prefix) n => (WriteString buf (prefix +:+ n), ", "))
                         (b, pre) l).1 = bindLocations b).
  { induction l as [|x l IH]; intros b pre; simpl; [done|]. by rewrite IH. }
  specialize (Hgen (HintIndexes h) (WriteString buf (" " +:+ HintType h +:+ " index ")) "(").
  destruct (foldl _ _ _) as [b' p']. simpl in *. by rewrite Hgen.
Qed.

Lemma formatTableExprs_countArgs (l : list SQLNode) :
  Forall (fun n => forall buf, nodeFormatter buf = nilFormatter ->
            length (bindLocations (Myprintf_v n buf)) =
            (length (bindLocations buf) + countArgs n)%nat) l ->
  forall prefix buf, nodeFormatter buf = nilFormatter ->
    length (bindLocations (formatTableExprs Myprintf_v l prefix buf)) =
    (length (bindLocations buf) + list_sum (map countArgs l))%nat.
Proof.
  induction 1 as [|n l Hn _ IH]; intros prefix buf Hf; simpl; [lia|].
  rewrite IH by formatter_known. rewrite Hn by done. simpl. lia.
Qed.

Lemma Myprintf_v_countArgs (n : SQLNode) :
  forall buf, nodeFormatter buf = nilFormatter ->
    length (bindLocations (Myprintf_v n buf)) =
    (length (bindLocations buf) + countArgs n)%nat.
Proof.
  induction n using SQLNode_nested_ind; intros buf Hf;
    rewrite Myprintf_v_nil by done; cbn [Format countArgs formatClause];
    repeat match goal with
           | |- context [match ?o with Some _ => _ | None => _ end] =>
               is_var o; destruct o
           end;
    cbn [formatClause] in *;
    repeat first
      [ rewrite formatIndexHints_bindLocations
      | rewrite formatTableExprs_countArgs by (first [assumption | formatter_known])
      | match goal with
        | H : forall buf, _ -> length (bindLocations (Myprintf_v ?n buf)) = _
          |- context [bindLocations (Myprintf_v ?n ?b)] =>
            rewrite (H b) by formatter_known
        end
      | progress cbn [bindLocations WriteString WriteArg]
      | rewrite length_app ];
    simpl; lia.
Qed.

Lemma GenerateFullQuery_countArgs (statement : SQLNode) :
  length (BindLocations (GenerateFullQuery statement)) = countArgs statement.
Proof.
  rewrite GenerateFullQuery_Myprintf_v. unfold toParsedQuery. simpl.
  by rewrite Myprintf_v_countArgs.
Qed.

Lemma formatIndexHints_content (h : IndexHints) (buf : TrackedBuffer) :
  content (formatIndexHints h buf) =
  content buf +:+ content (formatIndexHints h (NewTrackedBuffer nilFormatter)).
Proof.
  unfold formatIndexHints.
  assert (Hgen : forall l b (pre : string),
    content (foldl (fun '(buf, prefix) n => (WriteString buf (prefix +:+ n), ", "))
                   (b, pre) l).1 =
    content b +:+
    content (foldl (fun '(buf, prefix) n => (WriteString buf (prefix +:+ n), ", "))
                   (NewTrackedBuffer nilFormatter, pre) l).1).
  { induction l as [|x l IH]; intros b pre; simpl; [by rewrite append_nil_r|].
    rewrite IH. rewrite (IH (WriteString (NewTrackedBuffer nilFormatter) _)). simpl.
    by rewrite append_assoc. }
  pose proof (Hgen (HintIndexes h) (WriteString buf (" " +:+ HintType h +:+ " index ")) "(")
    as H1.
  pose proof (Hgen (HintIndexes h)
                (WriteString (NewTrackedBuffer nilFormatter)
                             (" " +:+ HintType h +:+ " index ")) "(") as H2.
  destruct (foldl _ (WriteString buf _, _) _) as [b1 p1].
  destruct (foldl _ (WriteString (NewTrackedBuffer nilFormatter) _, _) _) as [b2 p2].
  simpl in *. rewrite H1, H2. by rewrite !append_assoc.
Qed.

Lemma reprint_unfold (n : SQLNode) :
  reprint n = content (Myprintf_v n (NewTrackedBuffer nilFormatter)).
Proof. unfold reprint. by rewrite GenerateFullQuery_Myprintf_v. Qed.

Lemma formatTableExprs_content (l : list SQLNode) :
  Forall appends l ->
  forall prefix buf, nodeFormatter buf = nilFormatter ->
    content (formatTableExprs Myprintf_v l prefix buf) =
    content buf +:+
    content (formatTableExprs Myprintf_v l prefix (NewTrackedBuffer nilFormatter)).
Proof.
  induction 1 as [|n l Hn _ IH]; intros prefix buf Hf; simpl;
    [by rewrite append_nil_r|].
  rewrite IH by formatter_known.
  rewrite (IH _ (Myprintf_v n (WriteString (NewTrackedBuffer nilFormatter) prefix)))
    by formatter_known.
  rewrite !Hn by formatter_known. simpl. by rewrite !append_assoc.
Qed.

Ltac push_content :=
  repeat first
    [ match goal with
      | |- context [content (formatIndexHints ?h ?b)] =>
          lazymatch b with
          | NewTrackedBuffer _ => fail
          | _ => rewrite (formatIndexHints_content h b)
          end
      | |- context [content (formatTableExprs Myprintf_v ?l ?p ?b)] =>
          lazymatch b with
          | NewTrackedBuffer _ => fail
          | _ => rewrite (formatTableExprs_content l ltac:(assumption) p b)
                   by formatter_known
          end
      | H : appends ?n |- context [content (Myprintf_v ?n ?b)] =>
          rewrite (H b) by formatter_known
      end
    | progress cbn [content WriteString WriteArg NewTrackedBuffer] ].

Lemma Myprintf_v_content (n : SQLNode) : appends n.
Proof.
  induction n using SQLNode_nested_ind; intros buf Hf;
    rewrite Myprintf_v_nil by done; rewrite reprint_unfold;
    rewrite (Myprintf_v_nil _ (NewTrackedBuffer nilFormatter)) by done;
    repeat match goal with
           | o : option SQLNode |- _ => destruct o
           end;
    cbn [Format formatClause] in *;
    repeat match goal with
           | |- context [match ?o with Some _ => _ | None => _ end] =>
               is_var o; destruct o
           end;
    push_content;
    rewrite ?append_nil_l, ?append_assoc; done.
Qed.

Lemma GenerateFullQuery_Union (type : string) (leftE rightE : SQLNode) :
  Query (GenerateFullQuery (Union type leftE rightE)) =
  reprint leftE +:+ " " +:+ type +:+ " " +:+ reprint rightE.
Proof.
  rewrite GenerateFullQuery_Myprintf_v, Myprintf_v_nil by done.
  cbn [Format toParsedQuery Query].
  rewrite (Myprintf_v_content rightE) by formatter_known.
  cbn [content WriteString].
  rewrite (Myprintf_v_content leftE) by formatter_known.
  cbn [content NewTrackedBuffer]. by rewrite append_nil_l, !append_assoc.
Qed.

Lemma GenerateFieldQuery_countArgs (statement : SQLNode) :
  GenerateFieldQuery statement =
  if decide (countArgs (impossibleStatement statement) = 0%nat)
  then Some (mkParsedQuery (reprint (impossibleStatement statement)) [])
  else None.
Proof.
  unfold GenerateFieldQuery.
  pose proof (Myprintf_v_impossibleStatement statement
                (NewTrackedBuffer impossibleFormatter) eq_refl) as H.
  change (withFormatter nilFormatter (NewTrackedBuffer impossibleFormatter))
    with (NewTrackedBuffer nilFormatter) in H.
  pose proof (Myprintf_v_countArgs (impossibleStatement statement)
                (NewTrackedBuffer nilFormatter) eq_refl) as Hn.
  rewrite reprint_unfold. rewrite <- H in *.
  unfold withFormatter, HasBindVars, toParsedQuery in *. simpl in *.
  rewrite <- Hn.
  destruct (bindLocations (Myprintf_v statement (NewTrackedBuffer impossibleFormatter)));
    [done|]. by rewrite decide_False.
Qed.

(** *** The plan of a union *)

(** C8 fails as stated: the plan of the union of [select :a from t] and
    [select b from t] has no field query. *)
Lemma analyzeSQL_union_counterexample :
  exists plan,
    analyzeSQL (Value := unit)
               (fun _ _ => Err "select") (fun _ _ => Err "insert")
               (fun _ _ => Err "update") (fun _ _ => Err "delete")
               (fun _ => zeroPlan) (fun _ _ => zeroPlan) unionBind (fun _ => None)
    = Ok plan /\
    PlanId plan = PLAN_PASS_SELECT /\ Reason plan = REASON_SELECT /\
    FullQuery plan = Some (mkParsedQuery "select :a from t union select b from t" [(7, 2)]%nat) /\
    FieldQuery plan = None.
Proof. eexists. repeat split; vm_compute; reflexivity. Qed.

(** C8, amended. For a union, [analyzeSQL] returns, whatever the table
    getter and the analyses of the other statement kinds, the plan
    pass-select with the reason select, the two queries and nothing else.
    The full query is the reprint of the statement: the reprint of the
    left side, the kind of union, the reprint of the right side, with one
    bind location for each bind variable. The field query is the reprint
    of the union of the two impossible statements, without bind
    location, when these have no bind variable; it is nil when they have
    one. For a statement of a kind [analyzeSQL] has no case for, it
    returns the error [invalid SQL]. *)
Theorem analyzeSQL_union {Value}
    (analyzeSelect analyzeInsert analyzeUpdate analyzeDelete :
       SQLNode -> @TableGetter Value -> result ExecPlan)
    (analyzeSet : SQLNode -> ExecPlan)
    (analyzeDDL : SQLNode -> @TableGetter Value -> ExecPlan)
    (getTable : @TableGetter Value) :
  (forall type leftE rightE,
     exists full field,
       analyzeSQL analyzeSelect analyzeInsert analyzeUpdate analyzeDelete analyzeSet
                  analyzeDDL (Union type leftE rightE) getTable =
       Ok (mkExecPlan PLAN_PASS_SELECT REASON_SELECT "" field (Some full)
                      None None "" [] [] PVNil [] [] "" PVNil) /\
       Query full = reprint leftE +:+ " " +:+ type +:+ " " +:+ reprint rightE /\
       length (BindLocations full) = (countArgs leftE + countArgs rightE)%nat /\
       field =
         if decide (countArgs (impossibleStatement leftE) = 0%nat /\
                    countArgs (impossibleStatement rightE) = 0%nat)
         then Some (mkParsedQuery
                      (reprint (impossibleStatement leftE) +:+ " " +:+ type +:+ " " +:+
                       reprint (impossibleStatement rightE)) [])
         else None) /\
  (forall statement,
     recognised statement = false ->
     analyzeSQL analyzeSelect analyzeInsert analyzeUpdate analyzeDelete analyzeSet
                analyzeDDL statement getTable = Err "invalid SQL").
Proof.
  split.
  - intros type leftE rightE.
    exists (GenerateFullQuery (Union type leftE rightE)),
           (GenerateFieldQuery (Union type leftE rightE)).
    split; [done|]. split; [apply GenerateFullQuery_Union|].
    split; [by rewrite GenerateFullQuery_countArgs|].
    rewrite GenerateFieldQuery_countArgs.
    cbn [impossibleStatement countArgs].
    destruct (decide (_ + _ = 0)%nat) as [H0|H0].
    + rewrite decide_True by lia.
      f_equal. f_equal.
      change (reprint (Union type (impossibleStatement leftE) (impossibleStatement rightE)))
        with (Query (GenerateFullQuery
                (Union type (impossibleStatement leftE) (impossibleStatement rightE)))).
      apply GenerateFullQuery_Union.
    + by rewrite decide_False by lia.
  - intros statement Hr. by destruct statement.
Qed.

Lemma analyzeSQL_union_witness :
  (exists full,
     analyzeSQL (Value := unit)
                (fun _ _ => Err "select") (fun _ _ => Err "insert")
                (fun _ _ => Err "update") (fun _ _ => Err "delete")
                (fun _ => zeroPlan) (fun _ _ => zeroPlan) unionPlain (fun _ => None)
     = Ok (mkExecPlan PLAN_PASS_SELECT REASON_SELECT ""
             (Some (mkParsedQuery
                      "select a from t where 1 != 1 union select b from t where 1 != 1" []))
             (Some full) None None "" [] [] PVNil [] [] "" PVNil) /\
     Query full = "select a from t where x = :v union select b from t limit 5" /\
     length (BindLocations full) = 1%nat) /\
  recognised (Replace (Text "replace into t values (1)")) = false /\
  analyzeSQL (Value := unit)
             (fun _ _ => Err "select") (fun _ _ => Err "insert")
             (fun _ _ => Err "update") (fun _ _ => Err "delete")
             (fun _ => zeroPlan) (fun _ _ => zeroPlan)
             (Replace (Text "replace into t values (1)")) (fun _ => None)
  = Err "invalid SQL".
Proof.
  destruct (analyzeSQL_union (Value := unit)
              (fun _ _ => Err "select") (fun _ _ => Err "insert")
              (fun _ _ => Err "update") (fun _ _ => Err "delete")
              (fun _ => zeroPlan) (fun _ _ => zeroPlan) (fun _ => None)) as [Hunion Hother].
  split.
  - unfold unionPlain.
    destruct (Hunion "union"
                (Select (Text "") "" (Text "a") [tableT]
                        (Some (Seq (Text "x = ") (ValArg ":v")))
                        (Text "") None (Text "") None "")
                (Select (Text "") "" (Text "b") [tableT] None (Text "") None (Text "")
                        (Some (Limit None (Text "5"))) ""))
      as (full & field & Hplan & Hquery & Hlen & Hfield).
    exists full. rewrite Hplan, Hquery, Hlen, Hfield.
    split; [|split]; vm_compute; reflexivity.
  - split; [reflexivity|]. apply Hother. reflexivity.
Defined.

(** ** Rewriting: examples *)

Lemma GenerateFieldQuery_impossible_witness :
  GenerateFieldQuery selectJoined =
  Some (mkParsedQuery
          "select a, (select b from t where 1 != 1) from t left join u as w on 1 != 1, t where 1 != 1"
          []).
Proof.
  destruct (GenerateFieldQuery_impossible selectJoined) as (_ & H & _).
  rewrite H. vm_compute. reflexivity.
Defined.

Lemma GenerateSelectLimitQuery_limit_witness :
  (GenerateSelectLimitQuery selectByIndex).1 =
  mkParsedQuery "select a from t where idx_col = 7 limit :#maxLimit" [(40%nat, 10%nat)].
Proof.
  destruct (GenerateSelectLimitQuery_limit (Text "") "" (Text "a") [tableT]
              (Some (Seq (Text "idx_col") (Seq (Text " = ") (Text "7"))))
              (Text "") None (Text "") "") as [[H _] _].
  unfold selectByIndex. rewrite H. vm_compute. reflexivity.
Defined.

Lemma generators_restore_statement_witness :
  GenerateSelectSubquery selectByIndex (Tbl keyedLoaded) "idx" =
  (Ok (mkParsedQuery
         "select id from t use index (idx) where idx_col = 7 limit :#maxLimit"
         [(57%nat, 10%nat)]),
   selectByIndex).
Proof.
  destruct (generators_restore_statement selectByIndex (Tbl keyedLoaded) "idx") as [_ H].
  apply injective_projections; [vm_compute; reflexivity | exact H].
Defined.

(** * Further properties *)

(** ** Cache pool: the probe loop and the life cycle *)

Lemma append_inj_l (p a b : string) : p +:+ a = p +:+ b -> a = b.
Proof.
  induction p as [|c p IH]; [done|]. rewrite !append_cons. intros [= H]. by apply IH.
Qed.

Lemma communicate_connect (err : string) :
  @Fatal unit ("can't communicate with memcache: " +:+ err) <>
  Fatal "Can't connect to memcache".
Proof. rewrite append_cons. by intros [=]. Qed.

Lemma pollMemcache_outcome_gen (fuel : nat) (attempts : Z) (probes : nat -> Probe) :
  (0 < fuel)%nat -> Z.of_nat fuel + attempts = 50 ->
  (pollMemcache fuel attempts probes = Ok tt <->
   exists k, (k < fuel)%nat /\ probes k = Healthy /\
             forall j, (j < k)%nat -> probes j = ConnectFails) /\
  (forall err,
     pollMemcache fuel attempts probes =
       Fatal ("can't communicate with memcache: " +:+ err) <->
     exists k, (k < fuel)%nat /\ probes k = SetFails err /\
               forall j, (j < k)%nat -> probes j = ConnectFails) /\
  (pollMemcache fuel attempts probes = Fatal "Can't connect to memcache" <->
   forall j, (j < fuel)%nat -> probes j = ConnectFails) /\
  (forall r, pollMemcache fuel attempts probes = r ->
             r = Ok tt \/
             (exists err, r = Fatal ("can't communicate with memcache: " +:+ err)) \/
             r = Fatal "Can't connect to memcache").
Proof.
  revert attempts probes. induction fuel as [|fuel IH]; intros attempts probes Hf Hsum; [lia|].
  simpl. destruct (probes 0%nat) as [|e0|] eqn:H0.
  - (* the connect fails *)
    destruct (decide (attempts + 1 >= 50)) as [Hlast|Hmore].
    + assert (fuel = 0%nat) by lia. subst fuel.
      split; [|split; [|split]].
      * split; [done|].
        intros (k & Hk & Hh & _). assert (k = 0%nat) by lia. congruence.
      * intros err. split; [intros H; symmetry in H; by apply communicate_connect in H|].
        intros (k & Hk & Hh & _). assert (k = 0%nat) by lia. congruence.
      * split; [|done]. intros _ j Hj. assert (j = 0%nat) by lia. by subst.
      * intros r <-. auto.
    + destruct (IH (attempts + 1) (fun i => probes (S i))) as (Hok & Hset & Hconn & Hall);
        [lia | lia |].
      split; [|split; [|split]].
      * split.
        -- intros H. apply Hok in H as (k & Hk & Hh & Hb). exists (S k).
           split; [lia|]. split; [done|]. intros [|j] Hj; [done | apply Hb; lia].
        -- intros (k & Hk & Hh & Hb). apply Hok. destruct k as [|k]; [congruence|].
           exists k. split; [lia|]. split; [done|]. intros j Hj. apply (Hb (S j)). lia.
      * intros err. split.
        -- intros H. apply Hset in H as (k & Hk & Hh & Hb). exists (S k).
           split; [lia|]. split; [done|]. intros [|j] Hj; [done | apply Hb; lia].
        -- intros (k & Hk & Hh & Hb). apply Hset. destruct k as [|k]; [congruence|].
           exists k. split; [lia|]. split; [done|]. intros j Hj. apply (Hb (S j)). lia.
      * split.
        -- intros H [|j] Hj; [done|]. apply (proj1 Hconn H). lia.
        -- intros H. apply Hconn. intros j Hj. apply (H (S j)). lia.
      * done.
  - (* the health write fails *)
    split; [|split; [|split]].
    + split; [done|].
      intros (k & Hk & Hh & Hb). destruct k as [|k]; [congruence|].
      specialize (Hb 0%nat ltac:(lia)). congruence.
    + intros err. split.
      * intros [= H]. apply append_inj_l in H as ->.
        exists 0%nat. split; [lia|]. split; [done|]. intros j Hj. lia.
      * intros (k & Hk & Hh & Hb). destruct k as [|k]; [congruence|].
        specialize (Hb 0%nat ltac:(lia)). congruence.
    + split; [intros H; by apply communicate_connect in H|].
      intros H. specialize (H 0%nat ltac:(lia)). congruence.
    + intros r <-. eauto.
  - (* healthy *)
    split; [|split; [|split]].
    + split; [|done].
      intros _. exists 0%nat. split; [lia|]. split; [done|]. intros j Hj. lia.
    + intros err. split; [done|].
      intros (k & Hk & Hh & Hb). destruct k as [|k]; [congruence|].
      specialize (Hb 0%nat ltac:(lia)). congruence.
    + split; [done|]. intros H. specialize (H 0%nat ltac:(lia)). congruence.
    + intros r <-. auto.
Qed.

(** X1. The probe loop of [startMemcache] succeeds exactly when one of the
    first 50 probes finds a healthy child and every probe before it
    failed to connect; it is fatal with the error of the health write
    exactly when one of the first 50 probes connects and cannot write,
    every probe before it having failed to connect; it is fatal with
    [Can't connect to memcache] exactly when the first 50 probes all fail
    to connect; it never makes a 51st probe and always ends. *)
Theorem pollMemcache_outcome (probes : nat -> Probe) :
  (pollMemcache 50 0 probes = Ok tt <->
   exists k, (k < 50)%nat /\ probes k = Healthy /\
             forall j, (j < k)%nat -> probes j = ConnectFails) /\
  (forall err,
     pollMemcache 50 0 probes = Fatal ("can't communicate with memcache: " +:+ err) <->
     exists k, (k < 50)%nat /\ probes k = SetFails err /\
               forall j, (j < k)%nat -> probes j = ConnectFails) /\
  (pollMemcache 50 0 probes = Fatal "Can't connect to memcache" <->
   forall j, (j < 50)%nat -> probes j = ConnectFails) /\
  (forall probes', (forall j, (j < 50)%nat -> probes' j = probes j) ->
                   pollMemcache 50 0 probes' = pollMemcache 50 0 probes) /\
  pollMemcache 50 0 probes <> Panic.
Proof.
  destruct (pollMemcache_outcome_gen 50 0 probes) as (Hok & Hset & Hconn & Hall);
    [lia | lia |].
  split; [done|]. split; [done|]. split; [done|]. split.
  - intros probes' Heq.
    destruct (pollMemcache_outcome_gen 50 0 probes') as (Hok' & Hset' & Hconn' & Hall');
      [lia | lia |].
    destruct (Hall _ eq_refl) as [H|[[err H]|H]]; rewrite H.
    + apply Hok'. apply Hok in H as (k & Hk & Hh & Hb). exists k.
      split; [done|]. split; [by rewrite Heq|]. intros j Hj. rewrite Heq by lia. auto.
    + apply Hset'. apply Hset in H as (k & Hk & Hh & Hb). exists k.
      split; [done|]. split; [by rewrite Heq|]. intros j Hj. rewrite Heq by lia. auto.
    + apply Hconn'. intros j Hj. rewrite Heq by lia. by apply Hconn.
  - intros H. by destruct (Hall _ H) as [?|[[? ?]|?]].
Qed.

(** X2. On a closed pool with a binary, [Open] never panics and returns
    no error: it opens the pool exactly when the child starts and the
    probe loop succeeds, and is fatal otherwise. The pool it opens has the
    capacity of the cache pool as capacity and as maximum, its idle
    timeout and its endpoint, and the child's command line is that of
    [GetSubprocessFlags]. *)
Theorem Open_outcome (cp : CachePool) (start : option string) (probes : nat -> Probe) :
  pool cp = None -> Binary (rowCacheConfig cp) <> "" ->
  Open cp start probes <> Panic /\
  (forall e, Open cp start probes <> Err e) /\
  (is_Ok (Open cp start probes) <-> start = None /\ pollMemcache 50 0 probes = Ok tt) /\
  (forall cp', Open cp start probes = Ok cp' ->
     cp' = mkCachePool (name cp)
             (Some (mkResourcePool (port cp) (capacity cp) (capacity cp) (idleTimeout cp)))
             (Some (GetSubprocessFlags (rowCacheConfig cp))) (rowCacheConfig cp)
             (capacity cp) (port cp) (idleTimeout cp) (DeleteExpiry cp)).
Proof.
  intros Hp Hb. unfold Open, startMemcache. rewrite Hp.
  rewrite decide_False by (by intros ?). rewrite decide_False by done.
  destruct (GetSubprocessFlags_nonempty _ Hb) as (a & l & Hflags). rewrite Hflags.
  destruct (pollMemcache_outcome_gen 50 0 probes) as (_ & _ & _ & Hall); [lia | lia |].
  destruct start as [err|].
  - cbn [rbind]. split; [done|]. split; [done|]. split; [|done].
    split; [by intros [? ?] | by intros [? _]].
  - destruct (Hall _ eq_refl) as [H|[[err H]|H]]; rewrite H; cbn [rbind].
    + split; [done|]. split; [done|]. split; [by split; [|eexists]|].
      by intros cp' [= <-].
    + split; [done|]. split; [done|]. split; [|done].
      split; [by intros [? ?] | by intros [_ ?]].
    + split; [done|]. split; [done|]. split; [|done].
      split; [by intros [? ?] | by intros [_ ?]].
Qed.

Lemma Open_outcome_witness :
  exists cp cp',
    NewCachePool "rowcache" (mkRowCacheConfig "memcached" 64 "/tmp/rc.sock" 0 1024 4 true)
                 (30 * Second) 60 = Ok cp /\
    Open cp None (fun i => if decide (i < 3)%nat then ConnectFails else Healthy) = Ok cp' /\
    pool cp' = Some (mkResourcePool "/tmp/rc.sock" 974 974 60) /\
    cmd cp' = Some ["memcached"; "-m"; "64"; "-s"; "/tmp/rc.sock"; "-c"; "1024"; "-t"; "4";
                    "-k"].
Proof.
  eexists. eexists. split; [vm_compute; reflexivity|].
  assert (Hopen : Open
            (mkCachePool "rowcache" None None
               (mkRowCacheConfig "memcached" 64 "/tmp/rc.sock" 0 1024 4 true)
               974 "/tmp/rc.sock" 60 75) None
            (fun i => if decide (i < 3)%nat then ConnectFails else Healthy) =
          Ok (mkCachePool "rowcache" (Some (mkResourcePool "/tmp/rc.sock" 974 974 60))
                (Some ["memcached"; "-m"; "64"; "-s"; "/tmp/rc.sock"; "-c"; "1024"; "-t";
                       "4"; "-k"])
                (mkRowCacheConfig "memcached" 64 "/tmp/rc.sock" 0 1024 4 true)
                974 "/tmp/rc.sock" 60 75)).
  { vm_compute. reflexivity. }
  destruct (Open_outcome _ None
              (fun i => if decide (i < 3)%nat then ConnectFails else Healthy)
              (eq_refl : pool (mkCachePool "rowcache" None None
                 (mkRowCacheConfig "memcached" 64 "/tmp/rc.sock" 0 1024 4 true)
                 974 "/tmp/rc.sock" 60 75) = None))
    as (_ & _ & _ & Hshape); [discriminate|].
  specialize (Hshape _ Hopen).
  split; [exact Hopen|]. split; reflexivity.
Defined.

(** X3. The life cycle of the pool: an open pool cannot be opened again
    ([Open] panics), a pool made without a binary can never be opened;
    closing an open pool makes it closed with capacity, maximum and idle
    timeout read as zero, closing again changes nothing, and opening the
    closed pool behaves exactly as the first opening did. *)
Theorem Open_Close_lifecycle (cp cp1 : CachePool) (start : option string) (probes : nat -> Probe) :
  Open cp start probes = Ok cp1 ->
  IsClosed cp1 = false /\
  (forall start' probes', Open cp1 start' probes' = Panic) /\
  IsClosed (Close cp1) = true /\
  Capacity (Close cp1) = 0 /\ MaxCap (Close cp1) = 0 /\ IdleTimeout (Close cp1) = 0 /\
  Close (Close cp1) = Close cp1 /\
  (forall start' probes', Open (Close cp1) start' probes' = Open cp start' probes').
Proof.
  intros Hopen.
  assert (Hp : pool cp = None).
  { unfold Open in Hopen. destruct (pool cp); [|done]. by rewrite decide_True in Hopen. }
  assert (Hb : Binary (rowCacheConfig cp) <> "").
  { unfold Open in Hopen. rewrite Hp in Hopen.
    rewrite decide_False in Hopen by (by intros ?). by case_decide. }
  destruct (Open_outcome cp start probes Hp Hb) as (_ & _ & _ & Hshape).
  rewrite (Hshape _ Hopen). unfold Close, IsClosed, Capacity, MaxCap, IdleTimeout, getPool.
  simpl. repeat split.
  intros start' probes'. unfold Open, startMemcache. simpl. rewrite Hp.
  rewrite !(decide_False (P := None <> None)) by (by intros ?).
  case_decide; [done|].
  destruct (GetSubprocessFlags (rowCacheConfig cp)); [done|].
  destruct start'; [|done]. by destruct (pollMemcache 50 0 probes') as [[]| | |].
Qed.

Lemma Open_Close_lifecycle_witness :
  exists cp1,
    Open (mkCachePool "rowcache" None None
            (mkRowCacheConfig "memcached" 0 "" 0 0 0 false) 974 "11211" 0 0)
         None (fun _ => Healthy) = Ok cp1 /\
    IsClosed (Close cp1) = true /\
    is_Ok (Open (Close cp1) None (fun _ => Healthy)).
Proof.
  eexists. split; [vm_compute; reflexivity|].
  destruct (Open_Close_lifecycle
              (mkCachePool "rowcache" None None
                 (mkRowCacheConfig "memcached" 0 "" 0 0 0 false) 974 "11211" 0 0)
              _ None (fun _ => Healthy) eq_refl)
    as (_ & _ & Hclosed & _ & _ & _ & _ & Hreopen).
  split; [exact Hclosed|]. rewrite Hreopen. eexists. vm_compute. reflexivity.
Defined.

(** X4. A pool without binary, or one that was never opened, cannot be
    used as open: [NewCachePool] always returns a closed pool, and with
    an empty binary [Open] panics on it. *)
Theorem NewCachePool_never_open (n : string) (cfg : RowCacheConfig)
    (queryTimeout idle : Z) (cp : CachePool) :
  NewCachePool n cfg queryTimeout idle = Ok cp ->
  IsClosed cp = true /\ Capacity cp = 0 /\ Close cp = cp /\
  (Binary cfg = "" -> forall start probes, Open cp start probes = Panic).
Proof.
  intros Hnew. destruct (NewCachePool_closed _ _ _ _ _ Hnew) as [Hp Hcfg].
  unfold IsClosed, Capacity, Close, getPool. rewrite Hp. repeat (split; [done|]).
  intros Hb start probes. rewrite decide_True in Hcfg by done.
  unfold Open. rewrite Hp, Hcfg. rewrite decide_False by (by intros ?).
  by rewrite decide_True by done.
Qed.

Lemma NewCachePool_never_open_witness :
  exists cp,
    NewCachePool "rowcache" (mkRowCacheConfig "" 64 "" 11211 1024 4 false) 0 0 = Ok cp /\
    IsClosed cp = true /\ Open cp None (fun _ => Healthy) = Panic.
Proof.
  eexists. split; [vm_compute; reflexivity|].
  destruct (NewCachePool_never_open "rowcache"
              (mkRowCacheConfig "" 64 "" 11211 1024 4 false) 0 0 _ eq_refl)
    as (Hc & _ & _ & Ho).
  split; [exact Hc | by apply Ho].
Defined.

(** ** Cache pool: configuration *)

(** X5. The endpoint the pool connects to is one the child is told to
    listen on: with a TCP port it is [:<port>] and the command line holds
    [-p <port>]; with no TCP port and a socket it is the socket and the
    command line holds [-s <socket>]; with neither it is [11211]. The
    command line begins with the binary. *)
Theorem NewCachePool_endpoint (n : string) (cfg : RowCacheConfig) (queryTimeout idle : Z)
    (cp : CachePool) :
  Binary cfg <> "" ->
  NewCachePool n cfg queryTimeout idle = Ok cp ->
  head (GetSubprocessFlags (rowCacheConfig cp)) = Some (Binary cfg) /\
  (TcpPort cfg > 0 ->
     port cp = ":" +:+ Itoa (TcpPort cfg) /\
     adjacent "-p" (Itoa (TcpPort cfg)) (GetSubprocessFlags (rowCacheConfig cp))) /\
  (TcpPort cfg <= 0 -> Socket cfg <> "" ->
     port cp = Socket cfg /\
     adjacent "-s" (Socket cfg) (GetSubprocessFlags (rowCacheConfig cp))) /\
  (TcpPort cfg <= 0 -> Socket cfg = "" -> port cp = "11211").
Proof.
  intros Hb Hnew.
  destruct (NewCachePool_closed _ _ _ _ _ Hnew) as [_ Hcfg].
  rewrite decide_False in Hcfg by done. rewrite Hcfg.
  assert (Hport : port cp =
    if decide (TcpPort cfg > 0) then ":" +:+ Itoa (TcpPort cfg)
    else if decide (Socket cfg <> "") then Socket cfg else "11211").
  { unfold NewCachePool in Hnew. rewrite decide_False in Hnew by done.
    apply rbind_Ok in Hnew as (c & _ & Hnew). by injection Hnew as <-. }
  unfold GetSubprocessFlags. rewrite decide_False by done.
  set (M := if decide (Memory cfg > 0) then _ else _).
  set (C := if decide (Connections cfg > 0) then _ else _).
  set (T := if decide (Threads cfg > 0) then _ else _).
  set (K := if LockPaged cfg then _ else _).
  split; [done|]. split; [|split].
  - intros Ht. rewrite Hport, decide_True by done. split; [done|].
    rewrite (decide_True (P := TcpPort cfg > 0)) by done.
    set (S := if decide (Socket cfg <> "") then _ else _).
    exists ([Binary cfg] ++ M ++ S), (C ++ T ++ K). by rewrite <- !app_assoc.
  - intros Ht Hs. rewrite Hport, decide_False, decide_True by (done || lia).
    split; [done|]. rewrite (decide_True (P := Socket cfg <> "")) by done.
    set (P := if decide (TcpPort cfg > 0) then _ else _).
    exists ([Binary cfg] ++ M), (P ++ C ++ T ++ K). by rewrite <- !app_assoc.
  - intros Ht Hs. rewrite Hport, decide_False by lia.
    by rewrite decide_False by (by intros ?).
Qed.

Lemma NewCachePool_endpoint_witness :
  exists cp,
    NewCachePool "rowcache" (mkRowCacheConfig "memcached" 64 "/tmp/rc.sock" 11311 0 0 false)
                 0 0 = Ok cp /\
    port cp = ":11311" /\
    adjacent "-p" "11311" (GetSubprocessFlags (rowCacheConfig cp)).
Proof.
  eexists. split; [vm_compute; reflexivity|].
  destruct (NewCachePool_endpoint "rowcache"
              (mkRowCacheConfig "memcached" 64 "/tmp/rc.sock" 11311 0 0 false) 0 0 _
              ltac:(discriminate) eq_refl) as (_ & Htcp & _).
  destruct Htcp as [Hport Hadj]; [simpl; lia|].
  split; [reflexivity | exact Hadj].
Defined.

(** X6. With a binary, [NewCachePool] returns a pool exactly when the
    number of connections is not between 1 and 50, and the capacity of
    that pool is at least 1: [connections - 50] for more than 50
    connections, 974 for zero or a negative number. *)
Theorem NewCachePool_capacity_positive (n : string) (cfg : RowCacheConfig)
    (queryTimeout idle : Z) :
  Binary cfg <> "" ->
  (is_Ok (NewCachePool n cfg queryTimeout idle) <-> ~ 0 < Connections cfg <= 50) /\
  (forall cp, NewCachePool n cfg queryTimeout idle = Ok cp ->
     1 <= capacity cp /\
     capacity cp = if decide (50 < Connections cfg) then Connections cfg - 50 else 974).
Proof.
  intros Hb. unfold NewCachePool. rewrite decide_False by done.
  destruct (decide (Connections cfg > 0)) as [Hpos|Hneg].
  - destruct (decide (Connections cfg <= 50)) as [Hle|Hgt]; simpl.
    + split; [|done]. split; [by intros [? ?] | lia].
    + split; [split; [lia | by eexists]|]. intros cp [= <-]. simpl.
      rewrite decide_True by lia. lia.
  - simpl. split; [split; [lia | by eexists]|]. intros cp [= <-]. simpl.
    rewrite decide_False by lia. lia.
Qed.

Lemma NewCachePool_capacity_positive_witness :
  is_Ok (NewCachePool "rowcache" (mkRowCacheConfig "memcached" 0 "" 0 (-3) 0 false) 0 0).
Proof.
  apply (NewCachePool_capacity_positive "rowcache"
           (mkRowCacheConfig "memcached" 0 "" 0 (-3) 0 false) 0 0); [discriminate|].
  simpl. lia.
Defined.

(** X7. For every [int64] query timeout, negative ones included, the
    delete expiry of a pool made with a binary is a [uint64], and it is
    zero exactly when the timeout has no whole second. *)
Theorem NewCachePool_DeleteExpiry_zero (n : string) (cfg : RowCacheConfig)
    (queryTimeout idle : Z) (cp : CachePool) :
  Binary cfg <> "" ->
  - 2 ^ 63 <= queryTimeout < 2 ^ 63 ->
  NewCachePool n cfg queryTimeout idle = Ok cp ->
  0 <= DeleteExpiry cp < 2 ^ 64 /\
  (DeleteExpiry cp = 0 <-> - Second < queryTimeout < Second).
Proof.
  intros Hb Hq Hnew. unfold NewCachePool in Hnew. rewrite decide_False in Hnew by done.
  apply rbind_Ok in Hnew as (c & _ & Hnew). injection Hnew as <-. simpl.
  set (s := queryTimeout `quot` Second).
  assert (Hs : - 2 ^ 63 < s < 2 ^ 63 /\ (s = 0 <-> - Second < queryTimeout < Second)).
  { unfold s, Second in *.
    pose proof (Z.quot_rem' queryTimeout 1000000000) as Hqr.
    destruct (Z_le_gt_dec 0 queryTimeout) as [Hpos|Hneg'].
    - pose proof (Z.rem_bound_pos queryTimeout 1000000000 Hpos ltac:(lia)). lia.
    - pose proof (Z.rem_bound_pos_neg queryTimeout 1000000000 ltac:(lia) ltac:(lia)). lia. }
  destruct Hs as [Hrange Hzero].
  assert (Hu : uint64 s = 0 <-> s = 0).
  { unfold uint64. split; [|by intros ->].
    intros Hm. apply Z.mod_divide in Hm as [q Hm]; [|lia]. lia. }
  unfold uint64 in *. case_decide as Hne.
  - split; [apply Z.mod_pos_bound; lia|].
    split; [|tauto]. intros Hm. exfalso.
    apply Z.mod_divide in Hm as [q Hm]; [|lia].
    pose proof (Z.mod_pos_bound s (2 ^ 64) ltac:(lia)). lia.
  - split; [lia|]. split; [|done]. intros _. apply Hzero, Hu.
    destruct (decide (s `mod` 2 ^ 64 = 0)); [done | by exfalso].
Qed.

Lemma NewCachePool_DeleteExpiry_zero_witness :
  exists cp,
    NewCachePool "rowcache" (mkRowCacheConfig "memcached" 0 "" 0 0 0 false)
                 (- 8 * Second) 0 = Ok cp /\
    DeleteExpiry cp = 2 ^ 64 - 1 /\ DeleteExpiry cp <> 0.
Proof.
  eexists. split; [vm_compute; reflexivity|]. split; [reflexivity|].
  destruct (NewCachePool_DeleteExpiry_zero "rowcache"
              (mkRowCacheConfig "memcached" 0 "" 0 0 0 false) (- 8 * Second) 0 _
              ltac:(discriminate) ltac:(unfold Second; lia) eq_refl) as [_ Hzero].
  intros H. apply Hzero in H. unfold Second in H. lia.
Defined.

(** ** Cache pool: key prefixes *)

Lemma int64_step (x y : Z) : int64 (int64 x + y) = int64 (x + y).
Proof.
  unfold int64.
  replace (((x + 2 ^ 63) `mod` 2 ^ 64 - 2 ^ 63 + y + 2 ^ 63))
    with ((x + 2 ^ 63) `mod` 2 ^ 64 + y) by lia.
  replace (x + y + 2 ^ 63) with ((x + 2 ^ 63) + y) by lia.
  by rewrite Zplus_mod_idemp_l.
Qed.

Lemma int64_eq (x y : Z) : int64 x = int64 y -> exists q, x - y = q * 2 ^ 64.
Proof.
  unfold int64. intros H.
  assert (Hm : (x + 2 ^ 63) `mod` 2 ^ 64 = (y + 2 ^ 63) `mod` 2 ^ 64) by lia.
  rewrite (Z.mod_eq (x + 2 ^ 63)), (Z.mod_eq (y + 2 ^ 63)) in Hm by lia.
  exists ((x + 2 ^ 63) `div` 2 ^ 64 - (y + 2 ^ 63) `div` 2 ^ 64). lia.
Qed.

Lemma prefixes_elem (n : nat) (counter x : Z) :
  x ∈ prefixes n counter ->
  exists i, 1 <= i <= Z.of_nat n /\ x = int64 (counter + i).
Proof.
  revert counter. induction n as [|n IH]; intros counter Hx; simpl in Hx.
  - by apply elem_of_nil in Hx.
  - apply elem_of_cons in Hx as [->|Hx].
    + exists 1. split; [lia | done].
    + apply IH in Hx as (i & Hi & ->). exists (i + 1). split; [lia|].
      rewrite int64_step. f_equal. lia.
Qed.

(** X8. Successive calls of [GetMaxPrefix] return pairwise distinct
    values, as long as there are fewer than [2^64] of them: every row
    cache gets a prefix of its own. *)
Theorem GetMaxPrefix_distinct (n : nat) (counter : Z) :
  Z.of_nat n < 2 ^ 64 -> NoDup (prefixes n counter).
Proof.
  revert counter. induction n as [|n IH]; intros counter Hn; simpl; [constructor|].
  constructor; [|apply IH; lia].
  intros Hin. apply prefixes_elem in Hin as (i & Hi & Heq).
  rewrite int64_step in Heq. apply int64_eq in Heq as [q Hq]. lia.
Qed.

Lemma GetMaxPrefix_distinct_witness :
  prefixes 3 (2 ^ 63 - 2) = [2 ^ 63 - 1; - 2 ^ 63; - 2 ^ 63 + 1] /\
  NoDup (prefixes 3 (2 ^ 63 - 2)).
Proof.
  split; [vm_compute; reflexivity|].
  apply (GetMaxPrefix_distinct 3 (2 ^ 63 - 2)). simpl. lia.
Defined.

(** ** Table info: what the loops build *)

Section TableInfoLoops.
Context {Value RowCache : Type}.
Variable BuildValue : Cell -> result Value.
Variable ParseUint : string -> Z.
Variable category_of : string -> Category.
Variable NewRowCache : TableInfo Value RowCache -> CachePool -> RowCache.
Implicit Types (ta : Table Value) (ti : TableInfo Value RowCache) (ix : Index).

(** A property of the state and of the rows read so far, kept by every
    step of a loop, holds at its end of the state and of all the rows. *)
Lemma rfold_prefix_invariant {A B} (J : A -> list B -> Prop) (f : A -> B -> result A)
    (l : list B) (a a' : A) :
  (forall x b y seen, J x seen -> f x b = Ok y -> J y (seen ++ [b])) ->
  J a [] -> rfold f a l = Ok a' -> J a' l.
Proof.
  intros Hstep Ha.
  enough (Hgen : forall seen x, J x seen -> rfold f x l = Ok a' -> J a' (seen ++ l))
    by (apply (Hgen [] a Ha)).
  induction l as [|b l IH]; intros seen x Hx H; simpl in H.
  - injection H as <-. by rewrite app_nil_r.
  - apply rbind_Ok in H as (y & Hy & H).
    replace (seen ++ b :: l) with ((seen ++ [b]) ++ l) by (by rewrite <- app_assoc).
    eauto.
Qed.

Lemma asBytes_bytesAt (row : list Cell) (i : nat) (b : string) :
  asBytes row i = Ok b -> bytesAt row i = b.
Proof.
  unfold asBytes, bytesAt. destruct (row !! i) as [[]|]; try done. by intros [= ->].
Qed.

Lemma fetchColumns_row_Ok ta (row : list Cell) :
  is_Ok (fetchColumns_row BuildValue category_of ta row) <-> describeRowOk BuildValue row.
Proof.
  unfold fetchColumns_row, describeRowOk, is_Ok. split.
  - intros [ta' H]. destruct (row !! 4%nat) as [c4|]; [|done].
    apply rbind_Ok in H as (v & Hv & H). apply rbind_Ok in H as (f & Hf & H).
    apply rbind_Ok in H as (t & Ht & H). apply rbind_Ok in H as (e & He & H).
    repeat split; eauto.
  - intros ((c4 & v & -> & ->) & [f ->] & [t ->] & [e ->]). simpl. eauto.
Qed.

(** X9. [fetchColumns] returns exactly when [describe] answers with rows
    it can read (six cells with byte slices for field, type and extra and
    a default that [BuildValue] accepts); the table then has its former
    columns followed by one column per row, in the order of the rows,
    named by the first cell and with the category of the type in the
    second. *)
Theorem fetchColumns_columns ti conn (rows : list (list Cell)) :
  Execute conn ("describe `" +:+ Name (Tbl ti) +:+ "`") = Ok rows ->
  (is_Ok (fetchColumns BuildValue category_of ti conn) <->
   Forall (describeRowOk BuildValue) rows) /\
  (forall ti', fetchColumns BuildValue category_of ti conn = Ok ti' ->
     ColName <$> Columns (Tbl ti') =
       (ColName <$> Columns (Tbl ti)) ++ ((fun row => bytesAt row 0) <$> rows) /\
     ColCategory <$> Columns (Tbl ti') =
       (ColCategory <$> Columns (Tbl ti)) ++
       ((fun row => category_of (bytesAt row 1)) <$> rows)).
Proof.
  intros Hexec. unfold fetchColumns. rewrite Hexec. simpl.
  generalize (Tbl ti) as ta. clear Hexec.
  induction rows as [|row rows IH]; intros ta; simpl.
  - split; [split; [constructor | by eexists]|].
    intros ti' [= <-]. simpl. by rewrite !app_nil_r.
  - destruct (fetchColumns_row BuildValue category_of ta row) as [ta1| | |] eqn:Hrow;
      simpl.
    + assert (Hok : describeRowOk BuildValue row)
        by (apply (fetchColumns_row_Ok ta); by eexists).
      destruct (IH ta1) as [Hiff Hcols]. split.
      * rewrite Hiff. split; [by constructor | by intros [_ ?]%Forall_cons].
      * intros ti' Hti'. destruct (Hcols ti' Hti') as [Hn Hc].
        unfold fetchColumns_row in Hrow. destruct (row !! 4%nat); [|done].
        apply rbind_Ok in Hrow as (v & _ & Hrow).
        apply rbind_Ok in Hrow as (f & Hf & Hrow).
        apply rbind_Ok in Hrow as (t & Ht & Hrow).
        apply rbind_Ok in Hrow as (e & _ & Hrow). injection Hrow as <-.
        simpl in *. rewrite !fmap_app in *. simpl in *.
        rewrite (asBytes_bytesAt _ _ _ Hf), (asBytes_bytesAt _ _ _ Ht).
        rewrite <- !app_assoc in *. by split.
    + split; [|done]. split; [by intros [? ?]|]. intros [Hr _]%Forall_cons.
      apply (fetchColumns_row_Ok ta) in Hr as [? Hr]. congruence.
    + split; [|done]. split; [by intros [? ?]|]. intros [Hr _]%Forall_cons.
      apply (fetchColumns_row_Ok ta) in Hr as [? Hr]. congruence.
    + split; [|done]. split; [by intros [? ?]|]. intros [Hr _]%Forall_cons.
      apply (fetchColumns_row_Ok ta) in Hr as [? Hr]. congruence.
Qed.

Lemma adjacent_names_snoc (idxs : list Index) (lastIx new : Index) :
  (forall i ix1 ix2, (idxs ++ [lastIx]) !! i = Some ix1 ->
                     (idxs ++ [lastIx]) !! S i = Some ix2 -> IdxName ix1 <> IdxName ix2) ->
  IdxName lastIx <> IdxName new ->
  forall i ix1 ix2, ((idxs ++ [lastIx]) ++ [new]) !! i = Some ix1 ->
                    ((idxs ++ [lastIx]) ++ [new]) !! S i = Some ix2 ->
                    IdxName ix1 <> IdxName ix2.
Proof.
  intros Hadj Hne i ix1 ix2 H1 H2.
  destruct (decide (S i < length (idxs ++ [lastIx]))%nat) as [Hlt|Hge].
  - rewrite lookup_app_l in H1 by lia. rewrite lookup_app_l in H2 by lia. eauto.
  - assert (Hi : S i = length (idxs ++ [lastIx])).
    { apply lookup_lt_Some in H2. rewrite length_app in H2. simpl in H2. lia. }
    rewrite lookup_app_r in H2 by lia. rewrite Hi, Nat.sub_diag in H2.
    injection H2 as <-.
    rewrite lookup_app_l in H1 by lia. rewrite length_app in Hi. simpl in Hi.
    rewrite lookup_app_r in H1 by lia.
    replace (i - length idxs)%nat with 0%nat in H1 by lia. by injection H1 as <-.
Qed.

Lemma adjacent_names_alter_last (idxs : list Index) (lastIx new : Index) :
  (forall i ix1 ix2, (idxs ++ [lastIx]) !! i = Some ix1 ->
                     (idxs ++ [lastIx]) !! S i = Some ix2 -> IdxName ix1 <> IdxName ix2) ->
  IdxName new = IdxName lastIx ->
  forall i ix1 ix2, (idxs ++ [new]) !! i = Some ix1 -> (idxs ++ [new]) !! S i = Some ix2 ->
                    IdxName ix1 <> IdxName ix2.
Proof.
  intros Hadj Hn i ix1 ix2 H1 H2.
  assert (Hi : (S i < length idxs + 1)%nat).
  { apply lookup_lt_Some in H2. rewrite length_app in H2. simpl in H2. lia. }
  rewrite lookup_app_l in H1 by lia.
  destruct (decide (S i < length idxs)%nat) as [Hlt|Hge].
  - rewrite lookup_app_l in H2 by lia.
    apply (Hadj i); by rewrite lookup_app_l by lia.
  - rewrite lookup_app_r in H2 by lia.
    replace (S i - length idxs)%nat with 0%nat in H2 by lia. injection H2 as <-.
    rewrite Hn. apply (Hadj i); [by rewrite lookup_app_l by lia|].
    rewrite lookup_app_r by lia. by replace (S i - length idxs)%nat with 0%nat by lia.
Qed.

Lemma alter_last {A} (f : A -> A) (l : list A) (x : A) :
  alter f (length l) (l ++ [x]) = l ++ [f x].
Proof.
  replace (length l) with (length l + 0)%nat by lia. by rewrite alter_app_r.
Qed.

Lemma fetchIndexes_row_grouped (st st' : Table Value * option nat * string)
    (row : list Cell) (seen : list (list Cell)) :
  groupedBy st seen -> fetchIndexes_row ParseUint st row = Ok st' ->
  groupedBy st' (seen ++ [row]).
Proof.
  destruct st as [[ta cur] nm]. unfold groupedBy at 1, fetchIndexes_row.
  intros (Hflat & Hadj & Hlast) H.
  apply rbind_Ok in H as (key & Hkey & H).
  assert (Hrow : rowKeyColumn row = (key, bytesAt row 4)).
  { unfold rowKeyColumn. by rewrite (asBytes_bytesAt _ _ _ Hkey). }
  assert (Hseen : match seen ++ [row] with [] => False | _ => True end)
    by (by destruct seen).
  destruct (decide (nm <> key)) as [Hne|Heq]; simpl in H.
  - (* a new index *)
    apply rbind_Ok in H as (card & _ & H). apply rbind_Ok in H as (column & Hcol & H).
    injection H as <-. rewrite (asBytes_bytesAt _ _ _ Hcol) in Hrow.
    simpl. rewrite alter_last. unfold groupedBy.
    split; [|split].
    + rewrite !fmap_app, concat_app, Hflat. simpl. by rewrite Hrow.
    + destruct seen as [|r seen].
      * destruct Hlast as (-> & _ & _). simpl. intros [|i] ix1 ix2 H1 H2; done.
      * destruct Hlast as (idxs & lastIx & Hix & _ & Hn). rewrite Hix in *.
        apply adjacent_names_snoc; [done|]. simpl. by rewrite Hn.
    + destruct (seen ++ [row]) as [|? ?] eqn:E; [done|].
      eexists (Indexes ta), _. by split; [|split].
  - (* the current index *)
    apply rbind_Ok in H as (card & _ & H). apply rbind_Ok in H as (column & Hcol & H).
    destruct cur as [p|]; [|done]. injection H as <-.
    rewrite (asBytes_bytesAt _ _ _ Hcol) in Hrow.
    destruct seen as [|r seen]; [by destruct Hlast as (_ & ? & _)|].
    destruct Hlast as (idxs & lastIx & Hix & [= ->] & Hn). simpl. rewrite Hix in *.
    rewrite alter_last. unfold groupedBy.
    assert (Hk : key = nm) by (destruct (decide (nm = key)); [done | by exfalso]).
    split; [|split].
    + rewrite !fmap_app, !concat_app in *. simpl in *. rewrite !app_nil_r in *.
      unfold indexPairs at 2. simpl. rewrite fmap_app, app_assoc.
      unfold indexPairs in Hflat at 2. rewrite Hflat. simpl.
      by rewrite Hrow, Hn, Hk.
    + by apply (adjacent_names_alter_last idxs lastIx).
    + destruct ((r :: seen) ++ [row]) as [|? ?] eqn:E; [done|].
      eexists idxs, _. by split; [|split].
Qed.

Lemma coverSecondary_key (pkColumns : list string) ix :
  IdxName (coverSecondary pkColumns ix) = IdxName ix /\
  IdxColumns (coverSecondary pkColumns ix) = IdxColumns ix.
Proof. destruct (coverSecondary_covers pkColumns ix) as (? & ? & _). by split. Qed.

(** The names and the columns of the indexes after [fetchIndexes] are
    those the loop over the rows has built. *)
Lemma fetchIndexes_loop ti conn ti' (rows : list (list Cell)) :
  Execute conn ("show index from `" +:+ Name (Tbl ti) +:+ "`") = Ok rows ->
  fetchIndexes ParseUint ti conn = Ok ti' ->
  exists st,
    rfold (fetchIndexes_row ParseUint) (Tbl ti, None, "") rows = Ok st /\
    (fun ix => (IdxName ix, IdxColumns ix)) <$> Indexes (Tbl ti') =
    (fun ix => (IdxName ix, IdxColumns ix)) <$> Indexes st.1.1.
Proof.
  intros Hexec H. unfold fetchIndexes in H. rewrite Hexec in H. simpl in H.
  apply rbind_Ok in H as (st & Hfold & H). exists st. split; [done|].
  destruct (Indexes st.1.1) as [|pkIndex rest] eqn:Hix.
  - injection H as <-. simpl. by rewrite Hix.
  - case_decide.
    + injection H as <-. simpl. by rewrite Hix.
    + injection H as <-. simpl. f_equal.
      rewrite <- list_fmap_compose. apply list_fmap_ext. intros i ix _. simpl.
      by destruct (coverSecondary_key (IdxColumns pkIndex) ix) as [-> ->].
Qed.

(** X10. Loading the indexes of a table that has none yet groups the rows
    of [show index] by runs of the same key name: the indexes, each
    taken with its columns in order, give back the key and column names
    of the rows in order; two indexes that follow each other have
    different names; no index is without a column. *)
Theorem fetchIndexes_groups ti conn ti' (rows : list (list Cell)) :
  Indexes (Tbl ti) = [] ->
  Execute conn ("show index from `" +:+ Name (Tbl ti) +:+ "`") = Ok rows ->
  fetchIndexes ParseUint ti conn = Ok ti' ->
  concat (indexPairs <$> Indexes (Tbl ti')) = rowKeyColumn <$> rows /\
  (forall i ix1 ix2,
     Indexes (Tbl ti') !! i = Some ix1 -> Indexes (Tbl ti') !! S i = Some ix2 ->
     IdxName ix1 <> IdxName ix2) /\
  Forall (fun ix => IdxColumns ix <> []) (Indexes (Tbl ti')).
Proof.
  intros Hnone Hexec H.
  destruct (fetchIndexes_loop _ _ _ _ Hexec H) as (st & Hfold & Hkeys).
  assert (Hg : groupedBy st rows).
  { revert Hfold. apply rfold_prefix_invariant.
    - intros x b y seen. apply fetchIndexes_row_grouped.
    - simpl. rewrite Hnone. by repeat split. }
  assert (Hne : Forall (fun ix => IdxColumns ix <> []) (Indexes st.1.1)).
  { revert Hfold.
    apply (rfold_invariant
             (fun x : Table Value * option nat * string =>
                Forall (fun ix => IdxColumns ix <> []) (Indexes x.1.1))).
    - intros x b y Hx Hrow.
      by apply (fetchIndexes_row_frame ParseUint x y b Hrow).
    - simpl. rewrite Hnone. constructor. }
  destruct st as [[ta cur] nm]. destruct Hg as (Hflat & Hadj & _). simpl in *.
  assert (Hlook : forall i ix, Indexes (Tbl ti') !! i = Some ix ->
            exists ix0, Indexes ta !! i = Some ix0 /\ IdxName ix0 = IdxName ix /\
                        IdxColumns ix0 = IdxColumns ix).
  { intros i ix Hi.
    assert (Hk : ((fun ix => (IdxName ix, IdxColumns ix)) <$> Indexes ta) !! i =
                 Some (IdxName ix, IdxColumns ix))
      by (by rewrite <- Hkeys, list_lookup_fmap, Hi).
    rewrite list_lookup_fmap in Hk.
    destruct (Indexes ta !! i) as [ix0|]; [|done]. injection Hk as Hn Hc. eauto. }
  split; [|split].
  - rewrite <- Hflat.
    change indexPairs with
      ((fun k : string * list string => (fun c => (k.1, c)) <$> k.2) ∘
       (fun ix => (IdxName ix, IdxColumns ix))).
    by rewrite !list_fmap_compose, Hkeys.
  - intros i ix1 ix2 H1 H2.
    destruct (Hlook _ _ H1) as (a & Ha & <- & _).
    destruct (Hlook _ _ H2) as (b & Hb & <- & _). eauto.
  - apply Forall_lookup. intros i ix Hi. destruct (Hlook _ _ Hi) as (a & Ha & _ & <-).
    by apply (proj1 (Forall_lookup _ _) Hne i).
Qed.

(** X11. When the first row of [show index] has an empty key name,
    [fetchIndexes] panics: no index has been created for the row to go
    to. *)
Theorem fetchIndexes_empty_key ti conn (row : list Cell) (rows : list (list Cell)) :
  Execute conn ("show index from `" +:+ Name (Tbl ti) +:+ "`") = Ok (row :: rows) ->
  asBytes row 2 = Ok "" ->
  fetchIndexes ParseUint ti conn = Panic.
Proof.
  intros Hexec Hkey. unfold fetchIndexes. rewrite Hexec. cbn [rbind rfold].
  assert (Hrow : fetchIndexes_row ParseUint (Tbl ti, None, "") row = Panic).
  { unfold fetchIndexes_row. rewrite Hkey. simpl.
    destruct (row !! 6%nat) as [[]|]; simpl; try done;
      unfold asBytes; by destruct (row !! 4%nat) as [[]|]. }
  by rewrite Hrow.
Qed.

End TableInfoLoops.

(** ** Table info: covering, the cache decision and the key override *)

Section TableInfoMore.
Context {Value RowCache : Type}.
Variable BuildValue : Cell -> result Value.
Variable ParseUint : string -> Z.
Variable category_of : string -> Category.
Variable NewRowCache : TableInfo Value RowCache -> CachePool -> RowCache.
Implicit Types (ta : Table Value) (ti : TableInfo Value RowCache) (ix : Index).

Lemma coverSecondary_pk_extra (pkColumns : list string) ix :
  exists extra,
    DataColumns (foldl (fun ix c =>
                          if decide (FindDataColumn ix c <> -1) then ix
                          else withDataColumns ix (DataColumns ix ++ [c]))
                       ix pkColumns) = DataColumns ix ++ extra /\
    (forall c, c ∈ extra <-> c ∈ pkColumns /\ c ∉ DataColumns ix) /\
    NoDup extra /\ sublist extra pkColumns.
Proof.
  revert ix. induction pkColumns as [|k pk IH]; intros ix; simpl.
  - exists []. rewrite app_nil_r. split; [done|]. split; [|split; constructor].
    intros c. split; [by intros ?%elem_of_nil | by intros [?%elem_of_nil _]].
  - case_decide as Hk.
    + assert (Hin : k ∈ DataColumns ix).
      { destruct (decide (k ∈ DataColumns ix)) as [|Hn]; [done|].
        by apply FindDataColumn_missing in Hn. }
      destruct (IH ix) as (extra & Heq & Hmem & Hnd & Hsub).
      exists extra. split; [done|]. split; [|split; [done | by apply sublist_cons]].
      intros c. rewrite Hmem, elem_of_cons. split; [tauto|].
      intros [[->|?] ?]; [done | tauto].
    + assert (Hout : k ∉ DataColumns ix).
      { apply FindDataColumn_missing. destruct (decide (FindDataColumn ix k = -1)); tauto. }
      destruct (IH (withDataColumns ix (DataColumns ix ++ [k])))
        as (extra & Heq & Hmem & Hnd & Hsub).
      simpl in *. exists (k :: extra). split; [by rewrite Heq, <- app_assoc|].
      split; [|split].
      * intros c. rewrite !elem_of_cons, Hmem, elem_of_app, list_elem_of_singleton.
        split.
        -- intros [->|[? ?]]; [tauto|]. split; [tauto|]. tauto.
        -- intros [[->|?] ?]; [tauto|]. destruct (decide (c = k)); [tauto|]. tauto.
      * constructor; [|done]. intros Hin. apply Hmem in Hin as [_ Hin].
        apply Hin, elem_of_app. right. by apply list_elem_of_singleton.
      * by apply sublist_skip.
Qed.

(** X12. Covering a secondary index appends to its [DataColumns] its own
    columns and then those primary-key columns that are not there yet,
    each once and in the order of the primary key; nothing else is added,
    and when the index columns are distinct so is the result. *)
Theorem coverSecondary_exact (pkColumns : list string) ix :
  exists extra,
    DataColumns (coverSecondary pkColumns ix) = DataColumns ix ++ IdxColumns ix ++ extra /\
    (forall c, c ∈ extra <-> c ∈ pkColumns /\ c ∉ DataColumns ix ++ IdxColumns ix) /\
    NoDup extra /\ sublist extra pkColumns /\
    (NoDup (DataColumns ix ++ IdxColumns ix) ->
     NoDup (DataColumns (coverSecondary pkColumns ix))).
Proof.
  unfold coverSecondary. rewrite coverSecondary_own.
  destruct (coverSecondary_pk_extra pkColumns
              (withDataColumns ix (DataColumns ix ++ IdxColumns ix)))
    as (extra & Heq & Hmem & Hnd & Hsub).
  simpl in *. exists extra. rewrite Heq, <- app_assoc.
  split; [done|]. split; [done|]. split; [done|]. split; [done|].
  intros Hown. rewrite app_assoc. apply NoDup_app. split; [done|]. split; [|done].
  intros c Hc Hin. by apply Hmem in Hin as [_ ?].
Qed.

Lemma pkSupported_panic (cols : list (TableColumn Value)) (pk : list Z) :
  pkSupported cols pk = Panic <->
  exists pre p post,
    pk = pre ++ p :: post /\ at_index cols p = None /\
    forall q, q ∈ pre -> exists c, at_index cols q = Some c /\ ColCategory c <> CAT_OTHER.
Proof.
  induction pk as [|q pk IH]; simpl.
  - split; [done|]. intros (pre & p & post & Heq & _). by destruct pre.
  - destruct (at_index cols q) as [c|] eqn:Hq.
    + case_decide as Hcat.
      * split; [done|]. intros (pre & p & post & Heq & Hp & Hpre).
        destruct pre as [|q' pre]; simpl in Heq; injection Heq as <- ->; [congruence|].
        destruct (Hpre q) as (c' & Hc' & Hn); [by left | congruence].
      * rewrite IH. split.
        -- intros (pre & p & post & -> & Hp & Hpre). exists (q :: pre), p, post.
           split; [done|]. split; [done|].
           intros x [->|Hx]%elem_of_cons; [by exists c | auto].
        -- intros (pre & p & post & Heq & Hp & Hpre).
           destruct pre as [|q' pre]; simpl in Heq; injection Heq as <- ->; [congruence|].
           exists pre, p, post. split; [done|]. split; [done|].
           intros x Hx. apply Hpre. by right.
    + split; [|done]. intros _. exists [], q, pk. split; [done|]. split; [done|].
      intros x Hx. by apply elem_of_nil in Hx.
Qed.

(** X13. With an open pool, a comment without the marker and a table
    that is not a view, [initRowCache] panics exactly when [PKColumns]
    holds a position outside the column list that comes before every
    position of a column of category other; it returns no error. *)
Theorem initRowCache_panic ti (tableType : string) (createTime : Value) (comment : string)
    (cachePool : CachePool) :
  IsClosed cachePool = false ->
  Contains comment "vtocc_nocache" = false ->
  tableType <> "VIEW" ->
  (initRowCache NewRowCache ti tableType createTime comment cachePool = Panic <->
   exists pre p post,
     PKColumns (Tbl ti) = Some (pre ++ p :: post) /\
     at_index (Columns (Tbl ti)) p = None /\
     forall q, q ∈ pre ->
       exists c, at_index (Columns (Tbl ti)) q = Some c /\ ColCategory c <> CAT_OTHER) /\
  (forall e, initRowCache NewRowCache ti tableType createTime comment cachePool <> Err e) /\
  (forall e, initRowCache NewRowCache ti tableType createTime comment cachePool <> Fatal e).
Proof.
  intros Hopen Hcomment Hview. unfold initRowCache.
  rewrite Hopen, Hcomment, decide_False by done.
  destruct (PKColumns (Tbl ti)) as [pk|].
  - pose proof (pkSupported_panic (Columns (Tbl ti)) pk) as Hp.
    destruct (pkSupported (Columns (Tbl ti)) pk) as [[]| | |] eqn:Hs; simpl.
    + split; [|done]. split; [done|]. intros (pre & p & post & [= ->] & H).
      assert (HP : @Ok bool true = Panic) by (apply (proj2 Hp); eauto). done.
    + split; [|done]. split; [done|]. intros (pre & p & post & [= ->] & H).
      assert (HP : @Ok bool false = Panic) by (apply (proj2 Hp); eauto). done.
    + exfalso. clear Hp. revert Hs. induction pk as [|q pk IH]; simpl; [done|].
      destruct (at_index _ q); [|done]. by case_decide.
    + split; [|done]. split; [|done]. intros _.
      destruct (proj1 Hp eq_refl) as (pre & p & post & -> & H). eauto.
    + exfalso. clear Hp. revert Hs. induction pk as [|q pk IH]; simpl; [done|].
      destruct (at_index _ q); [|done]. by case_decide.
  - split; [|done]. split; [done|]. by intros (pre & p & post & ? & _).
Qed.

Lemma loadTableInfo_pk conn (tableName : string) ti :
  loadTableInfo BuildValue ParseUint category_of conn tableName = Ok ti ->
  match Indexes (Tbl ti) with
  | pkIndex :: _ =>
      if decide (IdxName pkIndex = "PRIMARY")
      then PKColumns (Tbl ti) = Some (FindColumn (Columns (Tbl ti)) <$> IdxColumns pkIndex)
      else PKColumns (Tbl ti) = None
  | [] => PKColumns (Tbl ti) = None
  end.
Proof.
  unfold loadTableInfo. intros H. apply rbind_Ok in H as (ti0 & Hcols & Hidx).
  destruct (fetchColumns_frame BuildValue category_of NewRowCache _ _ _ Hcols)
    as (_ & Hp0 & _).
  simpl in Hp0.
  destruct (fetchIndexes_shape ParseUint _ _ _ Hidx) as (ta & _ & Hp & _ & _ & _ & Hshape).
  rewrite Hp0 in Hp.
  destruct (Indexes ta) as [|pk0 rest] eqn:Hix.
  { rewrite Hshape, Hix. done. }
  destruct (decide (IdxName pk0 <> "PRIMARY")) as [Hne|Heq].
  { rewrite Hshape, Hix. by rewrite decide_False. }
  rewrite Hshape. simpl. rewrite decide_True; [done|].
  destruct (decide (IdxName pk0 = "PRIMARY")); [done | by exfalso].
Qed.

(** X14. [NewTableInfo] on a table whose first index is PRIMARY: when
    every column of that index is a column of the table it returns the
    table (no panic); when the pool is open, the comment has no marker,
    the table is no view and the first column of that index is not a
    column of the table, it panics on the index -1. *)
Theorem NewTableInfo_primary_columns conn (tableName tableType : string)
    (createTime : Value) (comment : string) (cachePool : CachePool) ti (pkIndex : Index) :
  loadTableInfo BuildValue ParseUint category_of conn tableName = Ok ti ->
  Indexes (Tbl ti) !! 0%nat = Some pkIndex ->
  IdxName pkIndex = "PRIMARY" ->
  ((forall c, c ∈ IdxColumns pkIndex -> isColumn (Columns (Tbl ti)) c) ->
   is_Ok (NewTableInfo BuildValue ParseUint category_of NewRowCache conn tableName
                       tableType createTime comment cachePool)) /\
  (IsClosed cachePool = false -> Contains comment "vtocc_nocache" = false ->
   tableType <> "VIEW" ->
   forall c rest, IdxColumns pkIndex = c :: rest -> ~ isColumn (Columns (Tbl ti)) c ->
   NewTableInfo BuildValue ParseUint category_of NewRowCache conn tableName
                tableType createTime comment cachePool = Panic).
Proof.
  intros Hload H0 Hname. unfold NewTableInfo. rewrite Hload. simpl.
  pose proof (loadTableInfo_pk _ _ _ Hload) as Hpk.
  destruct (Indexes (Tbl ti)) as [|pk0 rest0]; [done|]. injection H0 as ->.
  rewrite decide_True in Hpk by done. split.
  - intros Hall. unfold initRowCache.
    destruct (IsClosed cachePool); [by eexists|].
    destruct (Contains comment "vtocc_nocache"); [by eexists|].
    case_decide; [by eexists|]. rewrite Hpk.
    destruct (pkSupported_total (Columns (Tbl ti))
                (FindColumn (Columns (Tbl ti)) <$> IdxColumns pkIndex)) as [b ->].
    + intros p (c & -> & Hc)%list_elem_of_fmap.
      assert (Hf : FindColumn (Columns (Tbl ti)) c <> -1)
        by (by apply isColumn_FindColumn, Hall).
      destruct (FindColumn_found _ _ _ eq_refl Hf) as (Hpos & (col & Hl & _) & _).
      unfold at_index. rewrite decide_True by done. by rewrite Hl.
    + simpl. destruct b; by eexists.
  - intros Hopen Hcomment Hview c rest Hcols Hc.
    apply initRowCache_panic; try done.
    exists [], (-1), (FindColumn (Columns (Tbl ti)) <$> rest).
    split; [|split; [done|]].
    + rewrite Hpk, Hcols. simpl. do 2 f_equal.
      destruct (decide (FindColumn (Columns (Tbl ti)) c = -1)) as [|Hf]; [done|].
      by apply isColumn_FindColumn in Hf.
    + intros q Hq. by apply elem_of_nil in Hq.
Qed.

(** X15. [SetPK] with no column name succeeds and leaves [PKColumns] an
    empty slice that is not nil; [initRowCache] then takes the table for
    one with a primary key: with an open pool, no marker and no view it
    makes the table read-write with a cache although it has no key
    column. *)
Theorem SetPK_empty_cached ti (tableType : string) (createTime : Value) (comment : string)
    (cachePool : CachePool) :
  IsClosed cachePool = false ->
  Contains comment "vtocc_nocache" = false ->
  tableType <> "VIEW" ->
  exists ti1 ti2,
    SetPK ti [] = Ok ti1 /\ PKColumns (Tbl ti1) = Some [] /\
    initRowCache NewRowCache ti1 tableType createTime comment cachePool = Ok ti2 /\
    CacheType (Tbl ti2) = CACHE_RW /\ is_Some (Cache ti2) /\
    ~ cacheable (Tbl ti1) tableType comment cachePool.
Proof.
  intros Hopen Hcomment Hview. eexists _, _. split; [reflexivity|]. simpl.
  split; [done|]. unfold initRowCache. rewrite Hopen, Hcomment, decide_False by done.
  simpl. split; [reflexivity|]. simpl. split; [done|]. split; [by eexists|].
  by intros (_ & _ & _ & Hne & _).
Qed.

Lemma SetPK_loop_name (cols : list (TableColumn Value)) (colnames : list string)
    (pkIndex pkIndex' : Index) (colnums colnums' : list Z) :
  SetPK_loop cols colnames pkIndex colnums = Ok (pkIndex', colnums') ->
  IdxName pkIndex' = IdxName pkIndex.
Proof.
  revert pkIndex colnums. induction colnames as [|c names IH]; intros pkIndex colnums H;
    simpl in H.
  - by injection H as <- _.
  - case_decide; [done|]. by rewrite (IH _ _ H).
Qed.

(** X16. A second [SetPK] replaces the first: after [SetPK] has
    succeeded with some columns, [SetPK] with other columns gives what it
    would have given on the table as it was before (result or error
    alike). *)
Theorem SetPK_twice ti ti1 (first second : list string) :
  SetPK ti first = Ok ti1 -> SetPK ti1 second = SetPK ti second.
Proof.
  unfold SetPK. intros H. apply rbind_Ok in H as ([pkA numsA] & HloopA & H).
  injection H as <-. simpl.
  destruct (SetPK_loop (Columns (Tbl ti)) second (NewIndex "PRIMARY") [])
    as [[pkB numsB]| | |]; simpl; try done.
  do 3 f_equal.
  pose proof (SetPK_loop_name _ _ _ _ _ _ HloopA) as HnA. simpl in HnA.
  destruct (Indexes (Tbl ti)) as [|ix0 rest].
  - simpl. by rewrite decide_False by (by rewrite HnA; intros ?).
  - case_decide.
    + simpl. by rewrite decide_False by (by rewrite HnA; intros ?).
    + simpl. by rewrite decide_False by (by rewrite HnA; intros ?).
Qed.

End TableInfoMore.

(** ** Table info: further examples *)

Lemma fetchColumns_columns_witness :
  exists ti',
    fetchColumns exampleBuildValue exampleCategory newTableT keyedBackend = Ok ti' /\
    ColName <$> Columns (Tbl ti') = ["id"; "name"; "created"] /\
    ColCategory <$> Columns (Tbl ti') = [CAT_NUMBER; CAT_VARBINARY; CAT_OTHER].
Proof.
  destruct (fetchColumns_columns exampleBuildValue exampleCategory newTableT keyedBackend
              keyedDescribe eq_refl) as [Hok Hcols].
  destruct (proj2 Hok) as [ti' Hti'].
  { repeat constructor; try (by eexists); by eexists _, _. }
  exists ti'. split; [exact Hti'|]. destruct (Hcols ti' Hti') as [Hn Hc].
  split; [exact Hn | exact Hc].
Defined.

Lemma fetchIndexes_groups_witness :
  exists ti',
    fetchIndexes exampleParseUint keyedColumns keyedBackend = Ok ti' /\
    concat (indexPairs <$> Indexes (Tbl ti')) = [("PRIMARY", "id"); ("by_name", "name")].
Proof.
  eexists. split; [vm_compute; reflexivity|].
  destruct (fetchIndexes_groups exampleParseUint keyedColumns keyedBackend _ keyedShowIndex
              eq_refl eq_refl ltac:(vm_compute; reflexivity)) as (Hflat & _ & _).
  exact Hflat.
Defined.

Lemma fetchIndexes_empty_key_witness :
  exampleLoad namelessBackend = Panic.
Proof.
  unfold exampleLoad, loadTableInfo.
  assert (Hcols : fetchColumns exampleBuildValue exampleCategory
                    (mkTableInfo (RowCache := unit) (NewTable "t") None 0 0 0 0)
                    namelessBackend =
                  Ok (mkTableInfo
                        (mkTable "t" [mkColumn "a" CAT_NUMBER "" ""] [] None CACHE_NONE)
                        None 0 0 0 0))
    by (vm_compute; reflexivity).
  rewrite Hcols. simpl rbind.
  apply (fetchIndexes_empty_key exampleParseUint _ namelessBackend
           (indexRow "" "a" "1") []); reflexivity.
Defined.

Lemma ghostLoaded_eq : exampleLoad ghostBackend = Ok ghostLoaded.
Proof. vm_compute. reflexivity. Defined.

Lemma initRowCache_panic_witness :
  PKColumns (Tbl ghostLoaded) = Some [-1] /\
  initRowCache (fun _ _ => tt) ghostLoaded "BASE TABLE" "" "" openPool = Panic.
Proof.
  split; [reflexivity|].
  apply (initRowCache_panic (fun _ _ => tt) ghostLoaded "BASE TABLE" "" "" openPool
           eq_refl eq_refl ltac:(discriminate)).
  exists [], (-1), []. split; [reflexivity|]. split; [reflexivity|].
  intros q Hq. by apply elem_of_nil in Hq.
Defined.

Lemma NewTableInfo_primary_columns_witness :
  NewTableInfo exampleBuildValue exampleParseUint exampleCategory (fun _ _ => tt)
               ghostBackend "t" "BASE TABLE" "" "" openPool = Panic /\
  is_Ok (NewTableInfo exampleBuildValue exampleParseUint exampleCategory (fun _ _ => tt)
                      keyedBackend "t" "BASE TABLE" "" "" openPool).
Proof.
  split.
  - destruct (NewTableInfo_primary_columns exampleBuildValue exampleParseUint
                exampleCategory (fun _ _ => tt) ghostBackend "t" "BASE TABLE" "" ""
                openPool ghostLoaded _ ghostLoaded_eq eq_refl eq_refl) as [_ Hpanic].
    apply (Hpanic eq_refl eq_refl ltac:(discriminate) "ghost" [] eq_refl).
    intros (col & Hin & Hname). apply list_elem_of_singleton in Hin as ->. discriminate.
  - destruct (NewTableInfo_primary_columns exampleBuildValue exampleParseUint
                exampleCategory (fun _ _ => tt) keyedBackend "t" "BASE TABLE" "" ""
                openPool keyedLoaded _ keyedLoaded_eq eq_refl eq_refl) as [Hok _].
    apply Hok. intros c Hc. apply list_elem_of_singleton in Hc as ->.
    exists (mkColumn "id" CAT_NUMBER "" ""). split; [by left | reflexivity].
Defined.

Lemma SetPK_empty_cached_witness :
  exists ti1 ti2,
    SetPK keylessLoaded [] = Ok ti1 /\
    initRowCache (fun _ _ => tt) ti1 "BASE TABLE" "" "" openPool = Ok ti2 /\
    CacheType (Tbl ti2) = CACHE_RW.
Proof.
  destruct (SetPK_empty_cached (fun _ _ => tt) keylessLoaded "BASE TABLE" "" "" openPool
              eq_refl eq_refl ltac:(discriminate))
    as (ti1 & ti2 & Hset & _ & Hinit & Hrw & _).
  exists ti1, ti2. split; [exact Hset|]. split; [exact Hinit | exact Hrw].
Defined.

Lemma SetPK_twice_witness :
  exists ti1,
    SetPK keylessLoaded ["a"] = Ok ti1 /\
    SetPK ti1 ["b"] = SetPK keylessLoaded ["b"] /\
    SetPK ti1 ["zz"] = Err "column zz not found".
Proof.
  eexists. split; [vm_compute; reflexivity|].
  split.
  - apply (SetPK_twice keylessLoaded _ ["a"] ["b"]). vm_compute. reflexivity.
  - rewrite (SetPK_twice keylessLoaded _ ["a"] ["zz"]) by (vm_compute; reflexivity).
    vm_compute. reflexivity.
Defined.

(** ** The query rewriter *)

Lemma writeNames_concat (columns : list string) (buf : TrackedBuffer) :
  columns <> [] ->
  writeNames columns buf = Ok (WriteString buf (String.concat ", " columns)).
Proof.
  revert buf. induction columns as [|c rest IH]; intros buf Hne; [done|].
  destruct rest as [|c' rest]; [done|].
  change (writeNames (c :: c' :: rest) buf)
    with (writeNames (c' :: rest) (WriteString buf (c +:+ ", "))).
  rewrite IH by done. rewrite WriteString_WriteString.
  change (String.concat ", " (c :: c' :: rest))
    with (c +:+ ", " +:+ String.concat ", " (c' :: rest)).
  by rewrite append_assoc.
Qed.

Lemma writeColumnList_writeNames {Value} (buf : TrackedBuffer)
    (columns : list (TableColumn Value)) :
  writeColumnList buf columns = writeNames (ColName <$> columns) buf.
Proof.
  revert buf. induction columns as [|c rest IH]; intros buf; [done|].
  destruct rest as [|c' rest]; [done|].
  change (writeColumnList buf (c :: c' :: rest))
    with (writeColumnList (WriteString buf (ColName c +:+ ", ")) (c' :: rest)).
  by rewrite IH.
Qed.

Lemma GenerateSubquery_columns (columns : list string) (table : SQLNode)
    (where_ : option SQLNode) (order : SQLNode) (limit : option SQLNode)
    (for_update : bool) :
  columns <> [] ->
  GenerateSubquery columns table where_ order limit for_update =
  Ok (GenerateFullQuery (subquerySelect columns table where_ order limit for_update)).
Proof.
  intros Hne. unfold GenerateSubquery, GenerateFullQuery, subquerySelect.
  rewrite writeNames_concat by done.
  cbn [rbind Format formatTableExprs formatClause default].
  rewrite !Myprintf_v_Text, !WriteString_empty.
  f_equal. f_equal.
  destruct where_ as [w|], limit as [l|], for_update;
    cbn [printWhere formatClause default]; by rewrite ?WriteString_empty.
Qed.

(** X17. A subquery is the reprint of a select statement: the columns
    given, separated by commas, from the one table expression, with the
    where clause and the order given, with the limit given or, when there
    is none, the limit [:#maxLimit], and with [for update] exactly when
    asked for. Without a column the call panics. *)
Theorem GenerateSubquery_reprint (columns : list string) (table : SQLNode)
    (where_ : option SQLNode) (order : SQLNode) (limit : option SQLNode)
    (for_update : bool) :
  GenerateSubquery columns table where_ order limit for_update =
  match columns with
  | [] => Panic
  | _ => Ok (GenerateFullQuery
               (Select (Text "") "" (Text (String.concat ", " columns)) [table] where_
                       (Text "") None order
                       (Some (match limit with Some l => l | None => execLimit end))
                       (if for_update then " for update" else "")))
  end.
Proof.
  destruct columns as [|c rest]; [done|].
  by rewrite GenerateSubquery_columns.
Qed.

(** X18. The subquery of a select whose first table expression is a plain
    table reads the columns of the table's first index from that table
    expression alone, with the hint [use index (<index>)] in place of the
    hints it had; the other table expressions, the select expressions,
    group by, having and the lock of the statement are not printed. It
    panics when the table has no index or its first index no column. *)
Theorem GenerateSelectSubquery_reprint {Value} (c : SQLNode) (d : string)
    (e expr : SQLNode) (as_ : option string) (saved : option IndexHints)
    (rest : list SQLNode) (w : option SQLNode) (g : SQLNode) (h : option SQLNode)
    (o : SQLNode) (l : option SQLNode) (k : string) (tableInfo : Table Value)
    (index : string) :
  (GenerateSelectSubquery
     (Select c d e (AliasedTableExpr expr as_ saved :: rest) w g h o l k)
     tableInfo index).1 =
  match Indexes tableInfo with
  | [] => Panic
  | ix :: _ =>
      match IdxColumns ix with
      | [] => Panic
      | _ =>
          Ok (GenerateFullQuery
                (subquerySelect (IdxColumns ix)
                   (AliasedTableExpr expr as_ (Some (mkIndexHints "use" [index])))
                   w o l false))
      end
  end.
Proof.
  cbn [GenerateSelectSubquery setHints fst].
  destruct (Indexes tableInfo) as [|ix ixs]; [done|].
  destruct (IdxColumns ix) as [|col cols] eqn:Hcols; [done|].
  by rewrite GenerateSubquery_columns.
Qed.

(** X19. For a select that has no table expression, or whose first table
    expression is not a plain table (a join, a parenthesised expression),
    the subquery generator panics and leaves the statement as it was. *)
Theorem GenerateSelectSubquery_unaliased {Value} (c : SQLNode) (d : string)
    (e : SQLNode) (tables : list SQLNode) (w : option SQLNode) (g : SQLNode)
    (h : option SQLNode) (o : SQLNode) (l : option SQLNode) (k : string)
    (tableInfo : Table Value) (index : string) :
  (forall expr as_ hints rest, tables <> AliasedTableExpr expr as_ hints :: rest) ->
  GenerateSelectSubquery (Select c d e tables w g h o l k) tableInfo index =
  (Panic, Select c d e tables w g h o l k).
Proof.
  intros Hshape. destruct tables as [|t rest]; [done|].
  destruct t; try done. exfalso. by eapply Hshape.
Qed.

(** X20. The subquery of an update or a delete reads the columns of the
    table's first index from the statement's table, without alias or
    hint, with the statement's where clause, order and limit (or the limit
    [:#maxLimit]), locking the rows [for update]. It panics when the table
    has no index or its first index no column. *)
Theorem GenerateUpdateSubquery_reprint {Value} (upd : UpdateStmt) (del : DeleteStmt)
    (tableInfo : Table Value) :
  GenerateUpdateSubquery upd tableInfo =
  match Indexes tableInfo with
  | [] => Panic
  | ix :: _ =>
      match IdxColumns ix with
      | [] => Panic
      | _ =>
          Ok (GenerateFullQuery
                (subquerySelect (IdxColumns ix) (AliasedTableExpr (UpdTable upd) None None)
                   (UpdWhere upd) (UpdOrderBy upd) (UpdLimit upd) true))
      end
  end /\
  GenerateDeleteSubquery del tableInfo =
  match Indexes tableInfo with
  | [] => Panic
  | ix :: _ =>
      match IdxColumns ix with
      | [] => Panic
      | _ =>
          Ok (GenerateFullQuery
                (subquerySelect (IdxColumns ix) (AliasedTableExpr (DelTable del) None None)
                   (DelWhere del) (DelOrderBy del) (DelLimit del) true))
      end
  end.
Proof.
  unfold GenerateUpdateSubquery, GenerateDeleteSubquery.
  destruct (Indexes tableInfo) as [|ix ixs]; [done|].
  destruct (IdxColumns ix) as [|col cols] eqn:Hcols; [done|].
  by rewrite !GenerateSubquery_columns.
Qed.

(** X21. The outer query of a select is the reprint of
    [select <all columns of the table> from <the tables of the statement>
    where :#pk]; nothing else of the statement is printed. It panics when
    the table has no column. *)
Theorem GenerateSelectOuterQuery_reprint {Value} (c : SQLNode) (d : string)
    (e : SQLNode) (tables : list SQLNode) (w : option SQLNode) (g : SQLNode)
    (h : option SQLNode) (o : SQLNode) (l : option SQLNode) (k : string)
    (tableInfo : Table Value) :
  GenerateSelectOuterQuery (Select c d e tables w g h o l k) tableInfo =
  match Columns tableInfo with
  | [] => Panic
  | _ =>
      Ok (GenerateFullQuery
            (Select (Text "") "" (Text (String.concat ", " (ColName <$> Columns tableInfo)))
                    tables (Some (ValArg ":#pk")) (Text "") None (Text "") None ""))
  end.
Proof.
  unfold GenerateSelectOuterQuery, GenerateFullQuery.
  rewrite writeColumnList_writeNames.
  destruct (Columns tableInfo) as [|col cols] eqn:Hcols; [done|].
  rewrite writeNames_concat by done.
  cbn [rbind Format formatClause].
  rewrite !Myprintf_v_Text, !WriteString_empty.
  by rewrite (Myprintf_v_nil (ValArg ":#pk")) by formatter_known.
Qed.

(** X22. The field query is nil exactly when a bind variable is left in
    what it prints: the select expressions and table expressions of the
    selects (join conditions apart) and everything outside of selects. *)
Theorem GenerateFieldQuery_nil_iff (statement : SQLNode) :
  GenerateFieldQuery statement = None <->
  countArgs (impossibleStatement statement) <> 0%nat.
Proof.
  unfold GenerateFieldQuery.
  pose proof (Myprintf_v_impossibleStatement statement
                (NewTrackedBuffer impossibleFormatter) eq_refl) as H.
  change (withFormatter nilFormatter (NewTrackedBuffer impossibleFormatter))
    with (NewTrackedBuffer nilFormatter) in H.
  pose proof (Myprintf_v_countArgs (impossibleStatement statement)
                (NewTrackedBuffer nilFormatter) eq_refl) as Hn.
  rewrite <- H in Hn. unfold withFormatter, HasBindVars in *. simpl in Hn.
  rewrite <- Hn.
  destruct (bindLocations (Myprintf_v statement (NewTrackedBuffer impossibleFormatter)));
    simpl; split; intros; done.
Qed.

(** X23. The outer query of an update and of a delete ends with the bind
    variable [:#pk], the last of its bind locations; the where clause,
    order and limit of the statement are not printed. The outer query of
    an insert and of a replace has one bind location more than its
    comments, table, columns and on-duplicate clause have bind
    variables, the one of [:#values]: the rows of the statement are not
    printed. *)
Theorem outer_queries_bind_locations (upd : UpdateStmt) (del : DeleteStmt)
    (ins : InsertStmt) :
  (exists text,
     Query (GenerateUpdateOuterQuery upd) = text +:+ ":#pk" /\
     last (BindLocations (GenerateUpdateOuterQuery upd)) = Some (String.length text, 4%nat) /\
     length (BindLocations (GenerateUpdateOuterQuery upd)) =
     S (countArgs (UpdComments upd) + countArgs (UpdTable upd) + countArgs (UpdExprs upd))) /\
  (exists text,
     Query (GenerateDeleteOuterQuery del) = text +:+ ":#pk" /\
     last (BindLocations (GenerateDeleteOuterQuery del)) = Some (String.length text, 4%nat) /\
     length (BindLocations (GenerateDeleteOuterQuery del)) =
     S (countArgs (DelComments del) + countArgs (DelTable del))) /\
  length (BindLocations (GenerateInsertOuterQuery ins)) =
    S (countArgs (InsComments ins) + countArgs (InsTable ins) +
       countArgs (InsColumns ins) + countArgs (InsOnDup ins)) /\
  length (BindLocations (GenerateReplaceOuterQuery ins)) =
    S (countArgs (InsComments ins) + countArgs (InsTable ins) +
       countArgs (InsColumns ins) + countArgs (InsOnDup ins)).
Proof.
  split; [|split; [|split]].
  - eexists. split; [reflexivity|]. split.
    + unfold GenerateUpdateOuterQuery, toParsedQuery, WriteArg. simpl.
      by rewrite last_snoc.
    + unfold GenerateUpdateOuterQuery, toParsedQuery, WriteArg. simpl.
      rewrite length_app. simpl.
      repeat (rewrite Myprintf_v_countArgs by formatter_known; simpl). lia.
  - eexists. split; [reflexivity|]. split.
    + unfold GenerateDeleteOuterQuery, toParsedQuery, WriteArg. simpl.
      by rewrite last_snoc.
    + unfold GenerateDeleteOuterQuery, toParsedQuery, WriteArg. simpl.
      rewrite length_app. simpl.
      repeat (rewrite Myprintf_v_countArgs by formatter_known; simpl). lia.
  - unfold GenerateInsertOuterQuery, generateInsertOuterQuery, toParsedQuery. simpl.
    repeat (rewrite Myprintf_v_countArgs by formatter_known; simpl).
    rewrite length_app.
    repeat (rewrite Myprintf_v_countArgs by formatter_known; simpl). lia.
  - unfold GenerateReplaceOuterQuery, generateInsertOuterQuery, toParsedQuery. simpl.
    repeat (rewrite Myprintf_v_countArgs by formatter_known; simpl).
    rewrite length_app.
    repeat (rewrite Myprintf_v_countArgs by formatter_known; simpl). lia.
Qed.

Lemma GenerateSelectSubquery_unaliased_witness :
  GenerateSelectSubquery selectJoined (Tbl keyedLoaded) "PRIMARY" = (Panic, selectJoined).
Proof.
  unfold selectJoined. apply GenerateSelectSubquery_unaliased.
  intros expr as_ hints rest. discriminate.
Defined.

(** ** Field descriptors *)

Lemma int64_small (x : Z) : - 2 ^ 63 <= x < 2 ^ 63 -> int64 x = x.
Proof. intros H. unfold int64. rewrite Z.mod_small; lia. Qed.

Lemma byteZ_bounds (b : Byte.byte) : 0 <= mysql.byteZ b < 256.
Proof. unfold mysql.byteZ. pose proof (Byte.to_N_bounded b). lia. Qed.

Lemma lor_shiftl_add (a b n : Z) :
  0 <= n -> 0 <= a < 2 ^ n -> Z.lor a (Z.shiftl b n) = a + 2 ^ n * b.
Proof.
  intros Hn Ha.
  assert (Hland : Z.land a (Z.shiftl b n) = 0).
  { apply Z.bits_inj'. intros i Hi. rewrite Z.land_spec, Z.bits_0.
    destruct (Z.lt_ge_cases i n) as [Hlt|Hge].
    - rewrite (Z.shiftl_spec_low b n i) by done. apply andb_false_r.
    - rewrite <- (Z.mod_small a (2 ^ n)) by done.
      rewrite Z.mod_pow2_bits_high by lia. done. }
  rewrite <- Z.lxor_lor by done. rewrite <- Z.add_nocarry_lxor by done.
  rewrite Z.shiftl_mul_pow2 by done. lia.
Qed.

Lemma slice_from_Some (bs : list Byte.byte) (i : Z) :
  mysql.slice_from (Some bs) i =
  if decide (0 <= i <= mysql.len (Some bs)) then Ok (Some (drop (Z.to_nat i) bs)) else Panic.
Proof. done. Qed.

Lemma Uint16_at (bs : list Byte.byte) (i : Z) :
  0 <= i <= mysql.len (Some bs) ->
  mysql.Uint16 (Some (drop (Z.to_nat i) bs)) =
  if decide (i + 2 <= mysql.len (Some bs)) then Ok (numberAt bs i 2) else Panic.
Proof.
  unfold mysql.len, mysql.Uint16, numberAt. simpl. intros Hi.
  pose proof (length_drop bs (Z.to_nat i)) as Hlen.
  destruct (drop (Z.to_nat i) bs) as [|b0 [|b1 r]]; simpl in *;
    case_decide; try lia; try done.
  f_equal. pose proof (byteZ_bounds b0). rewrite lor_shiftl_add by lia. lia.
Qed.

Lemma Uint32_at (bs : list Byte.byte) (i : Z) :
  0 <= i <= mysql.len (Some bs) ->
  mysql.Uint32 (Some (drop (Z.to_nat i) bs)) =
  if decide (i + 4 <= mysql.len (Some bs)) then Ok (numberAt bs i 4) else Panic.
Proof.
  unfold mysql.len, mysql.Uint32, numberAt. simpl. intros Hi.
  pose proof (length_drop bs (Z.to_nat i)) as Hlen.
  destruct (drop (Z.to_nat i) bs) as [|b0 [|b1 [|b2 [|b3 r]]]]; simpl in *;
    case_decide; try lia; try done.
  f_equal.
  pose proof (byteZ_bounds b0). pose proof (byteZ_bounds b1).
  pose proof (byteZ_bounds b2). pose proof (byteZ_bounds b3).
  rewrite (lor_shiftl_add _ _ 8) by lia.
  rewrite (lor_shiftl_add _ _ 16) by lia.
  rewrite (lor_shiftl_add _ _ 24) by lia. lia.
Qed.

Lemma index_at (bs : list Byte.byte) (i : Z) :
  0 <= i ->
  mysql.index (Some bs) i =
  if decide (i < mysql.len (Some bs)) then Ok (byteAt bs i) else Panic.
Proof.
  unfold mysql.index, mysql.len, byteAt. simpl. intros Hi.
  rewrite decide_True by done.
  destruct (bs !! Z.to_nat i) as [b|] eqn:Hb.
  - pose proof (lookup_lt_Some _ _ _ Hb). rewrite decide_True by lia.
    f_equal. symmetry. by apply nth_lookup_Some.
  - apply lookup_ge_None in Hb. rewrite decide_False by lia. done.
Qed.

Section FieldProperties.

Context {Error : Type}.
Variable ErrMalformPacket : Error.
Variable SkipLengthEnodedString : mysql.Bytes -> result (Z * option Error).
Variable LengthEnodedString : mysql.Bytes -> result (mysql.Bytes * bool * Z * option Error).
Variable LengthEncodedInt : mysql.Bytes -> result (Z * bool * Z).
Variable AllocBytes : Z -> list Byte.byte.
Variable defCache : mysql.Bytes.
Variable PutLengthEncodedStringWithAlloc : mysql.Bytes -> list Byte.byte.
Variable Uint16ToBytes Uint32ToBytes Uint64ToBytes : Z -> list Byte.byte.

Local Abbreviation parseName := (mysql.parseName LengthEnodedString).
Local Abbreviation parseNames := (mysql.parseNames SkipLengthEnodedString LengthEnodedString).
Local Abbreviation parseFixed := (mysql.parseFixed ErrMalformPacket LengthEncodedInt).
Local Abbreviation Parse :=
  (mysql.Parse ErrMalformPacket SkipLengthEnodedString LengthEnodedString LengthEncodedInt).
Local Abbreviation Dump :=
  (mysql.Dump AllocBytes defCache PutLengthEncodedStringWithAlloc Uint16ToBytes
              Uint32ToBytes Uint64ToBytes).

Lemma parseName_Data (p : mysql.Bytes) (set : mysql.Field -> mysql.Bytes -> mysql.Field)
    (f f' : mysql.Field) (err err' : option Error) (pos pos' : Z) :
  (forall g v, mysql.Data (set g v) = mysql.Data g) ->
  parseName p set (f, err, pos) = Ok (f', err', pos') ->
  mysql.Data f' = mysql.Data f.
Proof.
  intros Hset. unfold mysql.parseName.
  destruct err as [e|]; [by intros [= <- _ _]|].
  destruct (mysql.slice_from p pos) as [b| | |]; simpl; try done.
  destruct (LengthEnodedString b) as [[[[v isNull] n] err]| | |]; simpl; try done.
  destruct err; intros [= <- _ _]; apply Hset.
Qed.

Lemma parseNames_Data (p : mysql.Bytes) (f : mysql.Field) (err : option Error) (pos : Z) :
  parseNames p = Ok (f, err, pos) -> mysql.Data f = p.
Proof.
  unfold mysql.parseNames.
  destruct (SkipLengthEnodedString p) as [[n e]| | |]; cbn [rbind]; try done.
  destruct e; [by intros [= <- _ _]|].
  destruct (parseName p mysql.withSchema _) as [[[f1 e1] p1]| | |] eqn:H1;
    cbn [rbind]; try done.
  destruct (parseName p mysql.withTable _) as [[[f2 e2] p2]| | |] eqn:H2;
    cbn [rbind]; try done.
  destruct (parseName p mysql.withOrgTable _) as [[[f3 e3] p3]| | |] eqn:H3;
    cbn [rbind]; try done.
  destruct (parseName p mysql.withName _) as [[[f4 e4] p4]| | |] eqn:H4;
    cbn [rbind]; try done.
  intros H5.
  apply parseName_Data in H1, H2, H3, H4, H5; try done.
  by rewrite H5, H4, H3, H2, H1.
Qed.

Lemma parseName_pos (p : mysql.Bytes) (set : mysql.Field -> mysql.Bytes -> mysql.Field)
    (st : mysql.ParseState) (f : mysql.Field) (pos : Z) :
  parseName p set st = Ok (f, None, pos) ->
  st.1.2 = None /\ - 2 ^ 63 <= pos < 2 ^ 63.
Proof.
  unfold mysql.parseName. destruct st as [[f0 [e|]] pos0]; [done|].
  destruct (mysql.slice_from p pos0) as [b| | |]; cbn [rbind]; try done.
  destruct (LengthEnodedString b) as [[[[v isNull] n] err]| | |]; cbn [rbind]; try done.
  destruct err; [done|]. intros [= _ <-]. split; [done|].
  unfold int64. pose proof (Z.mod_pos_bound (pos0 + n + 2 ^ 63) (2 ^ 64)). lia.
Qed.

Lemma parseNames_pos (p : mysql.Bytes) (f : mysql.Field) (pos : Z) :
  parseNames p = Ok (f, None, pos) -> - 2 ^ 63 <= pos < 2 ^ 63.
Proof.
  unfold mysql.parseNames.
  destruct (SkipLengthEnodedString p) as [[n e]| | |]; cbn [rbind]; try done.
  destruct e; [done|].
  repeat match goal with
         | |- context [rbind ?c _] => destruct c as [?| | |]; cbn [rbind]; try done
         end.
  intros H. by apply parseName_pos in H as [_ H].
Qed.

Lemma parseFixed_Data (p : mysql.Bytes) (f f' : mysql.Field) (pos : Z)
    (err : option Error) :
  parseFixed p f pos = Ok (f', err) -> mysql.Data f' = mysql.Data f.
Proof.
  unfold mysql.parseFixed.
  repeat first
    [ match goal with
      | |- context [rbind ?c _] => destruct c as [?| | |]; cbn [rbind]; try done
      | |- context [match ?r with (_, _) => _ end] => is_var r; destruct r
      end
    | case_decide ];
    by intros [= <- _].
Qed.

(** X24. Dumping the field that parsing a packet returned gives the packet
    back, byte for byte: also when the parse ended with an error, and
    whatever the bytes are. *)
Theorem Dump_Parse (bs : list Byte.byte) (f : mysql.Field) (err : option Error) :
  Parse (Some bs) = Ok (f, err) -> Dump f = Some bs.
Proof.
  unfold mysql.Parse.
  destruct (parseNames (Some bs)) as [[[f0 e0] pos]| | |] eqn:Hnames; simpl; try done.
  apply parseNames_Data in Hnames.
  assert (Hdata : mysql.Data f = Some bs -> Dump f = Some bs).
  { intros Hd. unfold mysql.Dump. by rewrite Hd. }
  destruct e0 as [e|].
  - intros [= <- _]. by apply Hdata.
  - intros Hfixed. apply parseFixed_Data in Hfixed. apply Hdata. congruence.
Qed.

Lemma parseFixed_short (bs : list Byte.byte) (f : mysql.Field) (pos : Z) :
  0 <= pos < 2 ^ 63 -> mysql.len (Some bs) < 2 ^ 62 ->
  mysql.len (Some bs) < pos + 11 ->
  parseFixed (Some bs) f pos = Panic.
Proof.
  intros Hpos Hlen Hshort. unfold mysql.parseFixed.
  destruct (decide (pos <= mysql.len (Some bs))) as [Hin|Hout].
  2:{ rewrite slice_from_Some. rewrite decide_False; [done|].
      destruct (decide (pos + 1 < 2 ^ 63)).
      - rewrite int64_small by lia. lia.
      - replace pos with (2 ^ 63 - 1) by lia.
        change (int64 (2 ^ 63 - 1 + 1)) with (- 2 ^ 63). lia. }
  rewrite !int64_small by lia.
  rewrite slice_from_Some. case_decide; [|done]. cbn [rbind].
  rewrite Uint16_at by lia. case_decide; [|done]. cbn [rbind].
  rewrite slice_from_Some. rewrite decide_True by lia. cbn [rbind].
  rewrite Uint32_at by lia. case_decide; [|done]. cbn [rbind].
  rewrite index_at by lia. case_decide; [|done]. cbn [rbind].
  rewrite slice_from_Some. rewrite decide_True by lia. cbn [rbind].
  rewrite Uint16_at by lia. case_decide; [|done]. cbn [rbind].
  rewrite index_at by lia. case_decide; [|done]. lia.
Qed.

Lemma parseFixed_fixed (bs : list Byte.byte) (f : mysql.Field) (pos : Z) :
  0 <= pos -> pos + 11 <= mysql.len (Some bs) -> mysql.len (Some bs) < 2 ^ 62 ->
  parseFixed (Some bs) f pos =
  if decide (mysql.len (Some bs) > pos + 13) then
    try! r <- LengthEncodedInt (Some (drop (Z.to_nat (pos + 13)) bs));
    let '(num, _, n) := r in
    let f := mysql.withDefaultValueLength (fixedField f bs pos) num in
    let pos := int64 (pos + 13 + n) in
    if decide (int64 (pos + int64 num) > mysql.len (Some bs))
    then Ok (f, Some ErrMalformPacket)
    else
      try! v <- mysql.slice (Some bs) pos (int64 (pos + int64 num));
      Ok (mysql.withDefaultValue f v, None)
  else Ok (fixedField f bs pos, None).
Proof.
  intros Hpos Hlen Hmax. unfold mysql.parseFixed.
  rewrite (int64_small (pos + 1)) by lia.
  rewrite (int64_small (pos + 1 + 2)) by lia.
  rewrite (int64_small (pos + 1 + 2 + 4)) by lia.
  rewrite (int64_small (pos + 1 + 2 + 4 + 1)) by lia.
  rewrite (int64_small (pos + 1 + 2 + 4 + 1 + 2)) by lia.
  rewrite (int64_small (pos + 1 + 2 + 4 + 1 + 2 + 1)) by lia.
  rewrite (int64_small (pos + 1 + 2 + 4 + 1 + 2 + 1 + 2)) by lia.
  replace (pos + 1 + 2 + 4 + 1 + 2 + 1 + 2) with (pos + 13) by lia.
  replace (pos + 1 + 2 + 4 + 1 + 2) with (pos + 10) by lia.
  replace (pos + 1 + 2 + 4 + 1) with (pos + 8) by lia.
  replace (pos + 1 + 2 + 4) with (pos + 7) by lia.
  replace (pos + 1 + 2) with (pos + 3) by lia.
  rewrite !slice_from_Some.
  rewrite (decide_True (P := 0 <= pos + 1 <= _)) by lia.
  rewrite (decide_True (P := 0 <= pos + 3 <= _)) by lia.
  rewrite (decide_True (P := 0 <= pos + 8 <= _)) by lia.
  cbn [rbind].
  rewrite Uint16_at by lia. rewrite decide_True by lia. cbn [rbind].
  rewrite Uint32_at by lia. rewrite decide_True by lia. cbn [rbind].
  rewrite index_at by lia. rewrite decide_True by lia. cbn [rbind].
  rewrite Uint16_at by lia. rewrite decide_True by lia. cbn [rbind].
  rewrite index_at by lia. rewrite decide_True by lia. cbn [rbind].
  case_decide; [|done].
  rewrite decide_True by lia. cbn [rbind].
  destruct (LengthEncodedInt _) as [[[num isNull] n]| | |]; done.
Qed.

(** X25. A packet with fewer than eleven bytes after its names makes
    [Parse] panic: no error is returned for it. *)
Theorem Parse_short_packet (bs : list Byte.byte) (f0 : mysql.Field) (pos : Z) :
  parseNames (Some bs) = Ok (f0, None, pos) ->
  0 <= pos -> mysql.len (Some bs) < 2 ^ 62 ->
  mysql.len (Some bs) < pos + 11 ->
  Parse (Some bs) = Panic.
Proof.
  intros Hnames Hpos Hmax Hshort. unfold mysql.Parse. rewrite Hnames. cbn [rbind].
  apply parseNames_pos in Hnames. apply parseFixed_short; lia.
Qed.

(** X26. Of a packet with eleven to thirteen bytes after its names,
    [Parse] returns without error the field whose fixed part is read from
    these bytes: the first is skipped, the charset is the little-endian
    number of the next two, the column length that of the next four, then
    come the type, the two bytes of the flag and the decimals. The two
    filler bytes may be missing, and the field has no default value. *)
Theorem Parse_fixed_part (bs : list Byte.byte) (f0 : mysql.Field) (pos : Z) :
  parseNames (Some bs) = Ok (f0, None, pos) ->
  0 <= pos -> pos + 11 <= mysql.len (Some bs) <= pos + 13 ->
  mysql.len (Some bs) < 2 ^ 62 ->
  Parse (Some bs) =
  Ok (mysql.mkField (Some bs) (mysql.Schema f0) (mysql.Table f0) (mysql.OrgTable f0)
        (mysql.Name f0) (mysql.OrgName f0)
        (numberAt bs (pos + 1) 2) (numberAt bs (pos + 3) 4) (byteAt bs (pos + 7))
        (numberAt bs (pos + 8) 2) (byteAt bs (pos + 10))
        (mysql.DefaultValueLength f0) None, None).
Proof.
  intros Hnames Hpos Hlen Hmax. unfold mysql.Parse. rewrite Hnames. cbn [rbind].
  rewrite parseFixed_fixed by lia. rewrite decide_False by lia.
  apply parseNames_Data in Hnames. unfold fixedField. by rewrite Hnames.
Qed.

(** X27. When more than thirteen bytes follow the names, [Parse] reads
    the length of the default value after them. A length that reaches
    beyond the end of the packet gives the error [ErrMalformPacket], with
    the length in the field and no default value; a length within the
    packet gives the default value, the bytes that follow the length. A
    length so large that the end of the value is no [int] any more
    ([2^63] or beyond) passes the check and makes [Parse] panic. *)
Theorem Parse_default_value (bs : list Byte.byte) (f0 : mysql.Field) (pos num n : Z)
    (isNull : bool) :
  parseNames (Some bs) = Ok (f0, None, pos) ->
  0 <= pos -> pos + 13 < mysql.len (Some bs) -> mysql.len (Some bs) < 2 ^ 62 ->
  LengthEncodedInt (Some (drop (Z.to_nat (pos + 13)) bs)) = Ok (num, isNull, n) ->
  0 <= num < 2 ^ 64 -> 0 <= n -> pos + 13 + n <= mysql.len (Some bs) ->
  Parse (Some bs) =
  if decide (2 ^ 63 <= pos + 13 + n + num) then Panic
  else if decide (pos + 13 + n + num > mysql.len (Some bs))
       then Ok (mysql.withDefaultValueLength (fixedField f0 bs pos) num,
                Some ErrMalformPacket)
       else Ok (mysql.withDefaultValue
                  (mysql.withDefaultValueLength (fixedField f0 bs pos) num)
                  (Some (take (Z.to_nat num) (drop (Z.to_nat (pos + 13 + n)) bs))),
                None).
Proof.
  intros Hnames Hpos Hlen Hmax Hint Hnum Hn Hin.
  unfold mysql.Parse. rewrite Hnames. cbn [rbind].
  rewrite parseFixed_fixed by lia. rewrite decide_True by lia.
  rewrite Hint. cbn [rbind].
  rewrite (int64_small (pos + 13 + n)) by lia.
  destruct (decide (2 ^ 63 <= pos + 13 + n + num)) as [Hbig|Hsmall].
  - assert (Hwrap : int64 (pos + 13 + n + int64 num) = pos + 13 + n + num - 2 ^ 64).
    { destruct (decide (2 ^ 63 <= num)) as [Hneg|Hnat].
      - assert (Hnum' : int64 num = num - 2 ^ 64).
        { unfold int64.
          replace (num + 2 ^ 63) with ((num - 2 ^ 63) + 1 * 2 ^ 64) by lia.
          rewrite Z.mod_add by lia. rewrite Z.mod_small by lia. lia. }
        rewrite Hnum'. rewrite int64_small by lia. lia.
      - rewrite (int64_small num) by lia. unfold int64.
        replace (pos + 13 + n + num + 2 ^ 63)
          with ((pos + 13 + n + num - 2 ^ 63) + 1 * 2 ^ 64) by lia.
        rewrite Z.mod_add by lia. rewrite Z.mod_small by lia. lia. }
    rewrite Hwrap. rewrite decide_False by lia.
    unfold mysql.slice. by rewrite decide_False by lia.
  - rewrite (int64_small num) by lia. rewrite int64_small by lia.
    case_decide; [done|].
    unfold mysql.slice. rewrite decide_True by lia. cbn [rbind fmap option_fmap option_map].
    replace (pos + 13 + n + num - (pos + 13 + n)) with num by lia. done.
Qed.

End FieldProperties.

(** ** Field descriptors: examples *)

Lemma packet_names :
  mysql.parseNames exampleSkipLengthEnodedString exampleLengthEnodedString (Some packet) =
  Ok (packetNamesField, None, 13).
Proof. vm_compute. reflexivity. Qed.

Lemma Dump_Parse_witness :
  exampleParse (Some packet) = Ok (packetField, None) /\
  exampleDump packetField = Some packet.
Proof.
  assert (H : exampleParse (Some packet) = Ok (packetField, None)).
  { vm_compute. reflexivity. }
  split; [exact H|].
  exact (Dump_Parse "malformed packet" exampleSkipLengthEnodedString
           exampleLengthEnodedString exampleLengthEncodedInt
           (fun _ => []) None (fun _ => []) (fun _ => []) (fun _ => []) (fun _ => [])
           packet packetField None H).
Defined.

Lemma Parse_short_packet_witness :
  exampleParse (Some (take 20 packet)) = Panic.
Proof.
  apply (Parse_short_packet "malformed packet" exampleSkipLengthEnodedString
           exampleLengthEnodedString exampleLengthEncodedInt (take 20 packet)
           (mysql.mkField (Some (take 20 packet)) None (Some [Byte.x74]) (Some [Byte.x74])
              (Some [Byte.x61]) (Some [Byte.x61]) 0 0 Byte.x00 0 Byte.x00 0 None) 13).
  - vm_compute. reflexivity.
  - lia.
  - reflexivity.
  - reflexivity.
Defined.

Lemma Parse_fixed_part_witness :
  exampleParse (Some packet) = Ok (packetField, None).
Proof.
  unfold exampleParse.
  rewrite (Parse_fixed_part "malformed packet" exampleSkipLengthEnodedString
             exampleLengthEnodedString exampleLengthEncodedInt packet packetNamesField 13
             packet_names ltac:(lia) ltac:(vm_compute; split; discriminate) eq_refl).
  vm_compute. reflexivity.
Defined.

Lemma Parse_default_value_witness :
  exampleParse (Some packetDefault) =
    Ok (mysql.mkField (Some packetDefault) None (Some [Byte.x74]) (Some [Byte.x74])
          (Some [Byte.x61]) (Some [Byte.x61]) 33 11 Byte.x03 0 Byte.x00 2
          (Some [Byte.x68; Byte.x69]), None) /\
  exampleParse (Some packetTruncated) =
    Ok (mysql.mkField (Some packetTruncated) None (Some [Byte.x74]) (Some [Byte.x74])
          (Some [Byte.x61]) (Some [Byte.x61]) 33 11 Byte.x03 0 Byte.x00 5 None,
        Some "malformed packet") /\
  exampleParse (Some packetHuge) = Panic.
Proof.
  unfold exampleParse. split; [|split].
  - rewrite (Parse_default_value "malformed packet" exampleSkipLengthEnodedString
               exampleLengthEnodedString exampleLengthEncodedInt packetDefault
               (namesOf packetDefault) 13 2 1 false);
      [vm_compute; reflexivity | vm_compute; reflexivity | lia | reflexivity | reflexivity
      | vm_compute; reflexivity | lia | lia | vm_compute; discriminate].
  - rewrite (Parse_default_value "malformed packet" exampleSkipLengthEnodedString
               exampleLengthEnodedString exampleLengthEncodedInt packetTruncated
               (namesOf packetTruncated) 13 5 1 false);
      [vm_compute; reflexivity | vm_compute; reflexivity | lia | reflexivity | reflexivity
      | vm_compute; reflexivity | lia | lia | vm_compute; discriminate].
  - rewrite (Parse_default_value "malformed packet" exampleSkipLengthEnodedString
               exampleLengthEnodedString exampleLengthEncodedInt packetHuge
               (namesOf packetHuge) 13 (2 ^ 64 - 1) 9 false);
      [vm_compute; reflexivity | vm_compute; reflexivity | lia | reflexivity | reflexivity
      | vm_compute; reflexivity | lia | lia | vm_compute; discriminate].
Defined.
